(** * openMotor: the internal-ballistics engine of [motorlib/motor.py]

    A shallow embedding of [motorlib/motor.py] and [motorlib/geometry.py],
    and the properties of the simulation engine proved over it. *)

From Stdlib Require Import ZArith QArith Qabs Qround Qcanon Floats Lia.
From stdpp Require Import base list strings pretty gmap.

Open Scope string_scope.
Open Scope list_scope.

(** ** Numbers

    The engine computes on Python (and numpy) floats.  Its arithmetic is
    kept behind an interface, so that the model runs both on IEEE doubles
    and on exact rationals.  The operations are total, as they are on
    numpy floats, where a division by zero or the root of a negative
    number gives an infinity or a NaN; in the engine the ZeroDivisionError
    of a division of Python floats, and the complex value of their power,
    are not modelled.  The comparison of [test/compare.py] divides Python
    floats, and its model raises ZeroDivisionError. *)

Class Num (F : Type) := {
  of_Z : Z -> F;                 (* an integer literal: 0, 1, 2, 8314, ... *)
  lit_0_01 : F;                  (* the literal 0.01 *)
  lit_0_5 : F;                   (* the literal 0.5 *)
  math_pi : F;                   (* math.pi *)
  nadd : F -> F -> F;            (* x + y *)
  nsub : F -> F -> F;            (* x - y *)
  nmul : F -> F -> F;            (* x * y *)
  ndiv : F -> F -> F;            (* x / y *)
  npow : F -> F -> F;            (* x ** y *)
  nltb : F -> F -> bool;         (* x < y *)
  neqb : F -> F -> bool;         (* x == y *)
  isnan : F -> bool;             (* np.isnan(x) *)
  pyround : F -> Z -> F;         (* round(x, ndigits) *)
  pystr : F -> string;           (* str(x) *)
}.

Declare Scope num_scope.
Delimit Scope num_scope with num.
Infix "+" := nadd : num_scope.
Infix "-" := nsub : num_scope.
Infix "*" := nmul : num_scope.
Infix "/" := ndiv : num_scope.
Infix "**" := npow (at level 30, right associativity) : num_scope.
Infix "<?" := nltb : num_scope.
Infix "==?" := neqb (at level 70) : num_scope.
Notation "x >? y" := (nltb y x) (only parsing) : num_scope.

(** ** Exceptions *)

Inductive exn :=
  IndexError | ValueError | AttributeError | KeyError | ZeroDivisionError.

Inductive result (A : Type) := Ok (a : A) | Raise (e : exn).
Arguments Ok {A} a.
Arguments Raise {A} e.

Definition bind {A B} (r : result A) (f : A -> result B) : result B :=
  match r with Ok a => f a | Raise e => Raise e end.

Notation "x <- r ;; k" := (bind r (fun x => k))
  (at level 100, r at next level, right associativity).

Definition of_option {A} (e : exn) (o : option A) : result A :=
  match o with Some a => Ok a | None => Raise e end.

(** ** Alerts

    Modelled from the spec: the alert classes [simAlert], [simAlertLevel]
    and [simAlertType] are imported by [motor.py] but not defined there;
    the spec (section 3) gives an alert a severity in {ERROR, WARNING}, a
    category in {geometry, constraint}, a description and a location. *)

Inductive simAlertLevel := ERROR | WARNING.
Inductive simAlertType := GEOMETRY | CONSTRAINT.

Record simAlert := SimAlert {
  level : simAlertLevel;
  type : simAlertType;
  description : string;
  location : string;
}.

Global Instance simAlertLevel_eq_dec : EqDecision simAlertLevel.
Proof. solve_decision. Defined.

(** [alert.location = loc], an assignment to the alert object. *)
Definition set_location (loc : string) (alert : simAlert) : simAlert :=
  SimAlert (level alert) (type alert) (description alert) loc.

(** ** The collaborators of the engine

    [motor.py] drives its nozzle, propellant, grains and configuration
    through their methods only; the classes themselves live in other
    modules.  Each is an interface here. *)

(** [propertyCollection]: the base class of the nozzle, the propellant,
    the grains and [MotorConfig].  [getProperty c name] also stands for
    [c.props[name].getValue()]. *)
Class propertyCollection (F props T : Type) := {
  getProperty : T -> string -> F;
  getProperties : T -> props;
  setProperties : props -> T -> T;
}.

(** [getGeometryErrors()], of a grain and of the nozzle. *)
Class GeometryChecked (T : Type) := getGeometryErrors : T -> list simAlert.

Class Nozzle (F props N : Type) := {
  #[global] nozzle_collection :: propertyCollection F props N;
  #[global] nozzle_checked :: GeometryChecked N;
  nozzle_new : N;                              (* nozzle.nozzle() *)
  getThroatArea : N -> F;
  getExitArea : N -> F;
  getExitPressure : N -> F -> F -> F;          (* getExitPressure(k, inputPressure) *)
}.

Class Propellant (F props P : Type) := {
  #[global] propellant_collection :: propertyCollection F props P;
  propellant_new : props -> P;                 (* propellant(propDict) *)
}.

Class Config (F props C : Type) := {
  #[global] config_collection :: propertyCollection F props C;
  MotorConfig_new : C;                         (* MotorConfig() *)
}.

Class Grain (F props C G : Type) := {
  #[global] grain_collection :: propertyCollection F props G;
  #[global] grain_checked :: GeometryChecked G;
  geomName : G -> string;
  grainTypes : string -> option G;             (* grainTypes[tag](), None: KeyError *)
  isEndBurningGrain : G -> bool;               (* type(grain) is endBurningGrain *)
  simulationSetup : C -> G -> G;
  getSurfaceAreaAtRegression : G -> F -> F;
  getVolumeAtRegression : G -> F -> F;
  getWebLeft : G -> F -> F;
  isWebLeft : G -> F -> F -> bool;             (* isWebLeft(regDist, burnoutThres) *)
  getPortArea : G -> F -> option F;            (* None for a grain without a port *)
  getPeakMassFlux : G -> F -> F -> F -> F -> F -> F;
                (* getPeakMassFlux(massIn, dTime, regDist, dRegDist, density) *)
}.

(** The properties [MotorConfig.__init__] declares (lines 18-26): key,
    display name, unit, and the bounds the property layer enforces.  The
    engine reads them through [getProperty]. *)
Definition MotorConfig_props : list (string * string * string * Q * Q) :=
  [ ("maxPressure", "Maximum Allowed Pressure", "Pa", 0, 70000000);
    ("maxMassFlux", "Maximum Allowed Mass Flux", "kg/(m^2*s)", 0, 10000);
    ("minPortThroat", "Minimum Allowed Port/Throat Ratio", "", 1, 4);
    ("burnoutWebThres", "Web Burnout Threshold", "m",
     254 # 10000000, 3175 # 1000000);
    ("burnoutThrustThres", "Thrust Burnout Threshold", "%", 1 # 100, 10);
    ("timestep", "Simulation Timestep", "s", 1 # 10000, 1 # 10);
    ("ambPressure", "Ambient Pressure", "Pa", 1 # 10000, 102000);
    ("mapDim", "Grain Map Dimension", "", 250, 2000) ]%Q.

(** ** Python lists *)

Section PyList.
Context {A : Type}.

(** [l[i]] *)
Definition getitem (l : list A) (i : nat) : result A :=
  of_option IndexError (l !! i).

(** [l[i] = x] *)
Definition setitem (l : list A) (i : nat) (x : A) : result (list A) :=
  if (i <? length l)%nat then Ok (<[i := x]> l) else Raise IndexError.

(** [l[-1]] *)
Definition getitem_last (l : list A) : result A :=
  of_option IndexError (last l).

(** [enumerate(l)] *)
Fixpoint enumerate_from (n : nat) (l : list A) : list (nat * A) :=
  match l with
  | [] => []
  | x :: l' => (n, x) :: enumerate_from (S n) l'
  end.

Definition enumerate (l : list A) : list (nat * A) := enumerate_from 0 l.

End PyList.

Section Engine.
Context {F : Type} {num : Num F}.
Local Open Scope num_scope.

(** What the statements on the loop test and on the thrust need of the
    carrier: no number is less than itself, and 0 is not a NaN.  Doubles
    and rationals both comply. *)
Class NumOrder : Prop := {
  ltb_irrefl : forall x : F, (x <? x) = false;
  isnan_0 : isnan (of_Z 0 : F) = false;
}.

(** [x <= y], read off the comparison of the carrier: [y < x] is false. *)
Definition nle (x y : F) : Prop := (y <? x) = false.

(** Exact arithmetic: the laws of an ordered field that the statements on
    sums, masses and regressions rest on.  The rationals have them;
    doubles do not (a NaN times 0 is a NaN). *)
Class NumExact : Prop := {
  add_0_r : forall x : F, x + of_Z 0 = x;
  mul_0_r : forall x : F, x * of_Z 0 = of_Z 0;
  mul_1_r : forall x : F, x * of_Z 1 = x;
  nle_refl : forall x : F, nle x x;
  nle_trans : forall x y z : F, nle x y -> nle y z -> nle x z;
  add_le_mono : forall a b c d : F, nle a b -> nle c d -> nle (a + c) (b + d);
  mul_nonneg : forall a b : F,
    nle (of_Z 0) a -> nle (of_Z 0) b -> nle (of_Z 0) (a * b);
  mul_le_mono_r : forall a b c : F,
    nle a b -> nle (of_Z 0) c -> nle (a * c) (b * c);
  div_nonneg : forall a b : F,
    nle (of_Z 0) a -> nle (of_Z 0) b -> nle (of_Z 0) (a / b);
  pow_nonneg : forall a b : F, nle (of_Z 0) a -> nle (of_Z 0) (a ** b);
  of_Z_nonneg : forall z : Z, (0 <= z)%Z -> nle (of_Z 0) (of_Z z : F);
}.

(** A number that can be divided by: it and its reciprocal are not below
    0.  On the rationals these are the numbers not below 0; on doubles
    those whose sign bit is clear, the negative zero left out (1 / -0.0 is
    minus infinity), and NaN. *)
Definition plus_sign (x : F) : Prop :=
  nle (of_Z 0) x /\ nle (of_Z 0) (of_Z 1 / x).

(** Monotone arithmetic: what the statements on masses and regressions
    need of the carrier when its operations round.  Sums and products are
    monotone where the order says so (a comparison with a NaN is false,
    so [nle] has a NaN on either side of every number); sums, products,
    powers and quotients by a [plus_sign] of numbers not below 0 are not
    below 0; and sums, products, quotients and powers of [plus_sign]
    numbers are [plus_sign].  Doubles and rationals both comply. *)
Class NumMonotone : Prop := {
  mono_refl : forall x : F, nle x x;
  mono_add : forall a b c d : F, nle a b -> nle c d -> nle (a + c) (b + d);
  mono_add_r : forall a b : F, nle (of_Z 0) b -> nle a (a + b);
  mono_mul_r : forall a b c : F,
    nle a b -> nle (of_Z 0) c -> nle (a * c) (b * c);
  nn_add : forall a b : F,
    nle (of_Z 0) a -> nle (of_Z 0) b -> nle (of_Z 0) (a + b);
  nn_mul : forall a b : F,
    nle (of_Z 0) a -> nle (of_Z 0) b -> nle (of_Z 0) (a * b);
  nn_mul_0 : forall a : F, nle (of_Z 0) (a * of_Z 0);
  nn_div : forall a b : F,
    nle (of_Z 0) a -> plus_sign b -> nle (of_Z 0) (a / b);
  nn_pow : forall a b : F, nle (of_Z 0) a -> nle (of_Z 0) (a ** b);
  nn_of_Z : forall z : Z, (0 <= z)%Z -> nle (of_Z 0) (of_Z z : F);
  ps_lt : forall x : F, (of_Z 0 <? x) = true -> plus_sign x;
  ps_of_Z : forall z : Z, (0 <= z)%Z -> plus_sign (of_Z z : F);
  ps_add : forall a b : F, plus_sign a -> plus_sign b -> plus_sign (a + b);
  ps_mul : forall a b : F, plus_sign a -> plus_sign b -> plus_sign (a * b);
  ps_div : forall a b : F, plus_sign a -> plus_sign b -> plus_sign (a / b);
  ps_pow : forall a b : F, plus_sign a -> plus_sign (a ** b);
}.

(** A number (not a NaN) that is not below 0. *)
Definition nonnegative (f : F) : Prop :=
  isnan f = false /\ (f <? of_Z 0) = false.

(** [sum(l)]: the built-in starts from 0 and adds from the left. *)
Definition pysum (l : list F) : F := foldl nadd (of_Z 0) l.

(** [max(l)]: the first element no later one exceeds; ValueError on []. *)
Definition pymax (l : list F) : result F :=
  match l with
  | [] => Raise ValueError
  | x :: l' => Ok (foldl (fun best y => if y >? best then y else best) x l')
  end.

(** [int(b)] *)
Definition int_of_bool (b : bool) : F := of_Z (if b then 1 else 0).

(** ** [motorlib/geometry.py] *)

Definition circleArea (d : F) : F := ((d / of_Z 2) ** of_Z 2) * math_pi.

Definition circleDiameterFromArea (a : F) : F :=
  of_Z 2 * ((a / math_pi) ** lit_0_5).

Definition tubeArea (d h : F) : F := d * math_pi * h.

Definition cylinderArea (d h : F) : F :=
  (of_Z 2 * circleArea d) + tubeArea d h.

Definition cylinderVolume (d h : F) : F := h * circleArea d.

(** ** The simulation result

    Modelled from the spec: the class [simulationResult] is imported by
    [motor.py] but not defined there.  The spec (section 3) gives it the
    channels time, kn, pressure, force (one number per sample) and mass,
    massFlow, massFlux (one vector per sample, an entry per grain), a
    success flag, initially false, and an ordered list of alerts; channels
    are append-only. *)

Record simulationResult := SimRes {
  ch_time : list F;
  ch_kn : list F;
  ch_pressure : list F;
  ch_force : list F;
  ch_mass : list (list F);
  ch_massFlow : list (list F);
  ch_massFlux : list (list F);
  success : bool;
  alerts : list simAlert;
}.

(** [simulationResult(motor)] *)
Definition simulationResult_new : simulationResult :=
  SimRes [] [] [] [] [] [] [] false [].

(** [channel.addData(x)] *)
Definition addData {A} (x : A) (data : list A) : list A := data ++ [x].

(** [channel.getLast()] *)
Definition getLast {A} (data : list A) : result A := getitem_last data.

(** [channel.getMax()] *)
Definition getMax (data : list F) : result F := pymax data.

(** [simRes.channels[name]], or the flag, updated. *)
Definition with_time (f : list F -> list F) (r : simulationResult) :=
  SimRes (f (ch_time r)) (ch_kn r) (ch_pressure r) (ch_force r) (ch_mass r)
    (ch_massFlow r) (ch_massFlux r) (success r) (alerts r).
Definition with_kn (f : list F -> list F) (r : simulationResult) :=
  SimRes (ch_time r) (f (ch_kn r)) (ch_pressure r) (ch_force r) (ch_mass r)
    (ch_massFlow r) (ch_massFlux r) (success r) (alerts r).
Definition with_pressure (f : list F -> list F) (r : simulationResult) :=
  SimRes (ch_time r) (ch_kn r) (f (ch_pressure r)) (ch_force r) (ch_mass r)
    (ch_massFlow r) (ch_massFlux r) (success r) (alerts r).
Definition with_force (f : list F -> list F) (r : simulationResult) :=
  SimRes (ch_time r) (ch_kn r) (ch_pressure r) (f (ch_force r)) (ch_mass r)
    (ch_massFlow r) (ch_massFlux r) (success r) (alerts r).
Definition with_mass (f : list (list F) -> list (list F)) (r : simulationResult) :=
  SimRes (ch_time r) (ch_kn r) (ch_pressure r) (ch_force r) (f (ch_mass r))
    (ch_massFlow r) (ch_massFlux r) (success r) (alerts r).
Definition with_massFlow (f : list (list F) -> list (list F)) (r : simulationResult) :=
  SimRes (ch_time r) (ch_kn r) (ch_pressure r) (ch_force r) (ch_mass r)
    (f (ch_massFlow r)) (ch_massFlux r) (success r) (alerts r).
Definition with_massFlux (f : list (list F) -> list (list F)) (r : simulationResult) :=
  SimRes (ch_time r) (ch_kn r) (ch_pressure r) (ch_force r) (ch_mass r)
    (ch_massFlow r) (f (ch_massFlux r)) (success r) (alerts r).
Definition with_success (b : bool) (r : simulationResult) :=
  SimRes (ch_time r) (ch_kn r) (ch_pressure r) (ch_force r) (ch_mass r)
    (ch_massFlow r) (ch_massFlux r) b (alerts r).

(** [simRes.addAlert(alert)] *)
Definition addAlert (alert : simAlert) (r : simulationResult) :=
  SimRes (ch_time r) (ch_kn r) (ch_pressure r) (ch_force r) (ch_mass r)
    (ch_massFlow r) (ch_massFlux r) (success r) (alerts r ++ [alert]).

(** [simRes.getAlertsByLevel(level)] *)
Definition getAlertsByLevel (lvl : simAlertLevel) (r : simulationResult) :
  list simAlert :=
  filter (fun a => level a = lvl) (alerts r).

(** [simRes.getMaxPressure()] *)
Definition getMaxPressure (r : simulationResult) : result F :=
  getMax (ch_pressure r).

(** [simRes.getPeakMassFlux()]: the peak over all samples and grains. *)
Definition getPeakMassFlux_res (r : simulationResult) : result F :=
  pymax (concat (ch_massFlux r)).

(** ** The motor *)

Context {props N P C G : Type}.
Context {nozzleI : Nozzle F props N} {propellantI : Propellant F props P}.
Context {configI : Config F props C} {grainI : Grain F props C G}.

Record motor := Motor {
  grains : list G;
  propellant : option P;
  nozzle : N;
  config : C;
}.

(** The entries of [motorData['grains']]. *)
Record grainEntry := GrainEntry {
  entry_type : string;
  entry_properties : props;
}.

(** The dictionary [getDict] builds and [applyDict] reads. *)
Record motorData := MotorData {
  md_nozzle : props;
  md_propellant : option props;
  md_grains : list grainEntry;
  md_config : props;
}.

(** [motor.getDict] (lines 38-47) *)
Definition getDict (self : motor) : motorData :=
  MotorData
    (getProperties (nozzle self))
    (match propellant self with
     | Some p => Some (getProperties p)
     | None => None
     end)
    (map (fun grain => GrainEntry (geomName grain) (getProperties grain))
         (grains self))
    (getProperties (config self)).

(** The loop of [applyDict] (lines 56-58): append a grain of the entry's
    type, then set its properties. *)
Fixpoint applyDict_grains (entries : list grainEntry) (acc : list G) :
  result (list G) :=
  match entries with
  | [] => Ok acc
  | entry :: rest =>
      g <- of_option KeyError (grainTypes (entry_type entry)) ;;
      applyDict_grains rest (acc ++ [setProperties (entry_properties entry) g])
  end.

(** [motor.applyDict] (lines 49-59) *)
Definition applyDict (self : motor) (dictionary : motorData) : result motor :=
  let nozzle' := setProperties (md_nozzle dictionary) (nozzle self) in
  let propellant' :=
    match md_propellant dictionary with
    | Some d => Some (propellant_new d)
    | None => None
    end in
  grains' <- applyDict_grains (md_grains dictionary) [] ;;
  Ok (Motor grains' propellant' nozzle'
        (setProperties (md_config dictionary) (config self))).


(** [self.propellant.getProperty(name)]: AttributeError on None. *)
Definition propellant_getProperty (self : motor) (name : string) : result F :=
  match propellant self with
  | Some p => Ok (getProperty p name)
  | None => Raise AttributeError
  end.

(** The optional parameters of the three methods below are explicit here:
    [kn] and [casePressure] are options, and the defaults of
    [burnoutWebThres] (0.00001) and [ambientPressure] (101325) are left
    to the caller; [runSimulation] passes them all. *)

(** [motor.calcKN] (lines 61-64) *)
Definition calcKN (self : motor) (r : list F) (burnoutWebThres : F) : F :=
  let surfArea :=
    pysum (map (fun '(gr, reg) =>
                  getSurfaceAreaAtRegression gr reg
                  * int_of_bool (isWebLeft gr reg burnoutWebThres))
               (zip (grains self) r)) in
  let nozz := getThroatArea (nozzle self) in
  surfArea / nozz.

(** [motor.calcIdealPressure] (lines 66-78) *)
Definition calcIdealPressure (self : motor) (r : list F) (kn : option F)
    (burnoutWebThres : F) : result F :=
  k <- propellant_getProperty self "k" ;;
  t <- propellant_getProperty self "t" ;;
  m <- propellant_getProperty self "m" ;;
  p <- propellant_getProperty self "density" ;;
  a <- propellant_getProperty self "a" ;;
  n <- propellant_getProperty self "n" ;;
  let kn := match kn with
            | None => calcKN self r burnoutWebThres
            | Some kn => kn
            end in
  let num := kn * p * a in
  let exponent := of_Z 1 / (of_Z 1 - n) in
  let denom := ((k / ((of_Z 8314 / m) * t))
                * ((of_Z 2 / (k + of_Z 1)) ** ((k + of_Z 1) / (k - of_Z 1))))
               ** lit_0_5 in
  Ok ((num / denom) ** exponent).

(** [motor.calcForce] (lines 80-106) *)
Definition calcForce (self : motor) (r : list F) (casePressure : option F)
    (ambientPressure burnoutWebThres : F) : result F :=
  k <- propellant_getProperty self "k" ;;
  let t_a := getThroatArea (nozzle self) in
  let e_a := getExitArea (nozzle self) in
  let p_a := ambientPressure in
  p_c <- match casePressure with
         | None => calcIdealPressure self r None burnoutWebThres
         | Some p => Ok p
         end ;;
  if p_c ==? of_Z 0 then Ok (of_Z 0) else
  let p_e := getExitPressure (nozzle self) k p_c in
  let t1 := (of_Z 2 * (k ** of_Z 2)) / (k - of_Z 1) in
  let t2 := (of_Z 2 / (k + of_Z 1)) ** ((k + of_Z 1) / (k - of_Z 1)) in
  let t3 := of_Z 1 - ((p_e / p_c) ** ((k - of_Z 1) / k)) in
  let sr := (t1 * t2 * t3) ** lit_0_5 in
  let f := getProperty (nozzle self) "efficiency" * t_a * p_c * sr
           + (p_e - p_a) * e_a in
  Ok (if isnan f || (f <? of_Z 0) then of_Z 0 else f).

(** ** [motor.runSimulation] (lines 108-224) *)

(** Which [return] of [runSimulation] produced the result: line 135
    (validation failed), line 210 (the callback asked to cancel, at its
    [calls]-th invocation) or line 224 (burnout). *)
Inductive exit := Rejected | Cancelled (calls : nat) | Burnout.

(** Lines 119-124: the checks on one grain. *)
Definition check_grain (simRes : simulationResult) (gid_grain : nat * G) :
  simulationResult :=
  let '(gid, grain) := gid_grain in
  let simRes :=
    if isEndBurningGrain grain && negb (gid =? 0)%nat
    then addAlert (SimAlert ERROR CONSTRAINT
                     "End burning grains must be the forward-most grain in the motor"
                     ("Grain " +:+ pretty (gid + 1)%nat)) simRes
    else simRes in
  foldl (fun simRes alert =>
           addAlert (set_location ("Grain " +:+ pretty (gid + 1)%nat) alert) simRes)
        simRes (getGeometryErrors grain).

(** Lines 114-131: the result with the alerts of the validation. *)
Definition validate (self : motor) : simulationResult :=
  let simRes := simulationResult_new in
  let simRes :=
    if (length (grains self) =? 0)%nat
    then addAlert (SimAlert ERROR CONSTRAINT
                     "Motor must have at least one propellant grain" "Motor") simRes
    else simRes in
  let simRes := foldl check_grain simRes (enumerate (grains self)) in
  let simRes := foldl (fun simRes alert => addAlert alert simRes) simRes
                      (getGeometryErrors (nozzle self)) in
  match propellant self with
  | None => addAlert (SimAlert ERROR CONSTRAINT
                        "Motor must have a propellant set" "Motor") simRes
  | Some _ => simRes
  end.

(** The variables of the sweep over the grains (lines 179-182), with
    [perGrainReg]. *)
Record sweepState := Sweep {
  mf : F;
  perGrainReg : list F;
  perGrainMass : list F;
  perGrainMassFlow : list F;
  perGrainMassFlux : list F;
}.

(** Lines 184-190: the body of the sweep, for one grain. *)
Definition sweep_grain (simRes : simulationResult)
    (ts ballA ballN density burnoutWebThres : F)
    (s : sweepState) (gid_grain : nat * G) : result sweepState :=
  let '(gid, grain) := gid_grain in
  r <- getitem (perGrainReg s) gid ;;
  s <- (if getWebLeft grain r >? burnoutWebThres then
          pressure <- getLast (ch_pressure simRes) ;;
          let reg := ts * ballA * (pressure ** ballN) in
          r <- getitem (perGrainReg s) gid ;;
          flux <- setitem (perGrainMassFlux s) gid
                    (getPeakMassFlux grain (mf s) ts r reg density) ;;
          r <- getitem (perGrainReg s) gid ;;
          mass <- setitem (perGrainMass s) gid
                    (getVolumeAtRegression grain r * density) ;;
          lastMass <- getLast (ch_mass simRes) ;;
          old <- getitem lastMass gid ;;
          new <- getitem mass gid ;;
          let mf' := mf s + (old - new) / ts in
          r <- getitem (perGrainReg s) gid ;;
          regs <- setitem (perGrainReg s) gid (r + reg) ;;
          Ok (Sweep mf' regs mass (perGrainMassFlow s) flux)
        else Ok s) ;;
  flow <- setitem (perGrainMassFlow s) gid (mf s) ;;
  Ok (Sweep (mf s) (perGrainReg s) (perGrainMass s) flow (perGrainMassFlux s)).

(** Line 183: [for gid, grain in enumerate(self.grains)]. *)
Fixpoint sweep_loop (simRes : simulationResult)
    (ts ballA ballN density burnoutWebThres : F)
    (gs : list (nat * G)) (s : sweepState) : result sweepState :=
  match gs with
  | [] => Ok s
  | g :: gs' =>
      s' <- sweep_grain simRes ts ballA ballN density burnoutWebThres s g ;;
      sweep_loop simRes ts ballA ballN density burnoutWebThres gs' s'
  end.

(** Lines 179-190: one sweep, from fresh per-grain lists. *)
Definition sweep (self : motor) (simRes : simulationResult)
    (ts ballA ballN density burnoutWebThres : F) (regs : list F) :
  result sweepState :=
  let zeros := map (fun _ => of_Z 0) (grains self) in
  sweep_loop simRes ts ballA ballN density burnoutWebThres
    (enumerate (grains self)) (Sweep (of_Z 0) regs zeros zeros zeros).

(** Lines 179-205: one pass of the body of the [while], up to the callback. *)
Definition burn_step (self : motor)
    (ts ballA ballN density ambientPressure burnoutWebThres : F)
    (simRes : simulationResult) (regs : list F) :
  result (simulationResult * list F) :=
  s <- sweep self simRes ts ballA ballN density burnoutWebThres regs ;;
  let simRes := with_mass (addData (perGrainMass s)) simRes in
  let simRes := with_massFlow (addData (perGrainMassFlow s)) simRes in
  let simRes := with_massFlux (addData (perGrainMassFlux s)) simRes in
  let simRes :=
    with_kn (addData (calcKN self (perGrainReg s) burnoutWebThres)) simRes in
  kn <- getLast (ch_kn simRes) ;;
  pressure <- calcIdealPressure self (perGrainReg s) (Some kn) burnoutWebThres ;;
  let simRes := with_pressure (addData pressure) simRes in
  pressure <- getLast (ch_pressure simRes) ;;
  force <- calcForce self (perGrainReg s) (Some pressure) ambientPressure
             burnoutWebThres ;;
  let simRes := with_force (addData force) simRes in
  t <- getLast (ch_time simRes) ;;
  let simRes := with_time (addData (t + ts)) simRes in
  Ok (simRes, perGrainReg s).

(** Line 177: the test of the [while], on the data of the force channel. *)
Definition loop_test (burnoutThrustThres : F) (force : list F) : result bool :=
  last <- getLast force ;;
  peak <- getMax force ;;
  Ok (last >? burnoutThrustThres * lit_0_01 * peak).

(** Line 208: the argument of the callback is [1 - progress]. *)
Definition progress (self : motor) (regs : list F) : result F :=
  pymax (map (fun '(g, r) => getWebLeft g r / getWebLeft g (of_Z 0))
             (zip (grains self) regs)).

(** Lines 212-224: after the [while]. *)
Definition burnout (self : motor) (simRes : simulationResult) :
  result (exit * simulationResult) :=
  let simRes := with_success true simRes in
  peak <- getPeakMassFlux_res simRes ;;
  let simRes :=
    if peak >? getProperty (config self) "maxMassFlux"
    then addAlert (SimAlert WARNING CONSTRAINT
                     "Peak mass flux exceeded configured limit" "Motor") simRes
    else simRes in
  peak <- getMaxPressure simRes ;;
  let simRes :=
    if peak >? getProperty (config self) "maxPressure"
    then addAlert (SimAlert WARNING CONSTRAINT
                     "Max pressure exceeded configured limit" "Motor") simRes
    else simRes in
  Ok (Burnout, simRes).

(** A progress callback may keep state between its calls: it is a function
    of the arguments of all its calls so far, the latest first. *)
Definition callback_fn := list F -> bool.

(** Lines 177-210: the [while] loop.  [fuel] bounds the number of passes;
    [None] is a loop still running when it is spent.  [calls] are the
    arguments the callback has been given. *)
Fixpoint simulation_loop (fuel : nat) (self : motor)
    (callback : option callback_fn)
    (ts ballA ballN density ambientPressure burnoutWebThres burnoutThrustThres : F)
    (simRes : simulationResult) (regs : list F) (calls : list F) :
  option (result (exit * simulationResult)) :=
  match fuel with
  | O => None
  | S fuel' =>
      match loop_test burnoutThrustThres (ch_force simRes) with
      | Raise e => Some (Raise e)
      | Ok false => Some (burnout self simRes)
      | Ok true =>
          match burn_step self ts ballA ballN density ambientPressure
                  burnoutWebThres simRes regs with
          | Raise e => Some (Raise e)
          | Ok (simRes', regs') =>
              match callback with
              | None =>
                  simulation_loop fuel' self callback ts ballA ballN density
                    ambientPressure burnoutWebThres burnoutThrustThres
                    simRes' regs' calls
              | Some cb =>
                  match progress self regs' with
                  | Raise e => Some (Raise e)
                  | Ok pr =>
                      let calls' := (of_Z 1 - pr) :: calls in
                      if cb calls'
                      then Some (Ok (Cancelled (length calls'), simRes'))
                      else simulation_loop fuel' self callback ts ballA ballN
                             density ambientPressure burnoutWebThres
                             burnoutThrustThres simRes' regs' calls'
                  end
              end
          end
      end
  end.

(** Lines 143-165: set the grains up and seed the two first samples. *)
Definition ignite (self : motor)
    (density ts ambientPressure burnoutWebThres : F)
    (simRes : simulationResult) : result (simulationResult * list F) :=
  let perGrainReg := map (fun _ => of_Z 0) (grains self) in
  let simRes := with_time (addData (of_Z 0)) simRes in
  let simRes := with_kn (addData (of_Z 0)) simRes in
  let simRes := with_pressure (addData (of_Z 0)) simRes in
  let simRes := with_force (addData (of_Z 0)) simRes in
  let simRes :=
    with_mass (addData (map (fun grain =>
                 getVolumeAtRegression grain (of_Z 0) * density) (grains self)))
              simRes in
  let simRes :=
    with_massFlow (addData (map (fun _ => of_Z 0) (grains self))) simRes in
  let simRes :=
    with_massFlux (addData (map (fun _ => of_Z 0) (grains self))) simRes in
  let simRes := with_time (addData ts) simRes in
  let simRes :=
    with_kn (addData (calcKN self perGrainReg burnoutWebThres)) simRes in
  pressure <- calcIdealPressure self perGrainReg None burnoutWebThres ;;
  let simRes := with_pressure (addData pressure) simRes in
  force <- calcForce self perGrainReg None ambientPressure burnoutWebThres ;;
  let simRes := with_force (addData force) simRes in
  let simRes :=
    with_mass (addData (map (fun grain =>
                 getVolumeAtRegression grain (of_Z 0) * density) (grains self)))
              simRes in
  let simRes :=
    with_massFlow (addData (map (fun _ => of_Z 0) (grains self))) simRes in
  let simRes :=
    with_massFlux (addData (map (fun _ => of_Z 0) (grains self))) simRes in
  Ok (simRes, perGrainReg).

(** Lines 167-174: the port/throat check. *)
Definition check_port (self : motor) (simRes : simulationResult) :
  result simulationResult :=
  aft <- getitem_last (grains self) ;;
  match getPortArea aft (of_Z 0) with
  | Some aftPort =>
      let minAllowed := getProperty (config self) "minPortThroat" in
      let ratio := aftPort / circleArea (getProperty (nozzle self) "throat") in
      if ratio <? minAllowed
      then
        let desc := "Initial port/throat ratio of " +:+ pystr (pyround ratio 3)
                    +:+ " was less than " +:+ pystr minAllowed in
        Ok (addAlert (SimAlert WARNING CONSTRAINT desc "N/A") simRes)
      else Ok simRes
  | None => Ok simRes
  end.

(** [simulationSetup] fills caches of the grain objects in place: from line
    144 on, [self.grains] holds the grains it returned. *)
Definition setup_grains (self : motor) : motor :=
  Motor (map (simulationSetup (config self)) (grains self))
        (propellant self) (nozzle self) (config self).

Definition runSimulation (fuel : nat) (self : motor)
    (callback : option callback_fn) :
  option (result (exit * simulationResult)) :=
  let ambientPressure := getProperty (config self) "ambPressure" in
  let burnoutWebThres := getProperty (config self) "burnoutWebThres" in
  let burnoutThrustThres := getProperty (config self) "burnoutThrustThres" in
  let ts := getProperty (config self) "timestep" in
  let simRes := validate self in
  if (0 <? length (getAlertsByLevel ERROR simRes))%nat
  then Some (Ok (Rejected, simRes))
  else
    match
      (density <- propellant_getProperty self "density" ;;
       ballA <- propellant_getProperty self "a" ;;
       ballN <- propellant_getProperty self "n" ;;
       let self := setup_grains self in
       seeded <- ignite self density ts ambientPressure burnoutWebThres simRes ;;
       simRes <- check_port self (fst seeded) ;;
       Ok (self, density, ballA, ballN, simRes, snd seeded))
    with
    | Raise e => Some (Raise e)
    | Ok (self, density, ballA, ballN, simRes, perGrainReg) =>
        simulation_loop fuel self callback ts ballA ballN density
          ambientPressure burnoutWebThres burnoutThrustThres
          simRes perGrainReg []
    end.

(** ** Vocabulary of the statements *)

(** The alerts of one grain, in the order lines 120-124 add them. *)
Definition grain_alerts (gid_grain : nat * G) : list simAlert :=
  let '(gid, grain) := gid_grain in
  (if isEndBurningGrain grain && negb (gid =? 0)%nat
   then [SimAlert ERROR CONSTRAINT
           "End burning grains must be the forward-most grain in the motor"
           ("Grain " +:+ pretty (gid + 1)%nat)]
   else [])
  ++ map (set_location ("Grain " +:+ pretty (gid + 1)%nat))
         (getGeometryErrors grain).

Definition no_grain_alert : simAlert :=
  SimAlert ERROR CONSTRAINT "Motor must have at least one propellant grain" "Motor".

Definition no_propellant_alert : simAlert :=
  SimAlert ERROR CONSTRAINT "Motor must have a propellant set" "Motor".

(** All the alerts of the validation, in order. *)
Definition validation_alerts (self : motor) : list simAlert :=
  (if (length (grains self) =? 0)%nat then [no_grain_alert] else [])
  ++ flat_map grain_alerts (enumerate (grains self))
  ++ getGeometryErrors (nozzle self)
  ++ (match propellant self with None => [no_propellant_alert] | Some _ => [] end).

Definition add_alerts (l : list simAlert) (r : simulationResult) :
  simulationResult :=
  SimRes (ch_time r) (ch_kn r) (ch_pressure r) (ch_force r) (ch_mass r)
    (ch_massFlow r) (ch_massFlux r) (success r) (alerts r ++ l).

(** [r] holds [n] samples in each of its seven channels. *)
Definition samples (n : nat) (r : simulationResult) : Prop :=
  length (ch_time r) = n /\ length (ch_kn r) = n
  /\ length (ch_pressure r) = n /\ length (ch_force r) = n
  /\ length (ch_mass r) = n /\ length (ch_massFlow r) = n
  /\ length (ch_massFlux r) = n.

(** The test of the [while] as it was evaluated when sample [i] was the
    last of the force channel. *)
Definition test_after (burnoutThrustThres : F) (force : list F) (i : nat) :
  result bool :=
  loop_test burnoutThrustThres (take (S i) force).

(** The chamber pressure [calcForce] resolves (lines 81-89), once it has
    read [k] from the propellant: the pressure it is given, or else the
    ideal pressure. *)
Definition resolved_pressure (self : motor) (r : list F)
    (casePressure : option F) (burnoutWebThres : F) : result F :=
  k <- propellant_getProperty self "k" ;;
  match casePressure with
  | None => calcIdealPressure self r None burnoutWebThres
  | Some p => Ok p
  end.

(** The spec's formula of the ideal pressure (section 4.3):
    (KN * density * a / D) ^ (1 / (1 - n)), with
    D = sqrt((k / ((8314 / m) * t)) * (2 / (k + 1)) ^ ((k + 1) / (k - 1))),
    the square root being the power 0.5. *)
Definition idealPressure_spec (KN density a n k t m : F) : F :=
  let D := ((k / ((of_Z 8314 / m) * t))
            * ((of_Z 2 / (k + of_Z 1)) ** ((k + of_Z 1) / (k - of_Z 1))))
           ** lit_0_5 in
  (KN * density * a / D) ** (of_Z 1 / (of_Z 1 - n)).

(** The spec's KN (section 4.3): the sum of the burning surface areas of
    exactly the grains whose web is left, over the throat area. *)
Definition KN_spec (self : motor) (r : list F) (burnoutWebThres : F) : F :=
  pysum (map (fun '(gr, reg) => getSurfaceAreaAtRegression gr reg)
             (filter (fun '(gr, reg) => isWebLeft gr reg burnoutWebThres = true)
                     (zip (grains self) r)))
  / getThroatArea (nozzle self).

(** What a sweep leaves for one grain: its regression, and its entries in
    [perGrainMass], [perGrainMassFlow] and [perGrainMassFlux]. *)
Record grainStep := GrainStep {
  gs_reg : F;
  gs_mass : F;
  gs_flow : F;
  gs_flux : F;
}.

(** The sweep of lines 183-190 as a recursion over the grains, forward to
    aft, threading the mass flow [mf] of the grains above: [regs] are their
    regressions before the sweep, [lastMass] the last sample of the mass
    channel and [pressure] the last sample of the pressure channel. *)
Fixpoint sweep_spec (ts ballA ballN density burnoutWebThres pressure : F)
    (mf : F) (gs : list G) (regs lastMass : list F) : list grainStep :=
  match gs, regs, lastMass with
  | grain :: gs', r :: regs', old :: lastMass' =>
      if getWebLeft grain r >? burnoutWebThres then
        let reg := ts * ballA * (pressure ** ballN) in
        let mass := getVolumeAtRegression grain r * density in
        let mf' := mf + (old - mass) / ts in
        GrainStep (r + reg) mass mf'
          (getPeakMassFlux grain mf ts r reg density)
        :: sweep_spec ts ballA ballN density burnoutWebThres pressure
             mf' gs' regs' lastMass'
      else
        GrainStep r (of_Z 0) mf (of_Z 0)
        :: sweep_spec ts ballA ballN density burnoutWebThres pressure
             mf gs' regs' lastMass'
  | _, _, _ => []
  end.

(** The mass flow after the last grain of a sweep started with [mf]. *)
Definition final_flow (mf : F) (out : list grainStep) : F :=
  match last out with
  | Some o => gs_flow o
  | None => mf
  end.

(** The states in which a run of [self] evaluates the test of its
    [while]: the result so far and [perGrainReg]. *)
Inductive at_loop_head (self : motor) : simulationResult -> list F -> Prop :=
| at_ignition p simRes0 simRes1 regs :
    getAlertsByLevel ERROR (validate self) = [] ->
    propellant self = Some p ->
    ignite (setup_grains self) (getProperty p "density")
      (getProperty (config self) "timestep")
      (getProperty (config self) "ambPressure")
      (getProperty (config self) "burnoutWebThres") (validate self)
    = Ok (simRes0, regs) ->
    check_port (setup_grains self) simRes0 = Ok simRes1 ->
    at_loop_head self simRes1 regs
| at_next_step p simRes regs simRes' regs' :
    at_loop_head self simRes regs ->
    propellant self = Some p ->
    loop_test (getProperty (config self) "burnoutThrustThres")
      (ch_force simRes) = Ok true ->
    burn_step (setup_grains self) (getProperty (config self) "timestep")
      (getProperty p "a") (getProperty p "n") (getProperty p "density")
      (getProperty (config self) "ambPressure")
      (getProperty (config self) "burnoutWebThres") simRes regs
    = Ok (simRes', regs') ->
    at_loop_head self simRes' regs'.

(** What the engine takes for granted of a motor it simulates: a
    timestep, a throat area and propellant constants that are not
    negative; and grains, set up, whose burning surface and volume are not
    negative while web is left, whose initial volume is not negative, and
    whose volume does not grow from a regression to a larger one while web
    is left at both. *)
Record physical (self : motor) : Prop := {
  ph_timestep : nle (of_Z 0) (getProperty (config self) "timestep");
  ph_throat : nle (of_Z 0) (getThroatArea (nozzle self));
  ph_propellant : forall p, propellant self = Some p ->
    nle (of_Z 0) (getProperty p "k") /\ nle (of_Z 0) (getProperty p "t")
    /\ nle (of_Z 0) (getProperty p "m")
    /\ nle (of_Z 0) (getProperty p "density")
    /\ nle (of_Z 0) (getProperty p "a");
  ph_area : forall g r, g ∈ grains (setup_grains self) ->
    isWebLeft g r (getProperty (config self) "burnoutWebThres") = true ->
    nle (of_Z 0) (getSurfaceAreaAtRegression g r);
  ph_volume_0 : forall g, g ∈ grains (setup_grains self) ->
    nle (of_Z 0) (getVolumeAtRegression g (of_Z 0));
  ph_volume : forall g r, g ∈ grains (setup_grains self) ->
    (getWebLeft g r >? getProperty (config self) "burnoutWebThres") = true ->
    nle (of_Z 0) (getVolumeAtRegression g r);
  ph_volume_mono : forall g r r', g ∈ grains (setup_grains self) ->
    nle r r' ->
    (getWebLeft g r >? getProperty (config self) "burnoutWebThres") = true ->
    (getWebLeft g r' >? getProperty (config self) "burnoutWebThres") = true ->
    nle (getVolumeAtRegression g r') (getVolumeAtRegression g r);
}.

(** The same in the form that holds of rounded arithmetic too: the throat
    area and the propellant constants k, t and m, by which the formulas
    divide, are positive; the timestep, the density and the burn rate
    coefficient a are not negative; and the grains are as in
    [physical]. *)
Record well_posed (self : motor) : Prop := {
  wp_timestep : nle (of_Z 0) (getProperty (config self) "timestep");
  wp_throat : (of_Z 0 <? getThroatArea (nozzle self)) = true;
  wp_propellant : forall p, propellant self = Some p ->
    (of_Z 0 <? getProperty p "k") = true
    /\ (of_Z 0 <? getProperty p "t") = true
    /\ (of_Z 0 <? getProperty p "m") = true
    /\ nle (of_Z 0) (getProperty p "density")
    /\ nle (of_Z 0) (getProperty p "a");
  wp_area : forall g r, g ∈ grains (setup_grains self) ->
    isWebLeft g r (getProperty (config self) "burnoutWebThres") = true ->
    nle (of_Z 0) (getSurfaceAreaAtRegression g r);
  wp_volume_0 : forall g, g ∈ grains (setup_grains self) ->
    nle (of_Z 0) (getVolumeAtRegression g (of_Z 0));
  wp_volume : forall g r, g ∈ grains (setup_grains self) ->
    (getWebLeft g r >? getProperty (config self) "burnoutWebThres") = true ->
    nle (of_Z 0) (getVolumeAtRegression g r);
  wp_volume_mono : forall g r r', g ∈ grains (setup_grains self) ->
    nle r r' ->
    (getWebLeft g r >? getProperty (config self) "burnoutWebThres") = true ->
    (getWebLeft g r' >? getProperty (config self) "burnoutWebThres") = true ->
    nle (getVolumeAtRegression g r') (getVolumeAtRegression g r);
}.

(** The total propellant mass, the sum of a sample of the mass channel,
    does not grow from a sample to the next. *)
Definition total_mass_nonincreasing (mass : list (list F)) : Prop :=
  forall i m1 m2,
    mass !! i = Some m1 -> mass !! S i = Some m2 -> nle (pysum m2) (pysum m1).


(** *** Invariants of the loop *)

(** The invariant of the loop that the three results below share: the
    channels hold as many samples each, two more than the callback has
    been called when there is one; the flag is still false; no alert is
    an ERROR. *)
Definition shape_inv (callback : option callback_fn)
    (simRes : simulationResult) (regs calls : list F) : Prop :=
  (exists n, samples n simRes /\ (2 <= n)%nat
             /\ (callback <> None -> n = (length calls + 2)%nat))
  /\ success simRes = false
  /\ getAlertsByLevel ERROR simRes = [].

(** The invariant: every sample but the last one, from the ignition seed
    on, passed the test. *)
Definition tests_inv (thr : F) (simRes : simulationResult) (regs calls : list F) : Prop :=
  (2 <= length (ch_force simRes))%nat
  /\ forall i, (1 <= i)%nat -> (S i < length (ch_force simRes))%nat ->
               test_after thr (ch_force simRes) i = Ok true.

(** What the invariant says of a grain, its regression [r] and its entry
    [old] in the last sample of the mass channel. *)
Definition mass_bound (density thres : F) (g : G) (r old : F) : Prop :=
  nle (of_Z 0) old
  /\ ((getWebLeft g r >? thres) = true ->
      nle (getVolumeAtRegression g r * density) old).

(** The invariant of the loop, on the numbers: the last pressure is not
    negative, the last masses bound what the grains still hold, and the
    total mass has not grown so far. *)
Definition mass_inv (density thres : F) (gs : list G)
    (simRes : simulationResult) (regs : list F) : Prop :=
  (exists pressure, getLast (ch_pressure simRes) = Ok pressure
                    /\ nle (of_Z 0) pressure)
  /\ (exists lastMass, getLast (ch_mass simRes) = Ok lastMass
                       /\ Forall3 (mass_bound density thres) gs regs lastMass)
  /\ total_mass_nonincreasing (ch_mass simRes).

(** The invariant of the loop, on the sizes: the motor has a propellant
    and a grain at least; there is a regression for each grain; every
    channel holds as many samples, two at least; and every sample of the
    per-grain channels has an entry for each grain. *)
Definition sizes_inv (self : motor) (simRes : simulationResult)
    (regs : list F) : Prop :=
  grains self <> [] /\ propellant self <> None
  /\ length regs = length (grains self)
  /\ (exists n, samples n simRes /\ (2 <= n)%nat)
  /\ Forall (fun m => length m = length (grains self)) (ch_mass simRes)
  /\ Forall (fun m => length m = length (grains self)) (ch_massFlow simRes)
  /\ Forall (fun m => length m = length (grains self)) (ch_massFlux simRes).


(** [r'] holds the samples and the alerts of [r], and then possibly
    more. *)
Definition extends (r r' : simulationResult) : Prop :=
  ch_time r `prefix_of` ch_time r' /\ ch_kn r `prefix_of` ch_kn r'
  /\ ch_pressure r `prefix_of` ch_pressure r'
  /\ ch_force r `prefix_of` ch_force r'
  /\ ch_mass r `prefix_of` ch_mass r'
  /\ ch_massFlow r `prefix_of` ch_massFlow r'
  /\ ch_massFlux r `prefix_of` ch_massFlux r'
  /\ alerts r `prefix_of` alerts r'.

(** [r] and [r'] hold the same samples. *)
Definition same_channels (r r' : simulationResult) : Prop :=
  ch_time r = ch_time r' /\ ch_kn r = ch_kn r'
  /\ ch_pressure r = ch_pressure r' /\ ch_force r = ch_force r'
  /\ ch_mass r = ch_mass r' /\ ch_massFlow r = ch_massFlow r'
  /\ ch_massFlux r = ch_massFlux r'.

End Engine.

(** ** [test/compare.py]: a result against reference data

    The functions of the test script that compare a simulation result with
    recorded statistics and alerts.  What [print] writes is kept as the
    list of the lines written, in order; an exception ends the lines. *)

(** [abs(x)], which the script needs besides the operations of [Num]. *)
Class NumAbs (F : Type) := pyabs : F -> F.

(** The methods of [simulationResult] that [compareStats] calls; the class
    is defined outside [test/compare.py]. *)
Class ResultStats (F : Type) := {
  getBurnTime : simulationResult (F:=F) -> F;
  getISP : simulationResult (F:=F) -> F;
  getPropellantMass : simulationResult (F:=F) -> F;
}.

(** The lines printed, and then the value returned or the exception
    raised. *)
Definition io (A : Type) : Type := list string * result A.

Definition io_ret {A} (a : A) : io A := ([], Ok a).

Definition io_bind {A B} (m : io A) (f : A -> io B) : io B :=
  match m with
  | (out, Ok a) => let '(out', r) := f a in (out ++ out', r)
  | (out, Raise e) => (out, Raise e)
  end.

Notation "x <-- m ;;; k" := (io_bind m (fun x => k))
  (at level 100, m at next level, right associativity).

(** [print(line)] *)
Definition print (line : string) : io unit := ([line], Ok tt).

(** [d[key]] of a dictionary: KeyError on a missing key. *)
Definition dict_get {A} (d : gmap string A) (key : string) : io A :=
  ([], of_option KeyError (d !! key)).

(** The escape character and the tab of the string literals. *)
Definition ESC : string := String (Ascii.ascii_of_nat 27) "".
Definition TAB : string := String (Ascii.ascii_of_nat 9) "".

(** [class colors] (lines 10-15) *)
Module colors.
Definition OK : string := ESC +:+ "[92m".
Definition WARNING : string := ESC +:+ "[93m".
Definition FAIL : string := ESC +:+ "[91m".
Definition ENDC : string := ESC +:+ "[0m".
Definition BOLD : string := ESC +:+ "[1m".
End colors.

(** [color] (lines 17-18); [name] is one of the strings of [colors]. *)
Definition color (text : string) (name : string) : string :=
  name +:+ text +:+ colors.ENDC.

Section Compare.
Context {F : Type} {num : Num F} {numAbs : NumAbs F} {stats_of : ResultStats F}.
Local Open Scope num_scope.

(** Lines 21-26 of [formatPercent]: the colour of an error. *)
Definition percent_color (percent : F) : string :=
  if percent <? of_Z 1 / of_Z 100 then colors.OK
  else if percent <? of_Z 5 / of_Z 100 then colors.WARNING
  else colors.FAIL.

(** [formatPercent] (lines 20-27) *)
Definition formatPercent (percent : F) : string :=
  let c := percent_color percent in
  color (pystr (pyround (percent * of_Z 100) 3) +:+ "%") c.

(** [x / y] on the floats of Python: ZeroDivisionError when [y] is 0. *)
Definition pydiv (x y : F) : io F :=
  if y ==? of_Z 0 then ([], Raise ZeroDivisionError) else io_ret (x / y).

(** [compareStat] (lines 39-43) *)
Definition compareStat (title : string) (a b : F) : io F :=
  error <-- pydiv (pyabs (a - b)) b ;;;
  let dispError := formatPercent error in
  _ <-- print (TAB +:+ TAB +:+ title +:+ ": " +:+ pystr (pyround a 3)
               +:+ " vs " +:+ pystr (pyround b 3)
               +:+ " (" +:+ dispError +:+ ")") ;;;
  io_ret error.

(** [compareStats] (lines 45-53) *)
Definition compareStats (simRes : simulationResult) (stats : gmap string F) :
  io F :=
  _ <-- print (TAB +:+ "Basic stats:") ;;;
  burnTime <-- dict_get stats "burnTime" ;;;
  btError <-- compareStat "Burn Time" (getBurnTime simRes) burnTime ;;;
  isp <-- dict_get stats "isp" ;;;
  ispError <-- compareStat "ISP" (getISP simRes) isp ;;;
  propMass <-- dict_get stats "propMass" ;;;
  propmassError <--
    compareStat "Propellant Mass" (getPropellantMass simRes) propMass ;;;
  let score := of_Z 1 - ((of_Z 1 - btError) * (of_Z 1 - ispError)
                         * (of_Z 1 - propmassError)) in
  let dispScore := formatPercent score in
  _ <-- print (TAB +:+ "Overall error: " +:+ dispScore) ;;;
  io_ret score.

(** The body of the first loop of [compareAlerts] (lines 58-60), on
    [allMatched]. *)
Definition check_produced (pastAlerts : list string) (allMatched : bool)
    (alert : simAlert) : io bool :=
  if bool_decide (description alert ∈ pastAlerts) then io_ret allMatched
  else
    _ <-- print (TAB +:+ "Simulation produced unexpected alert: "
                 +:+ color (description alert) colors.WARNING) ;;;
    io_ret false.

(** The body of its second loop (lines 62-63). *)
Definition check_expected (simRes : simulationResult (F:=F)) (alert : string) :
  io unit :=
  if bool_decide (alert ∈ map description (alerts simRes)) then io_ret tt
  else print (TAB +:+ "Simulation was missing expected alert: "
              +:+ color alert colors.WARNING).

(** A [for] loop over a list, threading a value through its body. *)
Fixpoint io_for {A S} (l : list A) (body : S -> A -> io S) (s : S) : io S :=
  match l with
  | [] => io_ret s
  | x :: l' => s' <-- body s x ;;; io_for l' body s'
  end.

(** [compareAlerts] (lines 55-66) *)
Definition compareAlerts (simRes : simulationResult (F:=F))
    (pastAlerts : list string) : io unit :=
  let allMatched := true in
  allMatched <-- io_for (alerts simRes) (check_produced pastAlerts) allMatched ;;;
  _ <-- io_for pastAlerts (fun _ alert => check_expected simRes alert) tt ;;;
  if allMatched : bool
  then print (TAB +:+ "Simulation alerts matched.")
  else io_ret tt.

End Compare.

(** ** Two carriers for the numbers *)

(** *** IEEE doubles, the floats of Python *)

Definition float_of_Z (z : Z) : float :=
  match z with
  | Z0 => 0%float
  | Zpos _ => PrimFloat.of_uint63 (Uint63.of_Z z)
  | Zneg p => (- PrimFloat.of_uint63 (Uint63.of_Z (Zpos p)))%float
  end.

(** [x ** y] where the result is exact or correctly rounded: on the
    exponents 0, 0.5, 1 and 2, and on the base 0 with a positive exponent.
    Other arguments are outside this table and give NaN. *)
Definition float_pow (x y : float) : float :=
  (if y =? 0 then 1
   else if y =? 0.5 then PrimFloat.sqrt x
   else if y =? 1 then x
   else if y =? 2 then x * x
   else if (x =? 0) && (0 <? y) then 0
   else nan)%float.

(** The value of a float, printed from its mantissa and exponent. *)
Definition float_str (x : float) : string :=
  match Prim2SF x with
  | S754_zero s => if s then "-0.0" else "0.0"
  | S754_infinity s => if s then "-inf" else "inf"
  | S754_nan => "nan"
  | S754_finite s m e =>
      (if s then "-" else "") +:+ pretty (Zpos m) +:+ "*2**" +:+ pretty e
  end.

#[export] Instance float_Num : Num float := {
  of_Z := float_of_Z;
  lit_0_01 := 0x1.47ae147ae147bp-7%float;     (* the double of 0.01 *)
  lit_0_5 := 0.5%float;
  math_pi := 0x1.921fb54442d18p+1%float;
  nadd := PrimFloat.add;
  nsub := PrimFloat.sub;
  nmul := PrimFloat.mul;
  ndiv := PrimFloat.div;
  npow := float_pow;
  nltb := PrimFloat.ltb;
  neqb := PrimFloat.eqb;
  isnan := PrimFloat.is_nan;
  pyround := fun x _ => x;
  pystr := float_str;
}.

(** *** The values of doubles

    What the operations on doubles compute, on integers: a double that is
    zero or finite is an integer number of units of [2 ^ emin], the
    smallest subnormal; a sum or a product is the exact sum or product of
    the values, rounded to nearest with ties to even. *)

Section FloatValues.
Local Open Scope Z_scope.

(** Round to nearest, ties to even, of [M / 2^n]. *)
Definition RNE (M n : Z) : Z :=
  let q := M / 2 ^ n in
  let r := M mod 2 ^ n in
  if 2 * r <? 2 ^ n then q
  else if 2 * r =? 2 ^ n then (if Z.even q then q else q + 1)
  else q + 1.

(** The exponent of the format for a positive [N] counted in units of
    [2 ^ (emin - j)], and [N] rounded to it, counted in units of
    [2 ^ emin]. *)
Definition rexp (prec emax j N : Z) : Z :=
  SpecFloat.fexp prec emax (Z.log2 N + 1 + SpecFloat.emin prec emax - j).

Definition rnd_pos (prec emax j N : Z) : Z :=
  RNE N (rexp prec emax j N - SpecFloat.emin prec emax + j)
  * 2 ^ (rexp prec emax j N - SpecFloat.emin prec emax).

(** Values with the two infinities, counted in units of [2 ^ emin]. *)
Inductive xZ := NInf | Fin (z : Z) | PInf.

Definition xleb (a b : xZ) : bool :=
  match a, b with
  | NInf, _ => true
  | _, PInf => true
  | Fin x, Fin y => x <=? y
  | _, _ => false
  end.

Definition xltb (a b : xZ) : bool := negb (xleb b a).

(** [a < b] where a missing value stands for NaN. *)
Definition xlt_opt (a b : option xZ) : bool :=
  match a, b with
  | Some a, Some b => xltb a b
  | _, _ => false
  end.

(** A rounded magnitude with its sign: an infinity when it is out of
    range. *)
Definition xsigned (prec emax : Z) (s : bool) (v : Z) : xZ :=
  if v <? 2 ^ (emax - SpecFloat.emin prec emax) then Fin (cond_Zopp s v)
  else if s then NInf else PInf.

(** The rounding of [N * 2 ^ (emin - j)]. *)
Definition xrnd (prec emax j N : Z) : xZ :=
  match N with
  | 0 => Fin 0
  | Zpos _ => xsigned prec emax false (rnd_pos prec emax j N)
  | Zneg p => xsigned prec emax true (rnd_pos prec emax j (Zpos p))
  end.

(** The value of a float that is zero or finite, and of any float. *)
Definition fval (prec emax : Z) (x : spec_float) : Z :=
  match x with
  | S754_finite s m e =>
      cond_Zopp s (Zpos m * 2 ^ (e - SpecFloat.emin prec emax))
  | _ => 0
  end.

Definition xval (prec emax : Z) (x : spec_float) : option xZ :=
  match x with
  | S754_nan => None
  | S754_infinity s => Some (if s then NInf else PInf)
  | _ => Some (Fin (fval prec emax x))
  end.

Definition xopp (a : option xZ) : option xZ :=
  match a with
  | Some NInf => Some PInf
  | Some PInf => Some NInf
  | Some (Fin z) => Some (Fin (- z))
  | None => None
  end.

(** Addition and multiplication of values, rounded; [None] is NaN. *)
Definition xadd (prec emax : Z) (a b : option xZ) : option xZ :=
  match a, b with
  | Some (Fin a), Some (Fin b) => Some (xrnd prec emax 0 (a + b))
  | Some PInf, Some NInf | Some NInf, Some PInf => None
  | Some PInf, Some _ | Some _, Some PInf => Some PInf
  | Some NInf, Some _ | Some _, Some NInf => Some NInf
  | _, _ => None
  end.

Definition xinf (negative : bool) : xZ := if negative then NInf else PInf.

Definition xmul (prec emax : Z) (a b : option xZ) : option xZ :=
  match a, b with
  | Some (Fin a), Some (Fin b) =>
      Some (xrnd prec emax (- SpecFloat.emin prec emax) (a * b))
  | Some (Fin a), Some NInf | Some NInf, Some (Fin a) =>
      if a =? 0 then None else Some (xinf (negb (a <? 0)))
  | Some (Fin a), Some PInf | Some PInf, Some (Fin a) =>
      if a =? 0 then None else Some (xinf (a <? 0))
  | Some NInf, Some NInf | Some PInf, Some PInf => Some PInf
  | Some NInf, Some PInf | Some PInf, Some NInf => Some NInf
  | _, _ => None
  end.

(** The sign bit of a float is clear, or the float is a NaN. *)
Definition sf_plus (x : spec_float) : Prop :=
  match x with
  | S754_zero s | S754_infinity s | S754_finite s _ _ => s = false
  | S754_nan => True
  end.

(** Not below zero: zero of either sign, positive, or NaN. *)
Definition sf_nn (x : spec_float) : Prop := SFltb x (S754_zero false) = false.

(** The value of a double, and the doubles whose sign bit is clear. *)
Definition xv (x : float) : option xZ := xval prec emax (Prim2SF x).

Definition float_plus (x : float) : Prop := sf_plus (Prim2SF x).

End FloatValues.

(** *** Exact rationals *)

(** [x ** y] where the value is rational: the exact square root of a
    square for the exponent 1/2, 0 for the base 0 and a positive exponent,
    the exact power for an integral exponent.  Elsewhere the exponent is
    truncated to an integer. *)
Definition Qc_sqrt (x : Qc) : option Qc :=
  let n := Qnum x in
  let d := Qden x in
  if ((0 <=? n) && (Z.sqrt n * Z.sqrt n =? n)
      && (Pos.sqrt d * Pos.sqrt d =? d)%positive)%Z
  then Some (Q2Qc (Z.sqrt n # Pos.sqrt d))
  else None.

Definition Qc_pow_int (x : Qc) (z : Z) : Qc :=
  match z with
  | Zneg p => (/ Qcpower x (Pos.to_nat p))%Qc
  | _ => Qcpower x (Z.to_nat z)
  end.

Definition Qc_pow (x y : Qc) : Qc :=
  match (if Qc_eq_bool y (Q2Qc (1 # 2)) then Qc_sqrt x else None) with
  | Some root => root
  | None =>
      if Qc_eq_bool x (Q2Qc 0) && Qle_bool 0 y && negb (Qc_eq_bool y (Q2Qc 0))
      then Q2Qc 0
      else Qc_pow_int x (Qfloor y)
  end.

Definition Qc_ltb (x y : Qc) : bool :=
  match (x ?= y)%Qc with Lt => true | _ => false end.

Definition Qc_str (x : Qc) : string :=
  pretty (Qnum x) +:+ "/" +:+ pretty (Zpos (Qden x)).

#[export] Instance Qc_Num : Num Qc := {
  of_Z := fun z => Q2Qc (inject_Z z);
  lit_0_01 := Q2Qc (1 # 100);
  lit_0_5 := Q2Qc (1 # 2);
  math_pi := Q2Qc (355 # 113);
  nadd := Qcplus;
  nsub := Qcminus;
  nmul := Qcmult;
  ndiv := Qcdiv;
  npow := Qc_pow;
  nltb := Qc_ltb;
  neqb := Qc_eq_bool;
  isnan := fun _ => false;
  pyround := fun x _ => x;
  pystr := Qc_str;
}.

#[export] Instance float_NumAbs : NumAbs float := PrimFloat.abs.

#[export] Instance Qc_NumAbs : NumAbs Qc := fun x => Q2Qc (Qabs x).

(** ** A small world of collaborators, over any carrier

    Slab grains of a constant burning face: an end burner, which has no
    port, and a ported slab.  A property map is an association list. *)

Section Slabs.
Context {F : Type} {num : Num F}.
Local Open Scope num_scope.

Definition slab_props := list (string * F).

(** [props[name]] of an association list, 0 when the name is absent. *)
Fixpoint lookup_prop (name : string) (l : slab_props) : F :=
  match l with
  | [] => of_Z 0
  | (k, v) :: l' => if String.eqb k name then v else lookup_prop name l'
  end.

Record slabNozzle := SlabNozzle {
  sn_throat : F;
  sn_exit : F;
  sn_efficiency : F;
  sn_expansion : F;        (* exit pressure over chamber pressure *)
}.

Definition slabNozzle_errors (n : slabNozzle) : list simAlert :=
  (if sn_throat n ==? of_Z 0
   then [SimAlert ERROR GEOMETRY "Throat diameter must not be 0" "Nozzle"]
   else [])
  ++ (if sn_exit n <? sn_throat n
      then [SimAlert ERROR GEOMETRY
              "Exit diameter must not be smaller than throat diameter" "Nozzle"]
      else []).

#[export] Instance slabNozzle_collection :
  propertyCollection F slab_props slabNozzle := {
  getProperty n name :=
    if String.eqb name "throat" then sn_throat n
    else if String.eqb name "exit" then sn_exit n
    else if String.eqb name "efficiency" then sn_efficiency n
    else sn_expansion n;
  getProperties n :=
    [("throat", sn_throat n); ("exit", sn_exit n);
     ("efficiency", sn_efficiency n); ("expansion", sn_expansion n)];
  setProperties d _ :=
    SlabNozzle (lookup_prop "throat" d) (lookup_prop "exit" d)
      (lookup_prop "efficiency" d) (lookup_prop "expansion" d);
}.

#[export] Instance slabNozzle_Nozzle : Nozzle F slab_props slabNozzle := {
  nozzle_checked := slabNozzle_errors;
  nozzle_new := SlabNozzle (of_Z 0) (of_Z 0) (of_Z 0) (of_Z 0);
  getThroatArea n := circleArea (sn_throat n);
  getExitArea n := circleArea (sn_exit n);
  getExitPressure n k p_c := sn_expansion n * p_c;
}.

Record slabPropellant := SlabPropellant {
  sp_k : F; sp_t : F; sp_m : F; sp_density : F; sp_a : F; sp_n : F;
}.

#[export] Instance slabPropellant_collection :
  propertyCollection F slab_props slabPropellant := {
  getProperty p name :=
    if String.eqb name "k" then sp_k p
    else if String.eqb name "t" then sp_t p
    else if String.eqb name "m" then sp_m p
    else if String.eqb name "density" then sp_density p
    else if String.eqb name "a" then sp_a p
    else sp_n p;
  getProperties p :=
    [("k", sp_k p); ("t", sp_t p); ("m", sp_m p); ("density", sp_density p);
     ("a", sp_a p); ("n", sp_n p)];
  setProperties d _ :=
    SlabPropellant (lookup_prop "k" d) (lookup_prop "t" d) (lookup_prop "m" d)
      (lookup_prop "density" d) (lookup_prop "a" d) (lookup_prop "n" d);
}.

#[export] Instance slabPropellant_Propellant :
  Propellant F slab_props slabPropellant := {
  propellant_new d :=
    SlabPropellant (lookup_prop "k" d) (lookup_prop "t" d) (lookup_prop "m" d)
      (lookup_prop "density" d) (lookup_prop "a" d) (lookup_prop "n" d);
}.

Record slabConfig := SlabConfig {
  sc_maxPressure : F; sc_maxMassFlux : F; sc_minPortThroat : F;
  sc_burnoutWebThres : F; sc_burnoutThrustThres : F; sc_timestep : F;
  sc_ambPressure : F; sc_mapDim : F;
}.

#[export] Instance slabConfig_collection :
  propertyCollection F slab_props slabConfig := {
  getProperty c name :=
    if String.eqb name "maxPressure" then sc_maxPressure c
    else if String.eqb name "maxMassFlux" then sc_maxMassFlux c
    else if String.eqb name "minPortThroat" then sc_minPortThroat c
    else if String.eqb name "burnoutWebThres" then sc_burnoutWebThres c
    else if String.eqb name "burnoutThrustThres" then sc_burnoutThrustThres c
    else if String.eqb name "timestep" then sc_timestep c
    else if String.eqb name "ambPressure" then sc_ambPressure c
    else sc_mapDim c;
  getProperties c :=
    [("maxPressure", sc_maxPressure c); ("maxMassFlux", sc_maxMassFlux c);
     ("minPortThroat", sc_minPortThroat c);
     ("burnoutWebThres", sc_burnoutWebThres c);
     ("burnoutThrustThres", sc_burnoutThrustThres c);
     ("timestep", sc_timestep c); ("ambPressure", sc_ambPressure c);
     ("mapDim", sc_mapDim c)];
  setProperties d _ :=
    SlabConfig (lookup_prop "maxPressure" d) (lookup_prop "maxMassFlux" d)
      (lookup_prop "minPortThroat" d) (lookup_prop "burnoutWebThres" d)
      (lookup_prop "burnoutThrustThres" d) (lookup_prop "timestep" d)
      (lookup_prop "ambPressure" d) (lookup_prop "mapDim" d);
}.

#[export] Instance slabConfig_Config : Config F slab_props slabConfig := {
  MotorConfig_new :=
    SlabConfig (of_Z 0) (of_Z 0) (of_Z 1) (of_Z 0) (of_Z 0) (of_Z 0) (of_Z 0)
      (of_Z 250);
}.

Inductive slabKind := EndBurner | Ported.

Record slabGrain := SlabGrain {
  sg_kind : slabKind;
  sg_face : F;             (* area of the burning face *)
  sg_length : F;           (* thickness of propellant behind the face *)
  sg_port : F;             (* port area of a ported slab *)
}.

Definition slabGrain_errors (g : slabGrain) : list simAlert :=
  if sg_length g ==? of_Z 0
  then [SimAlert ERROR GEOMETRY "Length must not be 0" ""]
  else [].

#[export] Instance slabGrain_collection :
  propertyCollection F slab_props slabGrain := {
  getProperty g name :=
    if String.eqb name "face" then sg_face g
    else if String.eqb name "length" then sg_length g
    else sg_port g;
  getProperties g :=
    [("face", sg_face g); ("length", sg_length g); ("port", sg_port g)];
  setProperties d g :=
    SlabGrain (sg_kind g) (lookup_prop "face" d) (lookup_prop "length" d)
      (lookup_prop "port" d);
}.

#[export] Instance slabGrain_Grain : Grain F slab_props slabConfig slabGrain := {
  grain_checked := slabGrain_errors;
  geomName g := match sg_kind g with
                | EndBurner => "End Burner"
                | Ported => "Ported Slab"
                end;
  grainTypes tag :=
    if String.eqb tag "End Burner"
    then Some (SlabGrain EndBurner (of_Z 0) (of_Z 0) (of_Z 0))
    else if String.eqb tag "Ported Slab"
    then Some (SlabGrain Ported (of_Z 0) (of_Z 0) (of_Z 0))
    else None;
  isEndBurningGrain g := match sg_kind g with
                         | EndBurner => true
                         | Ported => false
                         end;
  simulationSetup _ g := g;
  getSurfaceAreaAtRegression g r := sg_face g;
  getVolumeAtRegression g r := sg_face g * (sg_length g - r);
  getWebLeft g r := sg_length g - r;
  isWebLeft g r thres := (sg_length g - r) >? thres;
  getPortArea g r := match sg_kind g with
                     | EndBurner => None
                     | Ported => Some (sg_port g)
                     end;
  getPeakMassFlux g massIn dTime r dr density :=
    match sg_kind g with
    | EndBurner => of_Z 0
    | Ported => (massIn + sg_face g * dr * density / dTime) / sg_port g
    end;
}.

End Slabs.

(** ** Example motors, on doubles

    One ported slab of burning face 1 and web 3, burning at constant rate
    (n = 0); the propellant constants make the pressure model exact in
    doubles: the denominator of [calcIdealPressure] is sqrt(0.25). *)

Definition demo_propellant : slabPropellant (F:=float) :=
  SlabPropellant 3%float 3%float 8314%float 1000%float 1%float 0%float.

Definition demo_nozzle : slabNozzle (F:=float) :=
  SlabNozzle 2%float 4%float 1%float 0%float.

Definition demo_config : slabConfig (F:=float) :=
  SlabConfig 70000000%float 10000%float 1%float 0.5%float 1%float 1%float
    100%float 250%float.

Definition demo_grain : slabGrain (F:=float) :=
  SlabGrain Ported 1%float 3%float 1%float.

Definition demo_motor : motor :=
  Motor [demo_grain] (Some demo_propellant) demo_nozzle demo_config.

(** [motor()] with the demo nozzle and configuration: no grain, no
    propellant. *)
Definition empty_motor : motor :=
  Motor (@nil (slabGrain (F:=float))) (@None (slabPropellant (F:=float)))
    demo_nozzle demo_config.

(** No grain yet, the propellant chosen. *)
Definition grainless_motor : motor :=
  Motor (@nil (slabGrain (F:=float))) (Some demo_propellant)
    demo_nozzle demo_config.

(** ** The same motor, on exact rationals *)

Definition qc (z : Z) : Qc := Q2Qc (inject_Z z).

Definition exact_propellant : slabPropellant (F:=Qc) :=
  SlabPropellant (qc 3) (qc 3) (qc 8314) (qc 1000) (qc 1) (qc 0).

Definition exact_nozzle : slabNozzle (F:=Qc) :=
  SlabNozzle (qc 2) (qc 4) (qc 1) (qc 0).

Definition exact_config : slabConfig (F:=Qc) :=
  SlabConfig (qc 70000000) (qc 10000) (qc 1) (Q2Qc (1 # 2)) (qc 1) (qc 1)
    (qc 100) (qc 250).

Definition exact_grain : slabGrain (F:=Qc) :=
  SlabGrain Ported (qc 1) (qc 3) (qc 1).

Definition exact_motor : motor :=
  Motor [exact_grain] (Some exact_propellant) exact_nozzle exact_config.

(** A nozzle that would leave the exit pressure at four times the chamber
    pressure: the thrust formula runs into the square root of a negative
    number. *)
Definition overexpanded_motor : motor :=
  Motor [demo_grain] (Some demo_propellant)
    (SlabNozzle 2%float 4%float 1%float 4%float) demo_config.

(** The demo motor with a propellant that does not burn (a = 0): no
    pressure and no thrust at ignition. *)
Definition inert_motor : motor :=
  Motor [demo_grain]
    (Some (SlabPropellant 3%float 3%float 8314%float 1000%float 0%float
             0%float))
    demo_nozzle demo_config.

(** An end burner of length 0 behind the ported slab: misplaced, and with
    an alert of its own. *)
Definition misplaced_motor : motor :=
  Motor [demo_grain; SlabGrain EndBurner 1%float 0%float 1%float]
    (Some demo_propellant) demo_nozzle demo_config.

(** Two ported slabs on a propellant of density 1 that burns at rate 1,
    in a configuration within the bounds of [MotorConfig]: a timestep of
    1/16 s, a web threshold of 1/1024 m and an ambient pressure that makes
    ambient pressure times exit area 2 N.  The first slab is spent after
    one step, the second after four.  With both slabs burning the thrust
    is 3 * (face1 + face2) - 2, afterwards 3 * face2 - 2. *)
Definition two_slab_motor (thr face1 face2 : float) : motor :=
  Motor [SlabGrain Ported face1 0.0625%float 4%float;
         SlabGrain Ported face2 0.25%float 4%float]
    (Some (SlabPropellant 3%float 3%float 8314%float 1%float 1%float 0%float))
    (SlabNozzle 2%float 4%float 1%float 0%float)
    (SlabConfig 70000000%float 10000%float 1%float 0.0009765625%float thr
       0.0625%float (2 / circleArea 4)%float 250%float).

(** The configuration of [two_slab_motor] with a thrust threshold of 1 %. *)
Definition bounded_config : slabConfig (F:=float) :=
  SlabConfig 70000000%float 10000%float 1%float 0.0009765625%float 1%float
    0.0625%float (2 / circleArea 4)%float 250%float.

(** A propellant with a negative burn rate coefficient (a = -1, n = 0.5):
    the pressure, a square, is positive, and the regression of a step,
    [ts * a * pressure ** n], is negative. *)
Definition receding_motor : motor :=
  Motor [SlabGrain Ported 4%float 1%float 4%float]
    (Some (SlabPropellant 3%float 3%float 8314%float 1%float (-1)%float
             0.5%float))
    (SlabNozzle 2%float 4%float 1%float 0%float) bounded_config.

(** A slab of length -1 behind a slab of length 1: its volume, and the
    mass of its seeds, is negative, and it counts as spent from the
    start. *)
Definition negative_length_motor : motor :=
  Motor [SlabGrain Ported 4%float 1%float 4%float;
         SlabGrain Ported 1%float (-1)%float 4%float]
    (Some (SlabPropellant 3%float 3%float 8314%float 1%float 1%float 0%float))
    (SlabNozzle 2%float 4%float 1%float 0%float) bounded_config.

(** A callback that never asks to cancel. *)
Definition never_cancel : callback_fn (F:=float) := fun _ => false.

(** A dictionary with a grain of a type that is not registered. *)
Definition unknown_grain_dict : motorData :=
  MotorData (getProperties demo_nozzle) (Some (getProperties demo_propellant))
    [GrainEntry "Ported Slab" (getProperties demo_grain);
     GrainEntry "Star" (getProperties demo_grain)]
    (getProperties demo_config).

(** A callback that asks to cancel at its second call. *)
Definition cancel_at_second_call : callback_fn (F:=float) :=
  fun calls => (length calls =? 2)%nat.

(** The result of the demo motor after its two seeds (lines 150-165). *)
Definition demo_ignited : simulationResult (F:=float) :=
  match ignite demo_motor 1000%float 1%float 100%float 0.5%float
          simulationResult_new with
  | Ok (simRes, _) => simRes
  | Raise _ => simulationResult_new
  end.

(** What the demo motor returns when it is left to burn out, and when
    it is cancelled at the second call of the callback. *)
Definition demo_result : simulationResult (F:=float) :=
  match runSimulation 10 demo_motor None with
  | Some (Ok (_, res)) => res
  | _ => simulationResult_new
  end.

Definition demo_cancelled : simulationResult (F:=float) :=
  match runSimulation 10 demo_motor (Some cancel_at_second_call) with
  | Some (Ok (_, res)) => res
  | _ => simulationResult_new
  end.

(** ** Examples for [test/compare.py] *)

(** Stand-ins for the three statistics of a result, for the examples: the
    last time sample, the largest force sample and the total of the first
    mass sample. *)
#[export] Instance plain_stats {F : Type} {num : Num F} : ResultStats F := {
  getBurnTime r := match getLast (ch_time r) with Ok t => t | Raise _ => of_Z 0 end;
  getISP r := match getMax (ch_force r) with Ok f => f | Raise _ => of_Z 0 end;
  getPropellantMass r :=
    match ch_mass r with m :: _ => pysum m | [] => of_Z 0 end;
}.

(** A result on exact rationals, and reference statistics it matches. *)
Definition exact_result : simulationResult (F:=Qc) :=
  SimRes [qc 0; qc 2] [qc 0; qc 1] [qc 0; qc 1] [qc 0; qc 5] [[qc 4]; [qc 4]]
    [[qc 0]; [qc 0]] [[qc 0]; [qc 0]] true [].

Definition exact_stats : gmap string Qc :=
  {[ "burnTime" := qc 2; "isp" := qc 5; "propMass" := qc 4 ]}.

(** Reference statistics that lack the key "isp". *)
Definition partial_stats : gmap string Qc := {[ "burnTime" := qc 2 ]}.

(** Reference statistics with a burn time of 0. *)
Definition zero_stats : gmap string Qc :=
  {[ "burnTime" := qc 0; "isp" := qc 5; "propMass" := qc 4 ]}.

(** A result without alerts. *)
Definition quiet_result : simulationResult (F:=Qc) :=
  SimRes [] [] [] [] [] [] [] true [].
(** * Properties of the engine *)

Section EngineFacts.
Context {F : Type} {num : Num F}.
Context {props N P C G : Type}.
Context {nozzleI : Nozzle F props N} {propellantI : Propellant F props P}.
Context {configI : Config F props C} {grainI : Grain F props C G}.
Local Open Scope num_scope.

Local Abbreviation simRes_t := (@simulationResult F).
Local Abbreviation motor_t := (@motor N P C G).

(** ** The exception monad and the list primitives *)

Lemma bind_Ok {A B} (r : result A) (f : A -> result B) (b : B) :
  bind r f = Ok b <-> exists a, r = Ok a /\ f a = Ok b.
Proof.
  split.
  - destruct r as [a|e]; cbn; [eauto | discriminate].
  - intros (a & -> & Hf). exact Hf.
Qed.

(** Split a hypothesis [x <- r ;; k = Ok b] into its two halves. *)
Ltac inv_bind H :=
  let a := fresh "a" in
  let Ha := fresh "H" a in
  apply bind_Ok in H; destruct H as (a & Ha & H).

Lemma getLast_addData {A} (x : A) (data : list A) :
  getLast (addData x data) = Ok x.
Proof. unfold getLast, getitem_last, addData. by rewrite last_snoc. Qed.

Lemma length_addData {A} (x : A) (data : list A) :
  length (addData x data) = S (length data).
Proof. unfold addData. rewrite length_app. cbn. lia. Qed.

(** ** Validation (lines 114-135) *)

Lemma add_alerts_nil (r : simRes_t) : add_alerts [] r = r.
Proof. destruct r; unfold add_alerts; cbn. by rewrite app_nil_r. Qed.

Lemma add_alerts_app l1 l2 (r : simRes_t) :
  add_alerts l2 (add_alerts l1 r) = add_alerts (l1 ++ l2) r.
Proof. unfold add_alerts; cbn. by rewrite app_assoc. Qed.

Lemma addAlert_add_alerts a (r : simRes_t) : addAlert a r = add_alerts [a] r.
Proof. reflexivity. Qed.

Lemma foldl_addAlert (f : simAlert -> simAlert) l (r : simRes_t) :
  foldl (fun simRes alert => addAlert (f alert) simRes) r l
  = add_alerts (map f l) r.
Proof.
  revert r; induction l as [|a l IH]; intros r; cbn.
  - by rewrite add_alerts_nil.
  - rewrite IH, addAlert_add_alerts, add_alerts_app. reflexivity.
Qed.

Lemma check_grain_alerts (r : simRes_t) (g : nat * G) :
  check_grain r g = add_alerts (grain_alerts g) r.
Proof.
  destruct g as [gid grain]; unfold check_grain, grain_alerts.
  rewrite foldl_addAlert.
  destruct (isEndBurningGrain grain && negb (gid =? 0)%nat).
  - by rewrite addAlert_add_alerts, add_alerts_app.
  - reflexivity.
Qed.

Lemma foldl_check_grain (gs : list (nat * G)) (r : simRes_t) :
  foldl check_grain r gs = add_alerts (flat_map grain_alerts gs) r.
Proof.
  revert r; induction gs as [|g gs IH]; intros r; cbn.
  - by rewrite add_alerts_nil.
  - by rewrite IH, check_grain_alerts, add_alerts_app.
Qed.

(** Validation leaves the channels empty and the flag false, and adds
    exactly [validation_alerts]. *)
Lemma validate_alerts (self : motor_t) :
  validate self = SimRes [] [] [] [] [] [] [] false (validation_alerts self).
Proof.
  unfold validate, validation_alerts.
  rewrite foldl_check_grain.
  rewrite (foldl_addAlert (fun a => a)), map_id.
  destruct (length (grains self) =? 0)%nat, (propellant self);
    rewrite ?addAlert_add_alerts, ?add_alerts_app;
    unfold add_alerts, simulationResult_new; cbn;
    rewrite ?app_nil_r, <- ?app_assoc; reflexivity.
Qed.

(** Line 134: the run stops when the validation raised an error. *)
Lemma runSimulation_rejected fuel (self : motor_t) callback :
  getAlertsByLevel ERROR (validate self) <> [] ->
  runSimulation fuel self callback = Some (Ok (Rejected, validate self)).
Proof.
  intros Herr. unfold runSimulation.
  destruct (getAlertsByLevel ERROR (validate self)) as [|a l] eqn:E; [done|].
  reflexivity.
Qed.

Lemma errors_of_validate (self : motor_t) :
  getAlertsByLevel ERROR (validate self)
  = filter (fun a => level a = ERROR) (validation_alerts self).
Proof. by rewrite validate_alerts. Qed.

(** ** An empty grain list *)

Lemma validate_empty (self : motor_t) :
  grains self = [] ->
  validate self
  = SimRes [] [] [] [] [] [] [] false
      (no_grain_alert :: getGeometryErrors (nozzle self)
       ++ match propellant self with
          | None => [no_propellant_alert]
          | Some _ => []
          end).
Proof.
  intros Hg. rewrite validate_alerts. unfold validation_alerts.
  rewrite Hg. reflexivity.
Qed.

Lemma runSimulation_empty fuel (self : motor_t) callback :
  grains self = [] ->
  runSimulation fuel self callback = Some (Ok (Rejected, validate self)).
Proof.
  intros Hg. apply runSimulation_rejected.
  rewrite errors_of_validate. unfold validation_alerts. rewrite Hg.
  change (filter (fun a => level a = ERROR) (no_grain_alert :: ?l))
    with (no_grain_alert :: filter (fun a => level a = ERROR) l).
  discriminate.
Qed.

(** C3, as the code has it.  A motor with no grain is rejected: the run
    returns, with success false and every channel empty, and the first
    alert is the ERROR "Motor must have at least one propellant grain"
    located at "Motor".  The alerts of the nozzle follow, and a second
    ERROR located at "Motor" when no propellant is set; so the grain alert
    is the only ERROR when a propellant is set and the nozzle reports no
    ERROR. *)
Theorem C3_empty_grain_list fuel (self : motor_t) callback :
  grains self = [] ->
  exists res : simRes_t,
    runSimulation fuel self callback = Some (Ok (Rejected, res))
    /\ success res = false
    /\ (ch_time res = [] /\ ch_kn res = [] /\ ch_pressure res = []
        /\ ch_force res = [] /\ ch_mass res = [] /\ ch_massFlow res = []
        /\ ch_massFlux res = [])
    /\ alerts res
       = no_grain_alert :: getGeometryErrors (nozzle self)
         ++ match propellant self with
            | None => [no_propellant_alert]
            | Some _ => []
            end
    /\ level no_grain_alert = ERROR /\ location no_grain_alert = "Motor"
    /\ (propellant self <> None ->
        filter (fun a => level a = ERROR) (getGeometryErrors (nozzle self)) = [] ->
        getAlertsByLevel ERROR res = [no_grain_alert]).
Proof.
  intros Hg. exists (validate self).
  split; [by apply runSimulation_empty|].
  rewrite validate_empty by done.
  repeat split; try reflexivity.
  intros Hp Hn. unfold getAlertsByLevel, alerts.
  change (filter (fun a => level a = ERROR) (no_grain_alert :: ?l))
    with (no_grain_alert :: filter (fun a => level a = ERROR) l).
  rewrite filter_app, Hn.
  destruct (propellant self); [reflexivity | done].
Qed.

(** C10.  With no grain, [self.grains[-1]] of line 168 would raise
    IndexError; the run never gets there: whatever the propellant, nozzle,
    configuration and callback, it returns from line 135 with the rejected
    result. *)
Theorem C10_no_fault_on_empty_grain_list fuel (p : option P) (n : N) (c : C)
    (callback : option (callback_fn (F:=F))) :
  (forall simRes : simRes_t,
      check_port (setup_grains (Motor [] p n c)) simRes = Raise IndexError)
  /\ exists res : simRes_t,
      runSimulation fuel (Motor (@nil G) p n c) callback
      = Some (Ok (Rejected, res)).
Proof.
  split.
  - intros simRes. reflexivity.
  - exists (validate (Motor [] p n c)). by apply runSimulation_empty.
Qed.

(** ** The shape of a run *)

(** Reduce the field updates of a result whose fields are known; by
    value, so that nested updates are not copied. *)
Ltac simpl_simRes H :=
  cbv [with_time with_kn with_pressure with_force with_mass with_massFlow
       with_massFlux with_success addAlert
       ch_time ch_kn ch_pressure ch_force ch_mass ch_massFlow ch_massFlux
       success alerts] in H.

(** One pass of the loop body appends one sample to every channel, and
    leaves the flag and the alerts alone. *)
Lemma burn_step_inv (self : motor_t)
    ts ballA ballN density ambientPressure burnoutWebThres
    (simRes simRes' : simRes_t) regs regs' :
  burn_step self ts ballA ballN density ambientPressure burnoutWebThres
    simRes regs = Ok (simRes', regs') ->
  exists s pressure force t,
    sweep self simRes ts ballA ballN density burnoutWebThres regs = Ok s
    /\ regs' = perGrainReg s
    /\ calcIdealPressure self (perGrainReg s)
         (Some (calcKN self (perGrainReg s) burnoutWebThres)) burnoutWebThres
       = Ok pressure
    /\ calcForce self (perGrainReg s) (Some pressure) ambientPressure
         burnoutWebThres = Ok force
    /\ getLast (ch_time simRes) = Ok t
    /\ simRes' =
       SimRes (addData (t + ts) (ch_time simRes))
         (addData (calcKN self (perGrainReg s) burnoutWebThres) (ch_kn simRes))
         (addData pressure (ch_pressure simRes))
         (addData force (ch_force simRes))
         (addData (perGrainMass s) (ch_mass simRes))
         (addData (perGrainMassFlow s) (ch_massFlow simRes))
         (addData (perGrainMassFlux s) (ch_massFlux simRes))
         (success simRes) (alerts simRes).
Proof.
  unfold burn_step. intros H. inv_bind H.
  destruct simRes as [tm kn pr fo ma fl fx su al]. simpl_simRes H.
  rewrite getLast_addData in H. cbn [bind] in H.
  inv_bind H. rewrite getLast_addData in H. cbn [bind] in H.
  inv_bind H. inv_bind H. injection H as <- <-.
  cbn [ch_time ch_kn ch_pressure ch_force ch_mass ch_massFlow ch_massFlux
       success alerts].
  eauto 12.
Qed.

Lemma burn_step_samples (self : motor_t)
    ts ballA ballN density ambientPressure burnoutWebThres
    (simRes simRes' : simRes_t) regs regs' n :
  burn_step self ts ballA ballN density ambientPressure burnoutWebThres
    simRes regs = Ok (simRes', regs') ->
  samples n simRes ->
  samples (S n) simRes'
  /\ success simRes' = success simRes /\ alerts simRes' = alerts simRes.
Proof.
  intros H (H1 & H2 & H3 & H4 & H5 & H6 & H7).
  apply burn_step_inv in H as (s & p & f & t & _ & _ & _ & _ & _ & ->).
  unfold samples; cbn. rewrite !length_addData. repeat split; congruence.
Qed.

(** The two seed phases leave two samples in every channel. *)
Lemma ignite_inv (self : motor_t) density ts ambientPressure burnoutWebThres
    (simRes simRes' : simRes_t) regs :
  ignite self density ts ambientPressure burnoutWebThres simRes
  = Ok (simRes', regs) ->
  exists pressure force,
    let zeros := map (fun _ => of_Z 0) (grains self) in
    let mass0 := map (fun grain => getVolumeAtRegression grain (of_Z 0) * density)
                     (grains self) in
    regs = zeros
    /\ calcIdealPressure self zeros None burnoutWebThres = Ok pressure
    /\ calcForce self zeros None ambientPressure burnoutWebThres = Ok force
    /\ simRes' =
       SimRes (addData ts (addData (of_Z 0) (ch_time simRes)))
         (addData (calcKN self zeros burnoutWebThres)
            (addData (of_Z 0) (ch_kn simRes)))
         (addData pressure (addData (of_Z 0) (ch_pressure simRes)))
         (addData force (addData (of_Z 0) (ch_force simRes)))
         (addData mass0 (addData mass0 (ch_mass simRes)))
         (addData zeros (addData zeros (ch_massFlow simRes)))
         (addData zeros (addData zeros (ch_massFlux simRes)))
         (success simRes) (alerts simRes).
Proof.
  unfold ignite. intros H.
  destruct simRes as [tm kn pr fo ma fl fx su al]. simpl_simRes H.
  inv_bind H. inv_bind H. injection H as <- <-.
  cbn [ch_time ch_kn ch_pressure ch_force ch_mass ch_massFlow ch_massFlux
       success alerts].
  eauto 8.
Qed.

Lemma ignite_samples (self : motor_t) density ts ambientPressure burnoutWebThres
    (simRes simRes' : simRes_t) regs n :
  ignite self density ts ambientPressure burnoutWebThres simRes
  = Ok (simRes', regs) ->
  samples n simRes ->
  samples (S (S n)) simRes'
  /\ success simRes' = success simRes /\ alerts simRes' = alerts simRes.
Proof.
  intros H (H1 & H2 & H3 & H4 & H5 & H6 & H7).
  apply ignite_inv in H as (p & f & _ & _ & _ & ->).
  unfold samples; cbn. rewrite !length_addData. repeat split; congruence.
Qed.

(** The port/throat check touches no channel; it may add one WARNING. *)
Lemma check_port_inv (self : motor_t) (simRes simRes' : simRes_t) :
  check_port self simRes = Ok simRes' ->
  grains self <> []
  /\ exists l, simRes' = add_alerts l simRes
               /\ Forall (fun a => level a = WARNING) l.
Proof.
  unfold check_port. intros H. inv_bind H.
  split.
  - intros Hnil. rewrite Hnil in Ha. discriminate.
  - destruct (getPortArea a (of_Z 0)) as [aftPort|].
    + match type of H with (if ?b then _ else _) = _ => destruct b end;
        injection H as <-.
      * eexists [_]. split; [reflexivity|]. by repeat constructor.
      * exists []. by rewrite add_alerts_nil.
    + injection H as <-. exists []. by rewrite add_alerts_nil.
Qed.

(** After the [while]: the flag is set, the channels are untouched, and
    at most two WARNINGs are added. *)
Lemma burnout_inv (self : motor_t) (simRes : simRes_t) e res :
  burnout self simRes = Ok (e, res) ->
  e = Burnout
  /\ exists l, res = add_alerts l (with_success true simRes)
               /\ Forall (fun a => level a = WARNING) l.
Proof.
  unfold burnout. intros H. inv_bind H. inv_bind H.
  injection H as <- <-. split; [reflexivity|].
  clear Ha Ha0.
  destruct (getProperty (config self) "maxPressure" <? a0),
    (getProperty (config self) "maxMassFlux" <? a);
    rewrite ?addAlert_add_alerts, ?add_alerts_app.
  - eexists. split; [reflexivity | by repeat constructor].
  - eexists. split; [reflexivity | by repeat constructor].
  - eexists. split; [reflexivity | by repeat constructor].
  - exists []. by rewrite add_alerts_nil.
Qed.

(** A run either stops at the validation, or passes it, seeds the two
    first samples, checks the port and enters the loop. *)
Lemma runSimulation_inv fuel (self : motor_t) callback e (res : simRes_t) :
  runSimulation fuel self callback = Some (Ok (e, res)) ->
  (e = Rejected /\ res = validate self
   /\ getAlertsByLevel ERROR (validate self) <> [])
  \/ (getAlertsByLevel ERROR (validate self) = []
      /\ exists p simRes0 simRes1 regs,
        propellant self = Some p
        /\ ignite (setup_grains self) (getProperty p "density")
             (getProperty (config self) "timestep")
             (getProperty (config self) "ambPressure")
             (getProperty (config self) "burnoutWebThres") (validate self)
           = Ok (simRes0, regs)
        /\ check_port (setup_grains self) simRes0 = Ok simRes1
        /\ simulation_loop fuel (setup_grains self) callback
             (getProperty (config self) "timestep")
             (getProperty p "a") (getProperty p "n") (getProperty p "density")
             (getProperty (config self) "ambPressure")
             (getProperty (config self) "burnoutWebThres")
             (getProperty (config self) "burnoutThrustThres")
             simRes1 regs []
           = Some (Ok (e, res))).
Proof.
  unfold runSimulation.
  destruct (getAlertsByLevel ERROR (validate self)) as [|a l] eqn:Herr.
  - cbn [length Nat.ltb Nat.leb]. intros H. right. split; [reflexivity|].
    unfold propellant_getProperty in H.
    destruct (propellant self) as [p|]; [|discriminate].
    cbn [bind] in H.
    destruct (ignite _ _ _ _ _ _) as [[simRes0 regs]|] eqn:Hig;
      [|discriminate].
    cbn [bind fst snd] in H.
    destruct (check_port _ _) as [simRes1|] eqn:Hport; [|discriminate].
    cbn [bind] in H. eauto 10.
  - cbn [length Nat.ltb Nat.leb]. intros [= <- <-]. left. done.
Qed.

(** *** The loop, by invariant *)

Section Loop.
Variables (self : motor_t) (callback : option (callback_fn (F:=F))).
Variables (ts ballA ballN density ambientPressure : F).
Variables (burnoutWebThres burnoutThrustThres : F).
Variable Inv : simRes_t -> list F -> list F -> Prop.

(** Every completed pass that the test let in re-establishes [Inv],
    with the argument of the callback added to its calls. *)
Hypothesis Inv_step :
  forall simRes regs calls simRes' regs',
    Inv simRes regs calls ->
    loop_test burnoutThrustThres (ch_force simRes) = Ok true ->
    burn_step self ts ballA ballN density ambientPressure burnoutWebThres
      simRes regs = Ok (simRes', regs') ->
    match callback with
    | None => Inv simRes' regs' calls
    | Some _ =>
        forall pr, progress self regs' = Ok pr ->
                   Inv simRes' regs' ((of_Z 1 - pr) :: calls)
    end.

(** Then a loop that returns does so from a state of [Inv]: either its
    test failed there, or the callback, just called, asked to cancel. *)
Lemma simulation_loop_inv fuel simRes regs calls e (res : simRes_t) :
  Inv simRes regs calls ->
  simulation_loop fuel self callback ts ballA ballN density ambientPressure
    burnoutWebThres burnoutThrustThres simRes regs calls
  = Some (Ok (e, res)) ->
  exists simRes1 regs1 calls1,
    Inv simRes1 regs1 calls1
    /\ ((e = Burnout
         /\ loop_test burnoutThrustThres (ch_force simRes1) = Ok false
         /\ burnout self simRes1 = Ok (e, res))
        \/ (exists cb pr calls0,
             callback = Some cb /\ calls1 = (of_Z 1 - pr) :: calls0
             /\ progress self regs1 = Ok pr
             /\ cb calls1 = true
             /\ e = Cancelled (length calls1) /\ res = simRes1)).
Proof.
  revert simRes regs calls.
  induction fuel as [|fuel IH]; intros simRes regs calls HInv; cbn.
  - discriminate.
  - destruct (loop_test burnoutThrustThres (ch_force simRes)) as [[|]|] eqn:Htest.
    + destruct (burn_step _ _ _ _ _ _ _ _ _) as [[simRes' regs']|] eqn:Hstep;
        [|discriminate].
      pose proof (Inv_step _ _ _ _ _ HInv Htest Hstep) as Hnext.
      destruct callback as [cb|] eqn:Hcb.
      * destruct (progress self regs') as [pr|] eqn:Hpr; [|discriminate].
        specialize (Hnext pr eq_refl).
        destruct (cb ((of_Z 1 - pr) :: calls)) eqn:Hcancel.
        -- intros [= <- <-].
           exists simRes', regs', ((of_Z 1 - pr) :: calls).
           split; [exact Hnext|]. right. exists cb, pr, calls. done.
        -- intros H. exact (IH _ _ _ Hnext H).
      * intros H. exact (IH _ _ _ Hnext H).
    + intros [= H]. exists simRes, regs, calls. split; [exact HInv|].
      left. destruct (burnout_inv _ _ _ _ H) as [-> _]. done.
    + discriminate.
Qed.

End Loop.

(** The loop stops as soon as its test fails, and hands over to the code
    after it. *)
Lemma simulation_loop_stops fuel (self : motor_t) callback
    ts ballA ballN density ambientPressure burnoutWebThres burnoutThrustThres
    (simRes : simRes_t) regs calls :
  loop_test burnoutThrustThres (ch_force simRes) = Ok false ->
  simulation_loop (S fuel) self callback ts ballA ballN density ambientPressure
    burnoutWebThres burnoutThrustThres simRes regs calls
  = Some (burnout self simRes).
Proof. intros Htest. cbn [simulation_loop]. by rewrite Htest. Qed.

(** A callback that answers true ends the run there, with the result as
    the pass just completed left it. *)
Lemma simulation_loop_cancels fuel (self : motor_t) cb
    ts ballA ballN density ambientPressure burnoutWebThres burnoutThrustThres
    (simRes simRes' : simRes_t) regs regs' calls pr :
  loop_test burnoutThrustThres (ch_force simRes) = Ok true ->
  burn_step self ts ballA ballN density ambientPressure burnoutWebThres
    simRes regs = Ok (simRes', regs') ->
  progress self regs' = Ok pr ->
  cb ((of_Z 1 - pr) :: calls) = true ->
  simulation_loop (S fuel) self (Some cb) ts ballA ballN density
    ambientPressure burnoutWebThres burnoutThrustThres simRes regs calls
  = Some (Ok (Cancelled (S (length calls)), simRes')).
Proof.
  intros Htest Hstep Hpr Hcb. cbn [simulation_loop].
  by rewrite Htest, Hstep, Hpr, Hcb.
Qed.

(** More fuel does not change what a loop that returned has returned. *)
Lemma simulation_loop_fuel_mono fuel fuel' (self : motor_t) callback
    ts ballA ballN density ambientPressure burnoutWebThres burnoutThrustThres
    (simRes : simRes_t) regs calls out :
  (fuel <= fuel')%nat ->
  simulation_loop fuel self callback ts ballA ballN density ambientPressure
    burnoutWebThres burnoutThrustThres simRes regs calls = Some out ->
  simulation_loop fuel' self callback ts ballA ballN density ambientPressure
    burnoutWebThres burnoutThrustThres simRes regs calls = Some out.
Proof.
  revert fuel' simRes regs calls.
  induction fuel as [|fuel IH]; intros fuel' simRes regs calls Hle;
    [discriminate|].
  destruct fuel' as [|fuel']; [lia|]. cbn [simulation_loop].
  destruct (loop_test burnoutThrustThres (ch_force simRes)) as [[|]|];
    try done.
  destruct (burn_step _ _ _ _ _ _ _ _ _) as [[simRes' regs']|]; try done.
  destruct callback as [cb|].
  - destruct (progress self regs') as [pr|]; try done.
    destruct (cb _); [done|]. apply IH. lia.
  - apply IH. lia.
Qed.

(** Nor what a run that returned has returned. *)
Lemma runSimulation_fuel_mono fuel fuel' (self : motor_t) callback out :
  (fuel <= fuel')%nat ->
  runSimulation fuel self callback = Some out ->
  runSimulation fuel' self callback = Some out.
Proof.
  intros Hle. unfold runSimulation.
  destruct (0 <? length (getAlertsByLevel ERROR (validate self)))%nat;
    [done|].
  destruct (bind _ _) as [[[[[[self' density] ballA] ballN] simRes] regs]|];
    [|done].
  by apply simulation_loop_fuel_mono.
Qed.

(** ** What each way out of [runSimulation] returns *)

Lemma samples_add_alerts n l (r : simRes_t) :
  samples n (add_alerts l r) <-> samples n r.
Proof. reflexivity. Qed.

Lemma errors_add_warnings l (r : simRes_t) :
  Forall (fun a => level a = WARNING) l ->
  getAlertsByLevel ERROR (add_alerts l r) = getAlertsByLevel ERROR r.
Proof.
  intros Hl. unfold getAlertsByLevel, add_alerts; cbn.
  rewrite filter_app.
  replace (filter (fun a => level a = ERROR) l) with (@nil simAlert).
  - by rewrite app_nil_r.
  - symmetry. induction Hl as [|a l Ha _ IH]; [reflexivity|].
    rewrite filter_cons_False; [exact IH | congruence].
Qed.

Lemma shape_inv_step (self : motor_t) callback
    ts ballA ballN density ambientPressure burnoutWebThres burnoutThrustThres
    (simRes simRes' : simRes_t) regs calls regs' :
  shape_inv callback simRes regs calls ->
  loop_test burnoutThrustThres (ch_force simRes) = Ok true ->
  burn_step self ts ballA ballN density ambientPressure burnoutWebThres
    simRes regs = Ok (simRes', regs') ->
  match callback with
  | None => shape_inv callback simRes' regs' calls
  | Some _ =>
      forall pr, progress self regs' = Ok pr ->
                 shape_inv callback simRes' regs' ((of_Z 1 - pr) :: calls)
  end.
Proof.
  intros ((n & Hn & Hn2 & Hcalls) & Hsucc & Herr) _ Hstep.
  destruct (burn_step_samples _ _ _ _ _ _ _ _ _ _ _ _ Hstep Hn)
    as (Hn' & Hsucc' & Halerts').
  assert (Herr' : getAlertsByLevel ERROR simRes' = []).
  { unfold getAlertsByLevel in *. by rewrite Halerts'. }
  destruct callback as [cb|].
  - intros pr _. repeat split; [|congruence|done].
    exists (S n). repeat split; try apply Hn'; [lia|].
    intros _. cbn [length]. rewrite Hcalls by done. lia.
  - repeat split; [|congruence|done].
    exists (S n). repeat split; try apply Hn'; [lia | done].
Qed.

(** The three ways out of a run, and what the result looks like at each. *)
Lemma runSimulation_outcomes fuel (self : motor_t) callback e (res : simRes_t) :
  runSimulation fuel self callback = Some (Ok (e, res)) ->
  match e with
  | Rejected =>
      res = validate self /\ getAlertsByLevel ERROR res <> []
  | Cancelled k =>
      samples (k + 2) res /\ success res = false
      /\ getAlertsByLevel ERROR res = []
      /\ exists cb calls, callback = Some cb /\ length calls = k
                          /\ cb calls = true
  | Burnout =>
      (exists n, samples n res /\ (2 <= n)%nat) /\ success res = true
      /\ getAlertsByLevel ERROR res = []
  end.
Proof.
  intros Hrun.
  apply runSimulation_inv in Hrun
    as [(-> & -> & Herr) | (Herr & p & r0 & r1 & regs & Hp & Hig & Hport & Hloop)].
  { done. }
  assert (Hinit : shape_inv callback r1 regs []).
  { assert (H0 : samples 0 (validate self)).
    { rewrite validate_alerts. by repeat split. }
    destruct (ignite_samples _ _ _ _ _ _ _ _ _ Hig H0) as (H2 & Hs & Ha).
    apply check_port_inv in Hport as (_ & l & -> & Hl).
    split; [|split].
    - exists 2%nat. rewrite samples_add_alerts. done.
    - cbn. rewrite Hs, validate_alerts. reflexivity.
    - rewrite errors_add_warnings by done.
      unfold getAlertsByLevel in *. by rewrite Ha. }
  eapply (simulation_loop_inv _ _ _ _ _ _ _ _ _ (shape_inv callback)) in Hloop;
    [|intros ? ? ? ? ? ? ? ?; eapply shape_inv_step; eassumption|exact Hinit].
  destruct Hloop as (r2 & regs2 & calls2 & ((n & Hn & Hn2 & Hcalls) & Hs & He)
                     & [(-> & _ & Hb) | (cb & pr & calls0 & -> & -> & _ & Hcb & -> & ->)]).
  - apply burnout_inv in Hb as (_ & l & -> & Hl).
    rewrite errors_add_warnings by done.
    split; [|split].
    + exists n. rewrite samples_add_alerts. done.
    + reflexivity.
    + exact He.
  - rewrite Hcalls in Hn by done.
    repeat split; try apply Hn; try done.
    exists cb, ((of_Z 1 - pr) :: calls0). done.
Qed.

(** C9.  The seeds of [ignite] add two samples to every channel and a
    pass of the loop body adds one; and whichever way [runSimulation]
    returns (rejected at line 135, cancelled at line 210 after a pass is
    complete, burnt out at line 224), the seven channels of the result
    hold the same number of samples: none after a rejection, two seeds
    and one per callback call after a cancellation, at least the two
    seeds after burnout. *)
Theorem C9_channels_have_equal_length (self : motor_t) :
  (forall density ts ambientPressure thres (simRes simRes' : simRes_t) regs n,
      ignite self density ts ambientPressure thres simRes = Ok (simRes', regs) ->
      samples n simRes -> samples (S (S n)) simRes')
  /\ (forall ts ballA ballN density ambientPressure thres
             (simRes simRes' : simRes_t) regs regs' n,
         burn_step self ts ballA ballN density ambientPressure thres
           simRes regs = Ok (simRes', regs') ->
         samples n simRes -> samples (S n) simRes')
  /\ (forall fuel callback e (res : simRes_t),
         runSimulation fuel self callback = Some (Ok (e, res)) ->
         exists n,
           samples n res
           /\ match e with
              | Rejected => n = 0%nat
              | Cancelled k => n = (k + 2)%nat
              | Burnout => (2 <= n)%nat
              end).
Proof.
  split; [|split].
  - intros density ts amb thres simRes simRes' regs n Hig Hn.
    apply (ignite_samples _ _ _ _ _ _ _ _ _ Hig Hn).
  - intros ts ballA ballN density amb thres simRes simRes' regs regs' n Hstep Hn.
    apply (burn_step_samples _ _ _ _ _ _ _ _ _ _ _ _ Hstep Hn).
  - intros fuel callback e res Hrun. apply runSimulation_outcomes in Hrun.
    destruct e as [|k|].
    + destruct Hrun as [-> _]. exists 0%nat.
      rewrite validate_alerts. by repeat split.
    + exists (k + 2)%nat. split; [apply Hrun | reflexivity].
    + destruct Hrun as ((n & Hn & Hn2) & _). by exists n.
Qed.

(** C4, as the code has it.  When the callback answers true, the loop
    halts there and returns the result as the pass just completed left
    it.  A run the callback cancels at its k-th call returns k + 2 samples
    in every channel, with success false and no ERROR alert; WARNINGs
    raised before the loop stay in it.  The three ways out are told apart
    by the flag and the ERROR alerts: a rejected result has success false
    and at least one ERROR, a burnt-out one has success true. *)
Theorem C4_cancelled_result (self : motor_t) :
  (forall fuel cb ts ballA ballN density ambientPressure burnoutWebThres
          burnoutThrustThres (simRes simRes' : simRes_t) regs regs' calls pr,
      loop_test burnoutThrustThres (ch_force simRes) = Ok true ->
      burn_step self ts ballA ballN density ambientPressure burnoutWebThres
        simRes regs = Ok (simRes', regs') ->
      progress self regs' = Ok pr ->
      cb ((of_Z 1 - pr) :: calls) = true ->
      simulation_loop (S fuel) self (Some cb) ts ballA ballN density
        ambientPressure burnoutWebThres burnoutThrustThres simRes regs calls
      = Some (Ok (Cancelled (S (length calls)), simRes')))
  /\ (forall fuel callback e (res : simRes_t),
         runSimulation fuel self callback = Some (Ok (e, res)) ->
         match e with
         | Cancelled k =>
             (exists cb calls,
                 callback = Some cb /\ length calls = k /\ cb calls = true)
             /\ success res = false
             /\ getAlertsByLevel ERROR res = []
             /\ samples (k + 2) res
         | Rejected => success res = false /\ getAlertsByLevel ERROR res <> []
         | Burnout => success res = true
         end).
Proof.
  split.
  - intros. by eapply simulation_loop_cancels.
  - intros fuel callback e res Hrun. apply runSimulation_outcomes in Hrun.
    destruct e as [|k|].
    + destruct Hrun as [-> Herr]. split; [|exact Herr].
      by rewrite validate_alerts.
    + destruct Hrun as (Hn & Hs & He & Hcb). done.
    + apply Hrun.
Qed.

(** ** The test of the loop (line 177) *)

Lemma test_after_snoc thr (force : list F) f i :
  (i < length force)%nat ->
  test_after thr (addData f force) i = test_after thr force i.
Proof.
  intros Hi. unfold test_after, addData.
  by rewrite take_app_le by lia.
Qed.

Lemma test_after_last thr (force : list F) :
  force <> [] ->
  test_after thr force (length force - 1) = loop_test thr force.
Proof.
  intros Hne. unfold test_after.
  rewrite firstn_all2; [reflexivity|].
  destruct force; [done | cbn; lia].
Qed.

Lemma tests_inv_step (self : motor_t) (callback : option (callback_fn (F:=F)))
    ts ballA ballN density ambientPressure burnoutWebThres thr
    (simRes simRes' : simRes_t) regs calls regs' :
  tests_inv thr simRes regs calls ->
  loop_test thr (ch_force simRes) = Ok true ->
  burn_step self ts ballA ballN density ambientPressure burnoutWebThres
    simRes regs = Ok (simRes', regs') ->
  match callback with
  | None => tests_inv thr simRes' regs' calls
  | Some _ =>
      forall pr, progress self regs' = Ok pr ->
                 tests_inv thr simRes' regs' ((of_Z 1 - pr) :: calls)
  end.
Proof.
  intros (Hlen & Hall) Htest Hstep.
  apply burn_step_inv in Hstep as (s & p & f & t & _ & _ & _ & _ & _ & ->).
  assert (Hnext : forall calls', tests_inv thr
            (SimRes (addData (t + ts) (ch_time simRes))
               (addData (calcKN self (perGrainReg s) burnoutWebThres) (ch_kn simRes))
               (addData p (ch_pressure simRes)) (addData f (ch_force simRes))
               (addData (perGrainMass s) (ch_mass simRes))
               (addData (perGrainMassFlow s) (ch_massFlow simRes))
               (addData (perGrainMassFlux s) (ch_massFlux simRes))
               (success simRes) (alerts simRes)) (perGrainReg s) calls').
  { intros calls'. split; cbn [ch_force].
    - rewrite length_addData. lia.
    - intros i Hi1 Hi2. rewrite length_addData in Hi2.
      rewrite test_after_snoc by lia.
      destruct (decide (S i = length (ch_force simRes))) as [Heq|Hne].
      + replace i with (length (ch_force simRes) - 1)%nat by lia.
        rewrite test_after_last; [exact Htest|].
        intros Hnil. rewrite Hnil in Hlen. cbn in Hlen. lia.
      + apply Hall; lia. }
  destruct callback; [intros pr _|]; exact (Hnext []).
Qed.

(** Every result but a rejected one went through the loop: its force
    channel satisfies [tests_inv], and the test failed on it if it is a
    burnout. *)
Lemma runSimulation_tests fuel (self : motor_t) callback e (res : simRes_t) :
  runSimulation fuel self callback = Some (Ok (e, res)) ->
  e <> Rejected ->
  let thr := getProperty (config self) "burnoutThrustThres" in
  (2 <= length (ch_force res))%nat
  /\ (forall i, (1 <= i)%nat -> (S i < length (ch_force res))%nat ->
                test_after thr (ch_force res) i = Ok true)
  /\ (e = Burnout -> loop_test thr (ch_force res) = Ok false).
Proof.
  intros Hrun He thr.
  apply runSimulation_inv in Hrun
    as [(-> & _) | (Herr & p & r0 & r1 & regs & Hp & Hig & Hport & Hloop)];
    [done|].
  assert (Hinit : tests_inv thr r1 regs []).
  { apply ignite_inv in Hig as (pr & f & _ & _ & _ & ->).
    apply check_port_inv in Hport as (_ & l & -> & _).
    split; cbn [ch_force add_alerts].
    - rewrite !length_addData. lia.
    - intros i Hi1 Hi2. rewrite !length_addData in Hi2.
      rewrite validate_alerts in Hi2. cbn in Hi2. lia. }
  eapply (simulation_loop_inv _ _ _ _ _ _ _ _ _ (tests_inv thr)) in Hloop;
    [|intros ? ? ? ? ? ? ? ?; eapply tests_inv_step; eassumption|exact Hinit].
  destruct Hloop as (r2 & regs2 & calls2 & (Hlen & Hall)
                     & [(-> & Htest & Hb) | (cb & pr & calls0 & _ & _ & _ & _ & -> & ->)]).
  - apply burnout_inv in Hb as (_ & l & -> & _). cbn [ch_force add_alerts with_success].
    done.
  - done.
Qed.

Lemma getLast_take {A} (l : list A) i x :
  l !! i = Some x -> getLast (take (S i) l) = Ok x.
Proof.
  intros Hx. unfold getLast, getitem_last.
  rewrite (take_S_r _ _ _ Hx), last_snoc. reflexivity.
Qed.

(** C2.  The loop goes on for another step exactly when the last force
    sample exceeds [burnoutThrustThres * 0.01 * max(force)], the product
    as the code computes it, in the arithmetic of the carrier, from the
    maximum of the force channel so far.  At the test: a last sample equal
    to that product ends the loop there.  In the result of a run that
    entered the loop: every sample after which the run went on, from the
    ignition seed on, passed the test; in a burnout the test is passed
    exactly by the samples that are not the last; and a sample equal to
    the product computed from the peak so far is the last one.  On exact
    rationals the product is [burnoutThrustThres] percent of the peak; on
    doubles it is that percentage rounded twice, and a sample that is
    exactly [burnoutThrustThres] percent of the peak can lie above it. *)
Theorem C2_loop_continues_iff_thrust_above_threshold (self : motor_t) :
  (NumOrder ->
   forall fuel callback ts ballA ballN density ambientPressure burnoutWebThres
          thr (simRes : simRes_t) regs calls x peak,
     getLast (ch_force simRes) = Ok x ->
     getMax (ch_force simRes) = Ok peak ->
     x = thr * lit_0_01 * peak ->
     simulation_loop (S fuel) self callback ts ballA ballN density
       ambientPressure burnoutWebThres thr simRes regs calls
     = Some (burnout self simRes))
  /\ (forall fuel callback e (res : simRes_t),
         runSimulation fuel self callback = Some (Ok (e, res)) ->
         e <> Rejected ->
         let thr := getProperty (config self) "burnoutThrustThres" in
         let force := ch_force res in
         (forall i, (1 <= i)%nat -> (S i < length force)%nat ->
                    test_after thr force i = Ok true)
         /\ (e = Burnout ->
             forall i, (1 <= i)%nat -> (i < length force)%nat ->
                       (test_after thr force i = Ok true
                        <-> (S i < length force)%nat))
         /\ (NumOrder ->
             forall i x peak,
               (1 <= i)%nat -> force !! i = Some x ->
               getMax (take (S i) force) = Ok peak ->
               x = thr * lit_0_01 * peak ->
               S i = length force)).
Proof.
  split.
  { intros Hord fuel callback ts ballA ballN density amb thres thr simRes
           regs calls x peak Hx Hpeak ->.
    apply simulation_loop_stops. unfold loop_test.
    rewrite Hx, Hpeak. cbn [bind]. by rewrite ltb_irrefl. }
  intros fuel callback e res Hrun He thr force.
  destruct (runSimulation_tests _ _ _ _ _ Hrun He) as (Hlen & Hall & Hlast).
  fold thr in Hall, Hlast. fold force in Hlen, Hall, Hlast.
  split; [exact Hall|]. split.
  - intros -> i Hi1 Hi2. split; [|by apply Hall].
    intros Htest.
    destruct (decide (S i = length force)) as [Heq|Hne]; [|lia].
    replace i with (length force - 1)%nat in Htest by lia.
    rewrite test_after_last in Htest.
    + rewrite Hlast in Htest by done. discriminate.
    + intros Hnil. rewrite Hnil in Hlen. cbn in Hlen. lia.
  - intros Hord i x peak Hi Hx Hpeak ->.
    pose proof (lookup_lt_Some _ _ _ Hx) as Hlt.
    destruct (decide (S i = length force)) as [Heq|Hne]; [done|].
    assert (Htest : test_after thr force i = Ok true) by (apply Hall; lia).
    unfold test_after, loop_test in Htest.
    rewrite (getLast_take _ _ _ Hx), Hpeak in Htest. cbn in Htest.
    rewrite ltb_irrefl in Htest. discriminate.
Qed.

(** ** The ballistics solver (lines 61-106) *)

Lemma calcIdealPressure_eq (self : motor_t) p r kn thres :
  propellant self = Some p ->
  calcIdealPressure self r kn thres
  = Ok (idealPressure_spec
          (match kn with Some kn => kn | None => calcKN self r thres end)
          (getProperty p "density") (getProperty p "a") (getProperty p "n")
          (getProperty p "k") (getProperty p "t") (getProperty p "m")).
Proof.
  intros Hp. unfold calcIdealPressure, propellant_getProperty.
  rewrite Hp. cbn [bind]. destruct kn; reflexivity.
Qed.

(** Adding the areas times 0 or 1 is adding the areas of the grains with
    web left, in exact arithmetic. *)
Lemma pysum_indicator `{!NumExact} (thres : F) (l : list (G * F)) acc :
  foldl nadd acc
    (map (fun '(gr, reg) =>
            getSurfaceAreaAtRegression gr reg * int_of_bool (isWebLeft gr reg thres)) l)
  = foldl nadd acc
      (map (fun '(gr, reg) => getSurfaceAreaAtRegression gr reg)
           (filter (fun '(gr, reg) => isWebLeft gr reg thres = true) l)).
Proof.
  revert acc; induction l as [|[gr reg] l IH]; intros acc; [reflexivity|].
  rewrite filter_cons. cbn [map foldl].
  destruct (decide _) as [Hweb|Hweb]; cbn in Hweb.
  - cbn [map foldl]. rewrite Hweb. unfold int_of_bool.
    rewrite mul_1_r. apply IH.
  - apply not_true_is_false in Hweb. rewrite Hweb. unfold int_of_bool.
    rewrite mul_0_r, add_0_r. apply IH.
Qed.

(** C5.  With a propellant set, [calcIdealPressure] is the spec's formula
    (KN * density * a / D) ^ (1 / (1 - n)), on the KN it is given or else
    on [calcKN]; and [calcKN], which adds every grain's area times 0 or 1,
    is in exact arithmetic the sum over exactly the grains with web left,
    over the throat area. *)
Theorem C5_ideal_pressure_formula (self : motor_t) p r kn thres :
  propellant self = Some p ->
  calcIdealPressure self r kn thres
  = Ok (idealPressure_spec
          (match kn with Some kn => kn | None => calcKN self r thres end)
          (getProperty p "density") (getProperty p "a") (getProperty p "n")
          (getProperty p "k") (getProperty p "t") (getProperty p "m"))
  /\ (NumExact -> calcKN self r thres = KN_spec self r thres).
Proof.
  intros Hp. split; [by apply calcIdealPressure_eq|].
  intros Hexact. unfold calcKN, KN_spec, pysum. by rewrite pysum_indicator.
Qed.

(** C6.  [calcForce] returns 0 as soon as the chamber pressure it resolves
    equals 0, whatever the nozzle would make of it; and whatever it
    returns is non-negative: a thrust that is a NaN or below 0 has been
    replaced by 0. *)
Theorem C6_calcForce_zero_or_nonnegative (self : motor_t)
    r casePressure ambientPressure thres :
  (forall p_c,
      resolved_pressure self r casePressure thres = Ok p_c ->
      (p_c ==? of_Z 0) = true ->
      calcForce self r casePressure ambientPressure thres = Ok (of_Z 0))
  /\ (NumOrder ->
      forall f,
        calcForce self r casePressure ambientPressure thres = Ok f ->
        nonnegative f).
Proof.
  split.
  - intros p_c Hres Hz. unfold calcForce. unfold resolved_pressure in Hres.
    inv_bind Hres. rewrite Ha. cbn [bind]. rewrite Hres. cbn [bind].
    by rewrite Hz.
  - intros Hord f Hf.
    assert (H0 : nonnegative (of_Z 0 : F)).
    { split; [apply isnan_0 | apply ltb_irrefl]. }
    unfold calcForce in Hf. inv_bind Hf. inv_bind Hf.
    destruct (a0 ==? of_Z 0); [by injection Hf as <-|].
    match type of Hf with
    | Ok (if ?b then _ else ?x) = _ => destruct b eqn:Hclamp
    end; injection Hf as <-; [exact H0|].
    apply orb_false_iff in Hclamp as [Hnan Hneg]. by split.
Qed.

(** ** The sweep over the grains (lines 179-190) *)

Lemma getitem_middle {A} (pre suf : list A) x n :
  length pre = n -> getitem (pre ++ x :: suf) n = Ok x.
Proof. intros <-. unfold getitem. by rewrite list_lookup_middle. Qed.

Lemma setitem_middle {A} (pre suf : list A) x y n :
  length pre = n -> setitem (pre ++ x :: suf) n y = Ok (pre ++ y :: suf).
Proof.
  intros <-. unfold setitem.
  destruct (Nat.ltb_spec (length pre) (length (pre ++ x :: suf))) as [_|Hge].
  - replace (length pre) with (length pre + 0)%nat at 1 by lia.
    by rewrite insert_app_r.
  - rewrite length_app in Hge. cbn in Hge. lia.
Qed.

(** Run the reads and writes of the sweep on lists split at the index. *)
Ltac sweep_run Hpressure Hlast :=
  cbn [bind perGrainReg perGrainMass perGrainMassFlow perGrainMassFlux mf];
  repeat (first [ rewrite getitem_middle by done
                | rewrite setitem_middle by done
                | rewrite Hlast
                | rewrite Hpressure ];
          cbn [bind perGrainReg perGrainMass perGrainMassFlow
               perGrainMassFlux mf]).

Lemma final_flow_cons mf o (out : list (grainStep (F:=F))) :
  final_flow mf (o :: out) = final_flow (gs_flow o) out.
Proof.
  unfold final_flow. destruct out as [|g out]; [reflexivity|].
  rewrite last_cons_cons.
  destruct (last (g :: out)) eqn:Hlast; [reflexivity|].
  by apply last_None in Hlast.
Qed.

(** The loop over the indices does what the recursion over the grains
    says.  The grains before index [length regs_pre] are done; the
    entries of the others are still the initial zeros. *)
Lemma sweep_loop_spec (simRes : simRes_t) ts ballA ballN density thres
    pressure :
  getLast (ch_pressure simRes) = Ok pressure ->
  forall (gs : list G) regs_pre mass_pre flow_pre flux_pre lm_pre
         regs_suf flow_suf lm_suf mf0,
    getLast (ch_mass simRes) = Ok (lm_pre ++ lm_suf) ->
    length mass_pre = length regs_pre ->
    length flow_pre = length regs_pre ->
    length flux_pre = length regs_pre ->
    length lm_pre = length regs_pre ->
    length regs_suf = length gs ->
    length flow_suf = length gs ->
    length lm_suf = length gs ->
    sweep_loop simRes ts ballA ballN density thres
      (enumerate_from (length regs_pre) gs)
      (Sweep mf0 (regs_pre ++ regs_suf)
         (mass_pre ++ replicate (length gs) (of_Z 0))
         (flow_pre ++ flow_suf)
         (flux_pre ++ replicate (length gs) (of_Z 0)))
    = let out := sweep_spec ts ballA ballN density thres pressure mf0 gs
                   regs_suf lm_suf in
      Ok (Sweep (final_flow mf0 out)
            (regs_pre ++ map gs_reg out) (mass_pre ++ map gs_mass out)
            (flow_pre ++ map gs_flow out) (flux_pre ++ map gs_flux out)).
Proof.
  intros Hpressure gs.
  induction gs as [|g gs IH];
    intros regs_pre mass_pre flow_pre flux_pre lm_pre regs_suf flow_suf lm_suf
           mf0 Hlast Hm Hfl Hfx Hlm Hrs Hfs Hls.
  - destruct regs_suf, flow_suf; done.
  - destruct regs_suf as [|r regs_suf], flow_suf as [|fl flow_suf],
      lm_suf as [|old lm_suf]; try done.
    injection Hrs as Hrs. injection Hfs as Hfs. injection Hls as Hls.
    cbn [enumerate_from sweep_loop replicate length sweep_spec].
    unfold sweep_grain.
    cbn [perGrainReg perGrainMass perGrainMassFlow perGrainMassFlux mf].
    rewrite getitem_middle by done. cbn [bind].
    assert (Hlast' : getLast (ch_mass simRes) = Ok ((lm_pre ++ [old]) ++ lm_suf))
      by (by rewrite <- app_assoc).
    destruct (getWebLeft g r >? thres).
    + sweep_run Hpressure Hlast.
      pose proof (IH (regs_pre ++ [r + ts * ballA * (pressure ** ballN)])
                    (mass_pre ++ [getVolumeAtRegression g r * density])
                    (flow_pre ++ [mf0 + (old - getVolumeAtRegression g r * density) / ts])
                    (flux_pre ++ [getPeakMassFlux g mf0 ts r
                                    (ts * ballA * (pressure ** ballN)) density])
                    (lm_pre ++ [old]) regs_suf flow_suf lm_suf
                    (mf0 + (old - getVolumeAtRegression g r * density) / ts)
                    Hlast') as IHb.
      rewrite !length_app in IHb. cbn [length] in IHb.
      replace (length regs_pre + 1)%nat with (S (length regs_pre)) in IHb by lia.
      rewrite <- !app_assoc in IHb. cbn [app] in IHb.
      rewrite IHb by (done || lia). cbn zeta.
      rewrite final_flow_cons. cbn [map gs_reg gs_mass gs_flow gs_flux].
      reflexivity.
    + sweep_run Hpressure Hlast.
      pose proof (IH (regs_pre ++ [r]) (mass_pre ++ [of_Z 0])
                    (flow_pre ++ [mf0]) (flux_pre ++ [of_Z 0])
                    (lm_pre ++ [old]) regs_suf flow_suf lm_suf mf0 Hlast')
        as IHs.
      rewrite !length_app in IHs. cbn [length] in IHs.
      replace (length regs_pre + 1)%nat with (S (length regs_pre)) in IHs by lia.
      rewrite <- !app_assoc in IHs. cbn [app] in IHs.
      rewrite IHs by (done || lia). cbn zeta.
      rewrite final_flow_cons. cbn [map gs_reg gs_mass gs_flow gs_flux].
      reflexivity.
Qed.

(** ** Regression and mass along a run, in exact arithmetic *)

Section Exact.
Context {exact : NumExact}.

Lemma add_nonneg (a b : F) :
  nle (of_Z 0) a -> nle (of_Z 0) b -> nle (of_Z 0) (a + b).
Proof.
  intros Ha Hb. rewrite <- (add_0_r (of_Z 0)). by apply add_le_mono.
Qed.

Lemma le_add_r (a b : F) : nle (of_Z 0) b -> nle a (a + b).
Proof.
  intros Hb. rewrite <- (add_0_r a) at 1. apply add_le_mono; [apply nle_refl|done].
Qed.



Lemma foldl_nadd_nonneg (xs : list F) a :
  nle (of_Z 0) a -> Forall (nle (of_Z 0)) xs -> nle (of_Z 0) (foldl nadd a xs).
Proof.
  intros Ha Hxs. revert a Ha.
  induction Hxs as [|x xs Hx _ IH]; intros a Ha; cbn; [done|].
  apply IH. by apply add_nonneg.
Qed.

Lemma idealPressure_nonneg (KN density a n k t m : F) :
  nle (of_Z 0) KN -> nle (of_Z 0) density -> nle (of_Z 0) a ->
  nle (of_Z 0) k -> nle (of_Z 0) t -> nle (of_Z 0) m ->
  nle (of_Z 0) (idealPressure_spec KN density a n k t m).
Proof.
  intros HKN Hd Ha Hk Ht Hm. unfold idealPressure_spec.
  apply pow_nonneg, div_nonneg.
  - by repeat apply mul_nonneg.
  - apply pow_nonneg, mul_nonneg.
    + apply div_nonneg; [done|]. apply mul_nonneg; [|done].
      apply div_nonneg; [|done]. by apply of_Z_nonneg.
    + apply pow_nonneg, div_nonneg; [by apply of_Z_nonneg|].
      apply add_nonneg; [done | by apply of_Z_nonneg].
Qed.

Lemma calcKN_nonneg (self : motor_t) (r : list F) thres :
  nle (of_Z 0) (getThroatArea (nozzle self)) ->
  (forall g x, g ∈ grains self -> isWebLeft g x thres = true ->
               nle (of_Z 0) (getSurfaceAreaAtRegression g x)) ->
  nle (of_Z 0) (calcKN self r thres).
Proof.
  intros Hthroat Harea. unfold calcKN. apply div_nonneg; [|done].
  apply foldl_nadd_nonneg; [apply nle_refl|].
  apply Forall_forall. intros x Hx.
  apply list_elem_of_fmap in Hx as ([g reg] & -> & Hin).
  apply elem_of_zip_l in Hin.
  destruct (isWebLeft g reg thres) eqn:Hweb; unfold int_of_bool.
  - rewrite mul_1_r. by apply Harea.
  - rewrite mul_0_r. apply nle_refl.
Qed.

Lemma map_const_replicate {A B} (l : list A) (b : B) :
  map (fun _ => b) l = replicate (length l) b.
Proof. induction l; cbn; [done | by f_equal]. Qed.

(** A sweep of the loop, from its fresh lists, is [sweep_spec] started
    with a mass flow of 0. *)
Lemma sweep_eq (self : motor_t) (simRes : simRes_t) ts ballA ballN density thres
    regs pressure lastMass :
  getLast (ch_pressure simRes) = Ok pressure ->
  getLast (ch_mass simRes) = Ok lastMass ->
  length regs = length (grains self) ->
  length lastMass = length (grains self) ->
  sweep self simRes ts ballA ballN density thres regs
  = let out := sweep_spec ts ballA ballN density thres pressure (of_Z 0)
                 (grains self) regs lastMass in
    Ok (Sweep (final_flow (of_Z 0) out) (map gs_reg out) (map gs_mass out)
          (map gs_flow out) (map gs_flux out)).
Proof.
  intros Hp Hm Hr Hl. unfold sweep, enumerate.
  rewrite map_const_replicate.
  pose proof (sweep_loop_spec simRes ts ballA ballN density thres pressure
                Hp (grains self) [] [] [] [] [] regs
                (replicate (length (grains self)) (of_Z 0)) lastMass (of_Z 0))
    as H.
  cbn [app length] in H. apply H; try done.
  by rewrite length_replicate.
Qed.


Lemma total_mass_snoc (mass : list (list F)) (old new : list F) :
  total_mass_nonincreasing mass ->
  getLast mass = Ok old ->
  nle (pysum new) (pysum old) ->
  total_mass_nonincreasing (addData new mass).
Proof.
  intros Hmass Hold Hnew i m1 m2 H1 H2. unfold addData in *.
  unfold getLast, getitem_last in Hold.
  destruct (last mass) as [o|] eqn:Hlast; [|discriminate].
  injection Hold as ->. rewrite last_lookup in Hlast.
  pose proof (lookup_lt_Some _ _ _ Hlast) as Hlen.
  apply lookup_snoc_Some in H2 as [[Hlt H2] | [Heq ->]].
  - rewrite lookup_app_l in H1 by lia. by apply (Hmass i).
  - rewrite lookup_app_l in H1 by lia.
    replace i with (pred (length mass)) in H1 by lia.
    congruence.
Qed.

Lemma pressure_nonneg (self : motor_t) p (r : list F) kn pressure :
  physical self ->
  propellant self = Some p ->
  nle (of_Z 0) kn ->
  calcIdealPressure (setup_grains self) r (Some kn)
    (getProperty (config self) "burnoutWebThres") = Ok pressure ->
  nle (of_Z 0) pressure.
Proof.
  intros Hph Hp Hkn Hpr.
  rewrite (calcIdealPressure_eq _ p) in Hpr by exact Hp.
  injection Hpr as <-.
  destruct (ph_propellant _ Hph p Hp) as (Hk & Ht & Hm & Hd & Ha).
  by apply idealPressure_nonneg.
Qed.

Lemma setup_KN_nonneg (self : motor_t) (r : list F) :
  physical self ->
  nle (of_Z 0) (calcKN (setup_grains self) r
                  (getProperty (config self) "burnoutWebThres")).
Proof.
  intros Hph. apply calcKN_nonneg.
  - apply (ph_throat _ Hph).
  - intros g x Hg. by apply (ph_area _ Hph).
Qed.





(** A run that returns from its loop does so with the channels of a
    state of [at_loop_head]. *)
Lemma runSimulation_at_loop_head fuel (self : motor_t) callback e
    (res : simRes_t) :
  runSimulation fuel self callback = Some (Ok (e, res)) ->
  e <> Rejected ->
  exists simRes regs,
    at_loop_head self simRes regs /\ ch_mass res = ch_mass simRes.
Proof.
  intros Hrun He.
  apply runSimulation_inv in Hrun
    as [(-> & _) | (Herr & p & r0 & r1 & regs & Hp & Hig & Hport & Hloop)];
    [done|].
  eapply (simulation_loop_inv _ _ _ _ _ _ _ _ _
            (fun simRes regs _ => at_loop_head self simRes regs)) in Hloop.
  - destruct Hloop as (r2 & regs2 & calls2 & Hat
                       & [(-> & _ & Hb) | (cb & pr & calls0 & _ & _ & _ & _ & -> & ->)]).
    + apply burnout_inv in Hb as (_ & l & -> & _). by exists r2, regs2.
    + by exists r2, regs2.
  - intros simRes regs' calls simRes' regs'' Hat Htest Hstep.
    assert (Hnext : at_loop_head self simRes' regs'')
      by (by eapply at_next_step).
    destruct callback; [intros pr _|]; exact Hnext.
  - by eapply at_ignition.
Qed.

End Exact.

(** ** Regression and mass along a run, in monotone arithmetic

    The same invariant for carriers that round, doubles among them: the
    laws of [NumMonotone] in place of those of an ordered field, and
    [well_posed] motors. *)

Section Monotone.
Context {mono : NumMonotone}.

Lemma foldl_nadd_le (xs ys : list F) a b :
  nle a b -> Forall2 nle xs ys -> nle (foldl nadd a xs) (foldl nadd b ys).
Proof.
  intros Hab Hxy. revert a b Hab.
  induction Hxy as [|x y xs ys Hx _ IH]; intros a b Hab; cbn; [done|].
  apply IH. by apply mono_add.
Qed.

Lemma pysum_le (xs ys : list F) :
  Forall2 nle xs ys -> nle (pysum xs) (pysum ys).
Proof. apply foldl_nadd_le, mono_refl. Qed.

Lemma foldl_nadd_nn (xs : list F) a :
  nle (of_Z 0) a -> Forall (nle (of_Z 0)) xs -> nle (of_Z 0) (foldl nadd a xs).
Proof.
  intros Ha Hxs. revert a Ha.
  induction Hxs as [|x xs Hx _ IH]; intros a Ha; cbn; [done|].
  apply IH. by apply nn_add.
Qed.

(** The ideal pressure is not below 0: its base is a quotient of a number
    not below 0 by a [plus_sign]. *)
Lemma idealPressure_nn (KN density a n k t m : F) :
  nle (of_Z 0) KN -> nle (of_Z 0) density -> nle (of_Z 0) a ->
  plus_sign k -> plus_sign t -> plus_sign m ->
  nle (of_Z 0) (idealPressure_spec KN density a n k t m).
Proof.
  intros HKN Hd Ha Hk Ht Hm. unfold idealPressure_spec.
  apply nn_pow, nn_div.
  - by repeat apply nn_mul.
  - apply ps_pow, ps_mul.
    + apply ps_div; [done|]. apply ps_mul; [|done].
      apply ps_div; [|done]. by apply ps_of_Z.
    + apply ps_pow, ps_div; [by apply ps_of_Z|].
      apply ps_add; [done | by apply ps_of_Z].
Qed.

Lemma calcKN_nn (self : motor_t) (r : list F) thres :
  plus_sign (getThroatArea (nozzle self)) ->
  (forall g x, g ∈ grains self -> isWebLeft g x thres = true ->
               nle (of_Z 0) (getSurfaceAreaAtRegression g x)) ->
  nle (of_Z 0) (calcKN self r thres).
Proof.
  intros Hthroat Harea. unfold calcKN. apply nn_div; [|done].
  apply foldl_nadd_nn; [apply mono_refl|].
  apply Forall_forall. intros x Hx.
  apply list_elem_of_fmap in Hx as ([g reg] & -> & Hin).
  apply elem_of_zip_l in Hin.
  destruct (isWebLeft g reg thres) eqn:Hweb; unfold int_of_bool.
  - apply nn_mul; [by apply Harea | by apply nn_of_Z].
  - apply nn_mul_0.
Qed.

Lemma sweep_spec_monotone ts ballA ballN density thres pressure
    (gs : list G) (regs lastMass : list F) mf :
  nle (of_Z 0) (ts * ballA * (pressure ** ballN)) ->
  nle (of_Z 0) density ->
  (forall g r, g ∈ gs -> (getWebLeft g r >? thres) = true ->
               nle (of_Z 0) (getVolumeAtRegression g r)) ->
  (forall g r r', g ∈ gs -> nle r r' ->
                  (getWebLeft g r >? thres) = true ->
                  (getWebLeft g r' >? thres) = true ->
                  nle (getVolumeAtRegression g r') (getVolumeAtRegression g r)) ->
  Forall3 (mass_bound density thres) gs regs lastMass ->
  let out := sweep_spec ts ballA ballN density thres pressure mf gs regs lastMass in
  Forall2 nle regs (map gs_reg out)
  /\ Forall2 nle (map gs_mass out) lastMass
  /\ Forall3 (mass_bound density thres) gs (map gs_reg out) (map gs_mass out).
Proof.
  intros Hreg Hd Hvol Hmono Hall. revert mf Hvol Hmono.
  induction Hall as [|g r old gs regs lastMass [Hold Hbound] _ IH];
    intros mf Hvol Hmono; cbn [sweep_spec].
  { repeat split; constructor. }
  assert (Hvol' : forall g r, g ∈ gs -> (getWebLeft g r >? thres) = true ->
                              nle (of_Z 0) (getVolumeAtRegression g r)).
  { intros g' r' Hin. apply Hvol. by apply elem_of_cons; right. }
  assert (Hmono' : forall g r r', g ∈ gs -> nle r r' ->
             (getWebLeft g r >? thres) = true ->
             (getWebLeft g r' >? thres) = true ->
             nle (getVolumeAtRegression g r') (getVolumeAtRegression g r)).
  { intros g' r1 r2 Hin. apply Hmono. by apply elem_of_cons; right. }
  assert (Hg : g ∈ g :: gs) by (apply elem_of_cons; by left).
  destruct (getWebLeft g r >? thres) eqn:Hweb.
  - destruct (IH (mf + (old - getVolumeAtRegression g r * density) / ts)
                Hvol' Hmono') as (IH1 & IH2 & IH3).
    cbn [map gs_reg gs_mass]. repeat split; constructor; try done.
    + by apply mono_add_r.
    + by apply Hbound.
    + split.
      * apply nn_mul; [by apply Hvol | done].
      * intros Hweb'. apply mono_mul_r; [|done].
        apply Hmono; [done| |done|done]. by apply mono_add_r.
  - destruct (IH mf Hvol' Hmono') as (IH1 & IH2 & IH3).
    cbn [map gs_reg gs_mass]. repeat split; constructor; try done.
    + apply mono_refl.
    + split; [apply mono_refl|]. intros Hweb'. congruence.
Qed.

Lemma well_posed_constants (self : motor_t) p :
  well_posed self -> propellant self = Some p ->
  plus_sign (getProperty p "k") /\ plus_sign (getProperty p "t")
  /\ plus_sign (getProperty p "m")
  /\ nle (of_Z 0) (getProperty p "density")
  /\ nle (of_Z 0) (getProperty p "a").
Proof.
  intros Hwp Hp. destruct (wp_propellant _ Hwp p Hp) as (Hk & Ht & Hm & Hd & Ha).
  repeat split; try done; by apply ps_lt.
Qed.

Lemma pressure_nn (self : motor_t) p (r : list F) kn pressure :
  well_posed self ->
  propellant self = Some p ->
  nle (of_Z 0) kn ->
  calcIdealPressure (setup_grains self) r (Some kn)
    (getProperty (config self) "burnoutWebThres") = Ok pressure ->
  nle (of_Z 0) pressure.
Proof.
  intros Hwp Hp Hkn Hpr.
  rewrite (calcIdealPressure_eq _ p) in Hpr by exact Hp.
  injection Hpr as <-.
  destruct (well_posed_constants _ p Hwp Hp) as (Hk & Ht & Hm & Hd & Ha).
  by apply idealPressure_nn.
Qed.

Lemma setup_KN_nn (self : motor_t) (r : list F) :
  well_posed self ->
  nle (of_Z 0) (calcKN (setup_grains self) r
                  (getProperty (config self) "burnoutWebThres")).
Proof.
  intros Hwp. apply calcKN_nn.
  - apply ps_lt, (wp_throat _ Hwp).
  - intros g x Hg. by apply (wp_area _ Hwp).
Qed.

Lemma seed_mass_nn density thres (gs : list G) :
  nle (of_Z 0) density ->
  (forall g, g ∈ gs -> nle (of_Z 0) (getVolumeAtRegression g (of_Z 0))) ->
  Forall3 (mass_bound density thres) gs
    (map (fun _ => of_Z 0) gs)
    (map (fun grain => getVolumeAtRegression grain (of_Z 0) * density) gs).
Proof.
  intros Hd Hv0. induction gs as [|g gs IH]; cbn [map]; constructor.
  - split; [|intros _; apply mono_refl].
    apply nn_mul; [|done]. apply Hv0, elem_of_cons. by left.
  - apply IH. intros g' Hg'. apply Hv0, elem_of_cons. by right.
Qed.

Lemma mass_inv_at_ignition (self : motor_t) p (simRes0 simRes1 : simRes_t) regs :
  well_posed self ->
  propellant self = Some p ->
  ignite (setup_grains self) (getProperty p "density")
    (getProperty (config self) "timestep")
    (getProperty (config self) "ambPressure")
    (getProperty (config self) "burnoutWebThres") (validate self)
  = Ok (simRes0, regs) ->
  check_port (setup_grains self) simRes0 = Ok simRes1 ->
  mass_inv (getProperty p "density")
    (getProperty (config self) "burnoutWebThres")
    (grains (setup_grains self)) simRes1 regs.
Proof.
  intros Hwp Hp Hig Hport.
  destruct (well_posed_constants _ p Hwp Hp) as (Hk & Ht & Hm & Hd & Ha).
  apply ignite_inv in Hig as (pr & f & -> & Hpr & _ & ->).
  apply check_port_inv in Hport as (_ & l & -> & _).
  rewrite validate_alerts. unfold mass_inv.
  cbn [add_alerts ch_pressure ch_mass].
  split; [|split].
  - exists pr. split; [apply getLast_addData|].
    rewrite (calcIdealPressure_eq _ p) in Hpr by exact Hp.
    injection Hpr as <-.
    apply idealPressure_nn; try done. by apply setup_KN_nn.
  - eexists. split; [apply getLast_addData|].
    apply seed_mass_nn; [done | apply (wp_volume_0 _ Hwp)].
  - intros [|[|i]] m1 m2 H1 H2; cbn in H1, H2; try discriminate.
    injection H1 as <-. injection H2 as <-. apply mono_refl.
Qed.

(** One pass of the body: no regression decreases, and the invariant
    holds again. *)
Lemma mass_inv_after_step (self : motor_t) p (simRes simRes' : simRes_t)
    regs regs' :
  well_posed self ->
  propellant self = Some p ->
  mass_inv (getProperty p "density")
    (getProperty (config self) "burnoutWebThres")
    (grains (setup_grains self)) simRes regs ->
  burn_step (setup_grains self) (getProperty (config self) "timestep")
    (getProperty p "a") (getProperty p "n") (getProperty p "density")
    (getProperty (config self) "ambPressure")
    (getProperty (config self) "burnoutWebThres") simRes regs
  = Ok (simRes', regs') ->
  Forall2 nle regs regs'
  /\ mass_inv (getProperty p "density")
       (getProperty (config self) "burnoutWebThres")
       (grains (setup_grains self)) simRes' regs'.
Proof.
  intros Hwp Hp ((pr & Hpr & Hpr0) & (lastMass & Hlast & Hbound) & Hmass) Hstep.
  destruct (well_posed_constants _ p Hwp Hp) as (Hk & Ht & Hm & Hd & Ha).
  apply burn_step_inv in Hstep
    as (s & pr' & f & t & Hsweep & -> & Hpr' & _ & _ & ->).
  rewrite (sweep_eq _ _ _ _ _ _ _ _ pr lastMass) in Hsweep; try done.
  2: { symmetry. exact (Forall3_length_lm _ _ _ _ Hbound). }
  2: { rewrite <- (Forall3_length_lr _ _ _ _ Hbound). reflexivity. }
  cbn zeta in Hsweep. injection Hsweep as <-. cbn [perGrainReg perGrainMass] in *.
  destruct (sweep_spec_monotone (getProperty (config self) "timestep")
              (getProperty p "a") (getProperty p "n") (getProperty p "density")
              (getProperty (config self) "burnoutWebThres") pr
              (grains (setup_grains self)) regs lastMass (of_Z 0))
    as (Hregs & Hnew & Hbound'); try done.
  { apply nn_mul; [apply nn_mul|]; try done.
    - apply (wp_timestep _ Hwp).
    - by apply nn_pow. }
  { apply (wp_volume _ Hwp). }
  { apply (wp_volume_mono _ Hwp). }
  split; [exact Hregs|]. unfold mass_inv. cbn [ch_pressure ch_mass].
  split; [|split].
  - exists pr'. split; [apply getLast_addData|].
    eapply (pressure_nn self p _ _ pr' Hwp Hp); [|exact Hpr'].
    by apply setup_KN_nn.
  - eexists. split; [apply getLast_addData | exact Hbound'].
  - eapply total_mass_snoc; try done. by apply pysum_le.
Qed.

(** The invariant holds whenever the run evaluates the test of its loop. *)
Lemma at_loop_head_mass (self : motor_t) p (simRes : simRes_t) regs :
  well_posed self ->
  propellant self = Some p ->
  at_loop_head self simRes regs ->
  mass_inv (getProperty p "density")
    (getProperty (config self) "burnoutWebThres")
    (grains (setup_grains self)) simRes regs.
Proof.
  intros Hwp Hp Hat.
  induction Hat as [p' r0 r1 regs _ Hp' Hig Hport
                   |p' simRes regs simRes' regs' _ IH Hp' _ Hstep].
  - assert (p' = p) as -> by congruence.
    by eapply mass_inv_at_ignition.
  - assert (p' = p) as -> by congruence.
    by eapply mass_inv_after_step.
Qed.

(** C8.  On doubles as on rationals (any carrier that is
    [NumMonotone]), for a motor that is [well_posed] (the throat area and
    the propellant constants k, t and m are positive; the timestep, the
    density and the burn rate coefficient a are not negative; while a
    grain has web left its burning area and its volume are not negative
    and its volume does not grow with the regression; no initial volume
    is negative): at every pass of the loop body no grain's regression
    decreases; the total of the mass channel never grows from a sample to
    the next while the run is under way; and it does not in the result a
    run returns.  "Does not decrease" and "does not grow" are read off the
    comparison of the carrier: the later value is not less, the later
    total not greater. *)
Theorem C8_regression_and_mass_monotone (self : motor_t) :
  well_posed self ->
  (forall p (simRes simRes' : simRes_t) regs regs',
      at_loop_head self simRes regs ->
      propellant self = Some p ->
      burn_step (setup_grains self) (getProperty (config self) "timestep")
        (getProperty p "a") (getProperty p "n") (getProperty p "density")
        (getProperty (config self) "ambPressure")
        (getProperty (config self) "burnoutWebThres") simRes regs
      = Ok (simRes', regs') ->
      Forall2 nle regs regs')
  /\ (forall (simRes : simRes_t) regs,
         at_loop_head self simRes regs ->
         total_mass_nonincreasing (ch_mass simRes))
  /\ (forall fuel callback e (res : simRes_t),
         runSimulation fuel self callback = Some (Ok (e, res)) ->
         total_mass_nonincreasing (ch_mass res)).
Proof.
  intros Hwp.
  assert (Hhead : forall (simRes : simRes_t) regs,
             at_loop_head self simRes regs ->
             total_mass_nonincreasing (ch_mass simRes)).
  { intros simRes regs Hat.
    assert (exists p, propellant self = Some p) as [p Hp]
      by (induction Hat; eauto).
    apply (at_loop_head_mass _ p _ _ Hwp Hp Hat). }
  split; [|split; [exact Hhead|]].
  - intros p simRes simRes' regs regs' Hat Hp Hstep.
    pose proof (at_loop_head_mass _ p _ _ Hwp Hp Hat) as Hinv.
    apply (mass_inv_after_step _ _ _ _ _ _ Hwp Hp Hinv Hstep).
  - intros fuel callback e res Hrun.
    assert (He : e = Rejected \/ e <> Rejected)
      by (destruct e; (by left) || (by right)).
    destruct He as [->|He].
    + apply runSimulation_outcomes in Hrun as [-> _].
      rewrite validate_alerts. intros i m1 m2 H1. discriminate.
    + destruct (runSimulation_at_loop_head _ _ _ _ _ Hrun He)
        as (simRes & regs & Hat & ->).
      by eapply Hhead.
Qed.

End Monotone.

(** ** Serialization (lines 38-59) *)



End EngineFacts.

(** * Doubles: the rounding of the operations is monotone

    The Standard Library specifies the operations on doubles by
    [SpecFloat]: a sum or a product is computed exactly on mantissas and
    exponents and handed to [binary_round_aux], which shifts the mantissa
    to the exponent of the format and rounds to nearest, ties to even.
    This part shows what that amounts to on values: the result is the
    exact value rounded by [rnd_pos], a function that is monotone and
    leaves the numbers of the format alone.  The laws of [NumMonotone] on
    doubles follow. *)

Section FloatFacts.
Local Open Scope Z_scope.

(** ** Shifting and rounding a mantissa *)

Lemma iter_pos_nat {A} (f : A -> A) p x :
  SpecFloat.iter_pos f p x = Nat.iter (Pos.to_nat p) f x.
Proof.
  revert x. induction p as [p IH|p IH|]; intros x; cbn [SpecFloat.iter_pos].
  - rewrite !IH. rewrite Pos2Nat.inj_xI.
    replace (S (2 * Pos.to_nat p))%nat with (Pos.to_nat p + S (Pos.to_nat p))%nat by lia.
    rewrite Nat.iter_add. f_equal. rewrite Nat.iter_succ_r. reflexivity.
  - rewrite !IH. rewrite Pos2Nat.inj_xO.
    replace (2 * Pos.to_nat p)%nat with (Pos.to_nat p + Pos.to_nat p)%nat by lia.
    rewrite Nat.iter_add. reflexivity.
  - reflexivity.
Qed.

Lemma shr_1_nonneg m r s :
  0 <= m ->
  shr_1 {| shr_m := m; shr_r := r; shr_s := s |}
  = {| shr_m := m / 2; shr_r := Z.odd m; shr_s := r || s |}.
Proof.
  intros Hm. unfold shr_1.
  destruct m as [|[p|p|]|p]; try lia; try reflexivity.
  - f_equal. rewrite Pos2Z.inj_xI.
    apply Z.div_unique with 1; lia.
  - f_equal. rewrite Pos2Z.inj_xO.
    apply Z.div_unique with 0; lia.
Qed.

(** [n] steps of [shr_1] from an exact record. *)
Lemma shr_iter_spec M (n : nat) :
  0 <= M ->
  exists m r s lam,
    Nat.iter (S n) shr_1 {| shr_m := M; shr_r := false; shr_s := false |}
    = {| shr_m := m; shr_r := r; shr_s := s |}
    /\ 0 <= m
    /\ 0 <= lam < 2 ^ Z.of_nat n
    /\ M = m * 2 ^ Z.of_nat (S n) + Z.b2z r * 2 ^ Z.of_nat n + lam
    /\ (s = true <-> lam <> 0).
Proof.
  intros HM. induction n as [|n IH].
  - cbn [Nat.iter]. rewrite shr_1_nonneg by done.
    exists (M / 2), (Z.odd M), false, 0. cbn [orb].
    repeat split; try lia; try discriminate.
    + apply Z.div_pos; lia.
    + change (2 ^ Z.of_nat 1) with 2. change (2 ^ Z.of_nat 0) with 1.
      pose proof (Z.div_mod M 2 ltac:(lia)) as H.
      rewrite Zmod_odd in H. destruct (Z.odd M); cbn [Z.b2z]; lia.
  - destruct IH as (m & r & s & lam & Hit & Hm & Hlam & HM' & Hs).
    rewrite Nat.iter_succ, Hit. rewrite shr_1_nonneg by done.
    exists (m / 2), (Z.odd m), (r || s), (Z.b2z r * 2 ^ Z.of_nat n + lam).
    split; [reflexivity|].
    assert (H2n : 2 ^ Z.of_nat (S n) = 2 * 2 ^ Z.of_nat n).
    { rewrite Nat2Z.inj_succ, Z.pow_succ_r by lia. reflexivity. }
    assert (H2n' : 2 ^ Z.of_nat (S (S n)) = 2 * 2 ^ Z.of_nat (S n)).
    { rewrite (Nat2Z.inj_succ (S n)), Z.pow_succ_r by lia. reflexivity. }
    assert (Hpos : 0 < 2 ^ Z.of_nat n) by (apply Z.pow_pos_nonneg; lia).
    split; [apply Z.div_pos; lia|].
    split; [destruct r; cbn [Z.b2z]; lia|].
    split.
    + pose proof (Z.div_mod m 2 ltac:(lia)) as H.
      rewrite Zmod_odd in H. rewrite H2n', H2n.
      destruct (Z.odd m), r; cbn [Z.b2z] in *; nia.
    + destruct r; cbn [orb Z.b2z].
      * split; [lia|done].
      * rewrite Hs. split; lia.
Qed.

(** What [shr] and [round_nearest_even] compute together. *)
Lemma shr_round_spec M e p :
  0 <= M ->
  let '(mrs, e') := shr {| shr_m := M; shr_r := false; shr_s := false |} e (Zpos p) in
  round_nearest_even (shr_m mrs) (loc_of_shr_record mrs) = RNE M (Zpos p)
  /\ e' = e + Zpos p.
Proof.
  intros HM. cbn [shr]. split; [|reflexivity].
  rewrite iter_pos_nat.
  destruct (Pos2Nat.is_succ p) as (n & Hn). rewrite Hn.
  destruct (shr_iter_spec M n HM) as (m & r & s & lam & -> & Hm & Hlam & HM' & Hs).
  assert (Hp : Zpos p = Z.of_nat (S n)) by lia.
  rewrite Hp. unfold RNE.
  assert (H2n : 2 ^ Z.of_nat (S n) = 2 * 2 ^ Z.of_nat n).
  { rewrite Nat2Z.inj_succ, Z.pow_succ_r by lia. reflexivity. }
  assert (Hpos : 0 < 2 ^ Z.of_nat n) by (apply Z.pow_pos_nonneg; lia).
  assert (Hq : M / 2 ^ Z.of_nat (S n) = m).
  { symmetry. apply Z.div_unique with (Z.b2z r * 2 ^ Z.of_nat n + lam);
      [destruct r; cbn [Z.b2z]; lia | lia]. }
  assert (Hr : M mod 2 ^ Z.of_nat (S n) = Z.b2z r * 2 ^ Z.of_nat n + lam).
  { symmetry. apply Z.mod_unique with m;
      [destruct r; cbn [Z.b2z]; lia | lia]. }
  rewrite Hq, Hr. cbn [shr_m loc_of_shr_record].
  destruct r, s; cbn [Z.b2z round_nearest_even].
  - assert (lam <> 0) by (by apply Hs).
    destruct (Z.ltb_spec (2 * (1 * 2 ^ Z.of_nat n + lam)) (2 ^ Z.of_nat (S n))); [lia|].
    destruct (Z.eqb_spec (2 * (1 * 2 ^ Z.of_nat n + lam)) (2 ^ Z.of_nat (S n))); [lia|].
    reflexivity.
  - assert (lam = 0).
    { destruct (Z.eq_dec lam 0); [done|]. by apply Hs in n0. }
    subst lam.
    destruct (Z.ltb_spec (2 * (1 * 2 ^ Z.of_nat n + 0)) (2 ^ Z.of_nat (S n))); [lia|].
    destruct (Z.eqb_spec (2 * (1 * 2 ^ Z.of_nat n + 0)) (2 ^ Z.of_nat (S n))); [|lia].
    reflexivity.
  - destruct (Z.ltb_spec (2 * (0 * 2 ^ Z.of_nat n + lam)) (2 ^ Z.of_nat (S n))); [|lia].
    reflexivity.
  - destruct (Z.ltb_spec (2 * (0 * 2 ^ Z.of_nat n + lam)) (2 ^ Z.of_nat (S n))); [|lia].
    reflexivity.
Qed.
Lemma RNE_bounds M n : 0 <= n -> M / 2 ^ n <= RNE M n <= M / 2 ^ n + 1.
Proof.
  intros Hn. unfold RNE.
  destruct (2 * (M mod 2 ^ n) <? 2 ^ n); [lia|].
  destruct (2 * (M mod 2 ^ n) =? 2 ^ n); [|lia].
  destruct (Z.even (M / 2 ^ n)); lia.
Qed.

Lemma RNE_mono M M' n : 0 <= n -> M <= M' -> RNE M n <= RNE M' n.
Proof.
  intros Hn HM.
  assert (Hpos : 0 < 2 ^ n) by (apply Z.pow_pos_nonneg; lia).
  pose proof (Z.div_le_mono M M' (2 ^ n) Hpos HM) as Hq.
  destruct (Z.eq_dec (M / 2 ^ n) (M' / 2 ^ n)) as [Heq|Hne].
  - pose proof (Z.div_mod M (2 ^ n) ltac:(lia)) as H1.
    pose proof (Z.div_mod M' (2 ^ n) ltac:(lia)) as H2.
    assert (Hr : M mod 2 ^ n <= M' mod 2 ^ n) by (rewrite Heq in H1; nia).
    unfold RNE. rewrite Heq.
    destruct (Z.ltb_spec (2 * (M mod 2 ^ n)) (2 ^ n)),
             (Z.ltb_spec (2 * (M' mod 2 ^ n)) (2 ^ n)); try lia.
    + destruct (2 * (M' mod 2 ^ n) =? 2 ^ n); [|lia].
      destruct (Z.even (M' / 2 ^ n)); lia.
    + destruct (Z.eqb_spec (2 * (M mod 2 ^ n)) (2 ^ n)),
               (Z.eqb_spec (2 * (M' mod 2 ^ n)) (2 ^ n)); try lia.
      destruct (Z.even (M' / 2 ^ n)); lia.
  - pose proof (RNE_bounds M n Hn). pose proof (RNE_bounds M' n Hn). lia.
Qed.

Lemma RNE_exact a n : 0 <= n -> RNE (a * 2 ^ n) n = a.
Proof.
  intros Hn. unfold RNE.
  assert (Hpos : 0 < 2 ^ n) by (apply Z.pow_pos_nonneg; lia).
  rewrite Z.div_mul, Z.mod_mul by lia.
  destruct (Z.ltb_spec (2 * 0) (2 ^ n)); [reflexivity | lia].
Qed.

Lemma RNE_0 M : RNE M 0 = M.
Proof. rewrite <- (Z.mul_1_r M) at 1. apply (RNE_exact M 0). lia. Qed.

Lemma RNE_scale M n j : 0 <= n -> 0 <= j -> RNE (M * 2 ^ j) (n + j) = RNE M n.
Proof.
  intros Hn Hj. unfold RNE.
  assert (Hn' : 0 < 2 ^ n) by (apply Z.pow_pos_nonneg; lia).
  assert (Hj' : 0 < 2 ^ j) by (apply Z.pow_pos_nonneg; lia).
  rewrite Z.pow_add_r by lia.
  rewrite Z.div_mul_cancel_r, Z.mul_mod_distr_r by lia.
  replace (2 * (M mod 2 ^ n * 2 ^ j)) with (2 * (M mod 2 ^ n) * 2 ^ j) by ring.
  destruct (Z.ltb_spec (2 * (M mod 2 ^ n)) (2 ^ n)),
           (Z.ltb_spec (2 * (M mod 2 ^ n) * 2 ^ j) (2 ^ n * 2 ^ j)); try nia.
  destruct (Z.eqb_spec (2 * (M mod 2 ^ n)) (2 ^ n)),
           (Z.eqb_spec (2 * (M mod 2 ^ n) * 2 ^ j) (2 ^ n * 2 ^ j)); nia.
Qed.

Lemma RNE_nonneg M n : 0 <= n -> 0 <= M -> 0 <= RNE M n.
Proof.
  intros Hn HM. pose proof (RNE_bounds M n Hn).
  assert (0 <= M / 2 ^ n); [|lia].
  apply Z.div_pos; [lia|]. apply Z.pow_pos_nonneg; lia.
Qed.

(** ** Digits *)

Lemma digits2_pos_log2 p : Zpos (digits2_pos p) = Z.log2 (Zpos p) + 1.
Proof.
  induction p as [p IH|p IH|]; cbn [digits2_pos].
  - rewrite Pos2Z.inj_succ, IH. rewrite Pos2Z.inj_xI.
    rewrite Z.log2_succ_double by lia. lia.
  - rewrite Pos2Z.inj_succ, IH. rewrite Pos2Z.inj_xO.
    rewrite Z.log2_double by lia. lia.
  - reflexivity.
Qed.

Lemma log2_bounds N : 0 < N -> 2 ^ Z.log2 N <= N < 2 ^ (Z.log2 N + 1).
Proof. intros HN. apply (Z.log2_spec N HN). Qed.

(** ** Rounding to the format *)

Section Rounding.
Variables prec emax : Z.
Hypothesis Hprec : 0 < prec.
Hypothesis Hemax : 2 <= emax.

Local Abbreviation eminv := (SpecFloat.emin prec emax).
Local Abbreviation fexpv := (SpecFloat.fexp prec emax).

Lemma pow2_pos a : 0 <= a -> 0 < 2 ^ a.
Proof. intros. apply Z.pow_pos_nonneg; lia. Qed.

Lemma pow2_le a b : a <= b -> 2 ^ a <= 2 ^ b.
Proof. intros. apply Z.pow_le_mono_r; lia. Qed.

Lemma pow2_split a b : 0 <= a -> 0 <= b -> 2 ^ (a + b) = 2 ^ a * 2 ^ b.
Proof. intros. apply Z.pow_add_r; lia. Qed.

Lemma canonical_iff m e :
  canonical_mantissa prec emax m e = true
  <-> fexpv (Z.log2 (Zpos m) + 1 + e) = e.
Proof.
  unfold canonical_mantissa. rewrite digits2_pos_log2. apply Z.eqb_eq.
Qed.

(** The second normalisation of [binary_round_aux]: the rounded mantissa
    [q], at most [2 ^ prec], comes out canonical, with its value kept. *)
Lemma renorm q E :
  0 < q <= 2 ^ prec -> eminv <= E ->
  (eminv < E -> 2 ^ (prec - 1) <= q) ->
  exists m' e',
    shr_fexp prec emax q E loc_Exact
    = ({| shr_m := Zpos m'; shr_r := false; shr_s := false |}, e')
    /\ Zpos m' * 2 ^ (e' - eminv) = q * 2 ^ (E - eminv)
    /\ canonical_mantissa prec emax m' e' = true
    /\ eminv <= e'.
Proof.
  intros [Hq0 Hq] HE Hnorm.
  destruct q as [|q|q]; try lia.
  unfold shr_fexp. cbn [Zdigits2 shr_record_of_loc].
  rewrite digits2_pos_log2.
  pose proof (log2_bounds (Zpos q) ltac:(lia)) as [Hlo Hhi].
  pose proof (Z.log2_nonneg (Zpos q)) as Hl0.
  destruct (Z.eq_dec (Zpos q) (2 ^ prec)) as [Heq|Hne].
  - (* the rounding carried into a new digit *)
    assert (Hlog : Z.log2 (Zpos q) = prec).
    { rewrite Heq. apply Z.log2_pow2. lia. }
    rewrite Hlog.
    assert (Hn : fexpv (prec + 1 + E) - E = 1).
    { unfold SpecFloat.fexp, SpecFloat.emin in *. lia. }
    rewrite Hn. cbn [shr SpecFloat.iter_pos].
    rewrite shr_1_nonneg by lia. cbn [orb].
    assert (Hhalf : Zpos q / 2 = 2 ^ (prec - 1)).
    { rewrite Heq. replace prec with (prec - 1 + 1) at 1 by lia.
      rewrite pow2_split by lia. change (2 ^ 1) with 2.
      apply Z.div_mul. lia. }
    assert (Hodd : Z.odd (Zpos q) = false).
    { rewrite Heq. replace prec with (prec - 1 + 1) by lia.
      rewrite pow2_split by lia. change (2 ^ 1) with 2.
      rewrite Z.mul_comm. apply Z.odd_mul. }
    rewrite Hhalf, Hodd.
    pose proof (pow2_pos (prec - 1) ltac:(lia)) as Hp.
    destruct (2 ^ (prec - 1)) as [|m'|] eqn:Hm'; try lia.
    exists m', (E + 1). split; [reflexivity|].
    split; [|split].
    + rewrite Heq. replace (E + 1 - eminv) with (1 + (E - eminv)) by lia.
      rewrite pow2_split by lia. change (2 ^ 1) with 2.
      replace prec with (prec - 1 + 1) at 2 by lia.
      rewrite pow2_split by lia. change (2 ^ 1) with 2. lia.
    + apply canonical_iff. rewrite <- Hm', Z.log2_pow2 by lia.
      unfold SpecFloat.fexp, SpecFloat.emin in *. lia.
    + lia.
  - assert (Hlt : Zpos q < 2 ^ prec) by lia.
    assert (Hlog : Z.log2 (Zpos q) < prec).
    { apply Z.log2_lt_pow2; lia. }
    assert (Hn : fexpv (Z.log2 (Zpos q) + 1 + E) - E <= 0).
    { unfold SpecFloat.fexp, SpecFloat.emin in *. lia. }
    exists q, E.
    split.
    { destruct (fexpv (Z.log2 (Zpos q) + 1 + E) - E); try lia; reflexivity. }
    split; [reflexivity|]. split; [|lia].
    apply canonical_iff.
    destruct (Z.eq_dec E eminv) as [->|HE'].
    + unfold SpecFloat.fexp, SpecFloat.emin in *. lia.
    + assert (Hge : prec - 1 <= Z.log2 (Zpos q)).
      { apply Z.log2_le_pow2; [lia|]. apply Hnorm. lia. }
      unfold SpecFloat.fexp, SpecFloat.emin in *. lia.
Qed.

Lemma canonical_digits m e :
  canonical_mantissa prec emax m e = true ->
  eminv <= e /\ Z.log2 (Zpos m) + 1 <= prec
  /\ (eminv < e -> Z.log2 (Zpos m) + 1 = prec).
Proof.
  intros Hc. apply canonical_iff in Hc.
  unfold SpecFloat.fexp, SpecFloat.emin in *. lia.
Qed.

Lemma canonical_overflow m e :
  canonical_mantissa prec emax m e = true -> emax - prec < e ->
  2 ^ (emax - eminv) <= Zpos m * 2 ^ (e - eminv).
Proof.
  intros Hc He. destruct (canonical_digits m e Hc) as (Hmin & _ & Hnorm).
  assert (Hlt : eminv < e) by (unfold SpecFloat.emin in *; lia).
  specialize (Hnorm Hlt).
  pose proof (log2_bounds (Zpos m) ltac:(lia)) as [Hlo _].
  replace (Z.log2 (Zpos m)) with (prec - 1) in Hlo by lia.
  pose proof (pow2_pos (e - eminv) ltac:(lia)) as Hp.
  apply Z.le_trans with (2 ^ (prec - 1) * 2 ^ (e - eminv)); [|nia].
  rewrite <- pow2_split by lia. apply pow2_le. lia.
Qed.

Lemma canonical_bound m e :
  canonical_mantissa prec emax m e = true -> e <= emax - prec ->
  Zpos m * 2 ^ (e - eminv) < 2 ^ (emax - eminv).
Proof.
  intros Hc He. destruct (canonical_digits m e Hc) as (Hmin & Hd & _).
  pose proof (log2_bounds (Zpos m) ltac:(lia)) as [_ Hhi].
  pose proof (Z.log2_nonneg (Zpos m)) as Hl0.
  pose proof (pow2_pos (e - eminv) ltac:(lia)) as Hp.
  apply Z.lt_le_trans with (2 ^ (Z.log2 (Zpos m) + 1) * 2 ^ (e - eminv)); [nia|].
  rewrite <- pow2_split by lia. apply pow2_le. lia.
Qed.

Lemma RNE_half n : 0 < n -> RNE (2 ^ (n - 1)) n = 0.
Proof.
  intros Hn. unfold RNE.
  assert (H2 : 2 ^ n = 2 * 2 ^ (n - 1)).
  { replace n with (1 + (n - 1)) at 1 by lia. rewrite pow2_split by lia.
    reflexivity. }
  pose proof (pow2_pos (n - 1) ltac:(lia)) as Hp.
  rewrite Z.div_small, Z.mod_small by lia.
  destruct (Z.ltb_spec (2 * 2 ^ (n - 1)) (2 ^ n)); [lia|].
  destruct (Z.eqb_spec (2 * 2 ^ (n - 1)) (2 ^ n)); [reflexivity | lia].
Qed.

(** The first stage of [binary_round_aux], from an exact mantissa. *)
Lemma first_stage m e :
  e <= fexpv (Z.log2 (Zpos m) + 1 + e) ->
  exists mrs,
    shr_fexp prec emax (Zpos m) e loc_Exact
    = (mrs, fexpv (Z.log2 (Zpos m) + 1 + e))
    /\ round_nearest_even (shr_m mrs) (loc_of_shr_record mrs)
       = RNE (Zpos m) (fexpv (Z.log2 (Zpos m) + 1 + e) - e).
Proof.
  intros Hn. unfold shr_fexp. cbn [Zdigits2 shr_record_of_loc].
  rewrite digits2_pos_log2.
  destruct (fexpv (Z.log2 (Zpos m) + 1 + e) - e) as [|p|p] eqn:Hp; try lia.
  - eexists. split.
    + cbn [shr]. f_equal. lia.
    + cbn [shr_m loc_of_shr_record round_nearest_even]. by rewrite RNE_0.
  - pose proof (shr_round_spec (Zpos m) e p ltac:(lia)) as H.
    destruct (shr _ e (Zpos p)) as [mrs e'] eqn:Hshr.
    destruct H as [Hq ->]. exists mrs. split; [f_equal; lia | exact Hq].
Qed.

(** The mantissa that comes out of the first stage. *)
Lemma rounded_mantissa m e :
  e <= fexpv (Z.log2 (Zpos m) + 1 + e) ->
  let E := fexpv (Z.log2 (Zpos m) + 1 + e) in
  let q := RNE (Zpos m) (E - e) in
  0 <= q <= 2 ^ prec /\ (eminv < E -> 2 ^ (prec - 1) <= q).
Proof.
  intros Hn E q.
  pose proof (log2_bounds (Zpos m) ltac:(lia)) as [Hlo Hhi].
  pose proof (Z.log2_nonneg (Zpos m)) as Hl0.
  set (l := Z.log2 (Zpos m)) in *.
  assert (HE : E = Z.max (l + 1 + e - prec) eminv) by reflexivity.
  split; [split|].
  - apply RNE_nonneg; lia.
  - destruct (Z.le_gt_cases (E - e) (l + 1)) as [Hle|Hgt].
    + apply Z.le_trans with (RNE (2 ^ (l + 1 - (E - e)) * 2 ^ (E - e)) (E - e)).
      * apply RNE_mono; [lia|]. rewrite <- pow2_split by lia.
        replace (l + 1 - (E - e) + (E - e)) with (l + 1) by lia. lia.
      * rewrite RNE_exact by lia. apply pow2_le. lia.
    + apply Z.le_trans with (RNE (2 ^ (E - e - 1)) (E - e)).
      * apply RNE_mono; [lia|].
        apply Z.le_trans with (2 ^ (l + 1)); [lia|]. apply pow2_le. lia.
      * rewrite RNE_half by lia. apply Z.lt_le_incl, pow2_pos. lia.
  - intros Hmin.
    assert (Hn' : E - e = l + 1 - prec) by lia.
    apply Z.le_trans with (RNE (2 ^ (prec - 1) * 2 ^ (E - e)) (E - e)).
    + rewrite RNE_exact by lia. lia.
    + apply RNE_mono; [lia|]. rewrite <- pow2_split by lia.
      replace (prec - 1 + (E - e)) with l by lia. lia.
Qed.

(** [binary_round_aux] on an exact mantissa that is not more precise than
    the format: its result holds [rnd_pos] of the value. *)
Lemma binary_round_aux_spec s m e j :
  0 <= j -> eminv - j <= e -> e <= fexpv (Z.log2 (Zpos m) + 1 + e) ->
  let N := Zpos m * 2 ^ (e - eminv + j) in
  match binary_round_aux prec emax s (Zpos m) e loc_Exact with
  | S754_zero s' => s' = s /\ rnd_pos prec emax j N = 0
  | S754_finite s' m' e' =>
      s' = s /\ Zpos m' * 2 ^ (e' - eminv) = rnd_pos prec emax j N
      /\ canonical_mantissa prec emax m' e' = true /\ e' <= emax - prec
  | S754_infinity s' => s' = s /\ 2 ^ (emax - eminv) <= rnd_pos prec emax j N
  | S754_nan => False
  end.
Proof.
  intros Hj He Hn N.
  pose proof (Z.log2_nonneg (Zpos m)) as Hl0.
  set (E := fexpv (Z.log2 (Zpos m) + 1 + e)) in *.
  assert (HEmin : eminv <= E) by (unfold E, SpecFloat.fexp; lia).
  assert (Hrnd : rnd_pos prec emax j N = RNE (Zpos m) (E - e) * 2 ^ (E - eminv)).
  { unfold rnd_pos, rexp, N.
    rewrite Z.log2_mul_pow2 by lia.
    replace (e - eminv + j + Z.log2 (Zpos m) + 1 + eminv - j)
      with (Z.log2 (Zpos m) + 1 + e) by lia.
    fold E.
    replace (E - eminv + j) with (E - e + (e - eminv + j)) by lia.
    rewrite RNE_scale by lia. reflexivity. }
  destruct (rounded_mantissa m e Hn) as [[Hq0 Hq] Hnorm]. fold E in Hq0, Hq, Hnorm.
  destruct (first_stage m e Hn) as (mrs & Hfirst & Hround). fold E in Hfirst, Hround.
  unfold binary_round_aux. rewrite Hfirst, Hround.
  set (q := RNE (Zpos m) (E - e)) in *.
  destruct (Z.eq_dec q 0) as [Hz|Hnz].
  - rewrite Hz. unfold shr_fexp. cbn [Zdigits2 shr_record_of_loc].
    assert (Hno : fexpv (0 + E) - E <= 0) by (unfold SpecFloat.fexp; lia).
    destruct (fexpv (0 + E) - E) eqn:Hd; try lia; cbn [shr shr_m];
      (split; [reflexivity|]); rewrite Hrnd, Hz; reflexivity.
  - destruct (renorm q E ltac:(lia) HEmin Hnorm) as (m' & e' & -> & Hval & Hcan & He').
    cbn [shr_m]. destruct (Z.leb_spec e' (emax - prec)).
    + rewrite Hrnd, <- Hval. done.
    + split; [reflexivity|]. rewrite Hrnd, <- Hval.
      by apply canonical_overflow.
Qed.

Lemma rnd_pos_nonneg j N : 0 <= j -> 0 < N -> 0 <= rnd_pos prec emax j N.
Proof.
  intros Hj HN. unfold rnd_pos.
  assert (HE : eminv <= rexp prec emax j N)
    by (unfold rexp, SpecFloat.fexp; lia).
  apply Z.mul_nonneg_nonneg.
  - apply RNE_nonneg; lia.
  - apply Z.lt_le_incl, pow2_pos. lia.
Qed.

(** Rounding is monotone. *)
Lemma rnd_pos_mono j N N' :
  0 <= j -> 0 < N <= N' -> rnd_pos prec emax j N <= rnd_pos prec emax j N'.
Proof.
  intros Hj [HN HNN'].
  pose proof (Z.log2_le_mono N N' HNN') as Hl.
  pose proof (Z.log2_nonneg N) as Hl0.
  pose proof (log2_bounds N HN) as [Hlo Hhi].
  pose proof (log2_bounds N' ltac:(lia)) as [Hlo' Hhi'].
  unfold rnd_pos, rexp.
  set (l := Z.log2 N) in *. set (l' := Z.log2 N') in *.
  set (E := fexpv (l + 1 + eminv - j)).
  set (E' := fexpv (l' + 1 + eminv - j)).
  assert (HE : eminv <= E) by (unfold E, SpecFloat.fexp; lia).
  assert (HEE' : E <= E') by (unfold E, E', SpecFloat.fexp; lia).
  pose proof (pow2_pos (E - eminv) ltac:(lia)) as Hp.
  destruct (Z.eq_dec E E') as [<-|Hne].
  - apply Z.mul_le_mono_nonneg_r; [lia|]. apply RNE_mono; lia.
  - assert (HE' : E' = l' + 1 + eminv - j - prec)
      by (unfold E, E', SpecFloat.fexp in *; lia).
    assert (Hll' : l < l') by (unfold E, E', SpecFloat.fexp in *; lia).
    pose proof (pow2_pos (E' - eminv) ltac:(lia)) as Hp'.
    apply Z.le_trans with (2 ^ (l' - (E - eminv + j)) * 2 ^ (E - eminv)).
    + apply Z.mul_le_mono_nonneg_r; [lia|].
      rewrite <- (RNE_exact (2 ^ (l' - (E - eminv + j))) (E - eminv + j)) by lia.
      apply RNE_mono; [lia|].
      rewrite <- pow2_split by lia.
      replace (l' - (E - eminv + j) + (E - eminv + j)) with l' by lia.
      apply Z.le_trans with (2 ^ (l + 1)); [lia|]. apply pow2_le. lia.
    + apply Z.le_trans with (2 ^ (l' - (E' - eminv + j)) * 2 ^ (E' - eminv)).
      * rewrite <- !pow2_split by lia. apply pow2_le. lia.
      * apply Z.mul_le_mono_nonneg_r; [lia|].
        rewrite <- (RNE_exact (2 ^ (l' - (E' - eminv + j))) (E' - eminv + j))
          at 1 by lia.
        apply RNE_mono; [lia|].
        rewrite <- pow2_split by lia.
        replace (l' - (E' - eminv + j) + (E' - eminv + j)) with l' by lia.
        lia.
Qed.

(** A number of the format is its own rounding. *)
Lemma rnd_pos_canonical m e :
  canonical_mantissa prec emax m e = true ->
  rnd_pos prec emax 0 (Zpos m * 2 ^ (e - eminv)) = Zpos m * 2 ^ (e - eminv).
Proof.
  intros Hc. destruct (canonical_digits m e Hc) as (Hmin & _ & _).
  apply canonical_iff in Hc.
  pose proof (Z.log2_nonneg (Zpos m)) as Hl0.
  unfold rnd_pos, rexp. rewrite Z.log2_mul_pow2 by lia.
  replace (e - eminv + Z.log2 (Zpos m) + 1 + eminv - 0)
    with (Z.log2 (Zpos m) + 1 + e) by lia.
  rewrite Hc. rewrite Z.add_0_r. by rewrite RNE_exact by lia.
Qed.

Lemma binary_round_aux_xval s m e j :
  0 <= j -> eminv - j <= e -> e <= fexpv (Z.log2 (Zpos m) + 1 + e) ->
  xval prec emax (binary_round_aux prec emax s (Zpos m) e loc_Exact)
  = Some (xsigned prec emax s
            (rnd_pos prec emax j (Zpos m * 2 ^ (e - eminv + j)))).
Proof.
  intros Hj He Hn.
  pose proof (binary_round_aux_spec s m e j Hj He Hn) as H. cbv zeta in H.
  pose proof (pow2_pos (e - eminv + j) ltac:(lia)) as Hp.
  pose proof (rnd_pos_nonneg j (Zpos m * 2 ^ (e - eminv + j)) Hj ltac:(lia)) as H0.
  assert (Hmax : 0 < 2 ^ (emax - eminv))
    by (apply pow2_pos; unfold SpecFloat.emin; lia).
  destruct (binary_round_aux prec emax s (Zpos m) e loc_Exact)
    as [s'|s'| |s' m' e']; [| | done |].
  - destruct H as [-> Hz]. cbn [xval fval]. rewrite Hz. unfold xsigned.
    destruct (Z.ltb_spec 0 (2 ^ (emax - eminv))); [|lia].
    by destruct s.
  - destruct H as [-> Hinf]. cbn [xval]. unfold xsigned.
    destruct (Z.ltb_spec (rnd_pos prec emax j (Zpos m * 2 ^ (e - eminv + j)))
                (2 ^ (emax - eminv))); [lia|]. reflexivity.
  - destruct H as (-> & Hval & Hcan & Hemax'). cbn [xval fval].
    pose proof (canonical_bound m' e' Hcan Hemax') as Hb.
    rewrite Hval in *. unfold xsigned.
    destruct (Z.ltb_spec (rnd_pos prec emax j (Zpos m * 2 ^ (e - eminv + j)))
                (2 ^ (emax - eminv))); [reflexivity | lia].
Qed.

Lemma iter_xO m d : Zpos (Pos.iter xO m d) = Zpos m * 2 ^ Zpos d.
Proof.
  induction d as [|d IH] using Pos.peano_ind.
  - cbn [Pos.iter]. change (2 ^ 1) with 2. lia.
  - rewrite Pos.iter_succ, Pos2Z.inj_xO, IH, Pos2Z.inj_succ.
    rewrite Z.pow_succ_r by lia. ring.
Qed.

Lemma shl_align_spec m e e' :
  shl_align m e e' = (fst (shl_align m e e'), Z.min e e')
  /\ Zpos (fst (shl_align m e e')) = Zpos m * 2 ^ (e - Z.min e e').
Proof.
  unfold shl_align. destruct (e' - e) as [|d|d] eqn:Hd; cbn [fst].
  - replace (Z.min e e') with e by lia. rewrite Z.sub_diag. split; [done|lia].
  - replace (Z.min e e') with e by lia. rewrite Z.sub_diag. split; [done|lia].
  - replace (Z.min e e') with e' by lia.
    split; [done|]. rewrite iter_xO. f_equal. f_equal. lia.
Qed.

Lemma binary_round_xval s m e j :
  0 <= j -> eminv - j <= e ->
  xval prec emax (binary_round prec emax s m e)
  = Some (xsigned prec emax s
            (rnd_pos prec emax j (Zpos m * 2 ^ (e - eminv + j)))).
Proof.
  intros Hj He. unfold binary_round. rewrite digits2_pos_log2.
  set (E := fexpv (Z.log2 (Zpos m) + 1 + e)).
  assert (HE : eminv <= E) by (unfold E, SpecFloat.fexp; lia).
  pose proof (shl_align_spec m e E) as [Hsh Hm].
  destruct (shl_align m e E) as [mz ez]. cbn [fst] in Hsh, Hm.
  injection Hsh as ->.
  pose proof (Z.log2_nonneg (Zpos m)) as Hl0.
  assert (Hlog : Z.log2 (Zpos mz) + 1 + Z.min e E = Z.log2 (Zpos m) + 1 + e).
  { rewrite Hm, Z.log2_mul_pow2 by lia. lia. }
  rewrite (binary_round_aux_xval s mz (Z.min e E) j); try lia.
  - do 3 f_equal. rewrite Hm, <- Z.mul_assoc, <- pow2_split by lia.
    do 2 f_equal. lia.
  - rewrite Hlog. fold E. lia.
Qed.

Lemma xrnd_pos j N :
  0 < N -> xrnd prec emax j N = xsigned prec emax false (rnd_pos prec emax j N).
Proof. intros HN. destruct N; try lia. reflexivity. Qed.

Lemma xrnd_neg j N :
  N < 0 -> xrnd prec emax j N = xsigned prec emax true (rnd_pos prec emax j (- N)).
Proof. intros HN. destruct N; try lia. reflexivity. Qed.

Lemma binary_normalize_xval M e j sz :
  0 <= j -> eminv - j <= e ->
  xval prec emax (binary_normalize prec emax M e sz)
  = Some (xrnd prec emax j (M * 2 ^ (e - eminv + j))).
Proof.
  intros Hj He.
  pose proof (pow2_pos (e - eminv + j) ltac:(lia)) as Hp.
  destruct M as [|m|m]; cbn [binary_normalize].
  - reflexivity.
  - rewrite (binary_round_xval _ _ _ j) by lia. by rewrite xrnd_pos by lia.
  - rewrite (binary_round_xval _ _ _ j) by lia. rewrite xrnd_neg by lia.
    do 3 f_equal. lia.
Qed.

Lemma xleb_refl a : xleb a a = true.
Proof. destruct a; cbn; try done. apply Z.leb_refl. Qed.

Lemma xsigned_false_nonneg v : 0 <= v -> xleb (Fin 0) (xsigned prec emax false v) = true.
Proof.
  intros Hv. unfold xsigned. destruct (_ <? _); cbn; [|done].
  by apply Z.leb_le.
Qed.

Lemma xsigned_true_nonpos v : 0 <= v -> xleb (xsigned prec emax true v) (Fin 0) = true.
Proof.
  intros Hv. unfold xsigned. destruct (_ <? _); cbn; [|done].
  apply Z.leb_le. lia.
Qed.

Lemma xleb_trans a b c : xleb a b = true -> xleb b c = true -> xleb a c = true.
Proof.
  destruct a, b, c; cbn; try done. rewrite !Z.leb_le. lia.
Qed.

(** Rounding is monotone, the infinities included. *)
Lemma xrnd_mono j N N' :
  0 <= j -> N <= N' -> xleb (xrnd prec emax j N) (xrnd prec emax j N') = true.
Proof.
  intros Hj HNN'.
  destruct (Z.lt_trichotomy N 0) as [HN|[->|HN]];
    destruct (Z.lt_trichotomy N' 0) as [HN'|[->|HN']]; try lia.
  - rewrite !xrnd_neg by done.
    pose proof (rnd_pos_mono j (- N') (- N) Hj ltac:(lia)) as Hm.
    unfold xsigned.
    destruct (Z.ltb_spec (rnd_pos prec emax j (- N)) (2 ^ (emax - eminv))),
             (Z.ltb_spec (rnd_pos prec emax j (- N')) (2 ^ (emax - eminv)));
      cbn; try done; try lia; apply Z.leb_le; lia.
  - rewrite (xrnd_neg j N) by done. apply xsigned_true_nonpos.
    apply rnd_pos_nonneg; lia.
  - rewrite xrnd_neg, xrnd_pos by done.
    eapply xleb_trans; [apply xsigned_true_nonpos | apply xsigned_false_nonneg];
      apply rnd_pos_nonneg; lia.
  - apply xleb_refl.
  - rewrite (xrnd_pos j N') by done. apply xsigned_false_nonneg.
    apply rnd_pos_nonneg; lia.
  - rewrite !xrnd_pos by done.
    pose proof (rnd_pos_mono j N N' Hj ltac:(lia)) as Hm.
    unfold xsigned.
    destruct (Z.ltb_spec (rnd_pos prec emax j N) (2 ^ (emax - eminv))),
             (Z.ltb_spec (rnd_pos prec emax j N') (2 ^ (emax - eminv)));
      cbn; try done; try lia; apply Z.leb_le; lia.
Qed.

(** A valid float that is not an infinity or NaN is the rounding of its
    value. *)
Lemma xrnd_valid x :
  SpecFloat.valid_binary prec emax x = true ->
  match x with S754_nan | S754_infinity _ => True
  | _ => xrnd prec emax 0 (fval prec emax x) = Fin (fval prec emax x) end.
Proof.
  intros Hv. destruct x as [s|s| |s m e]; try done.
  cbn [SpecFloat.valid_binary] in Hv. unfold bounded in Hv.
  apply andb_true_iff in Hv as [Hc He]. apply Z.leb_le in He.
  destruct (canonical_digits m e Hc) as (Hmin & _ & _).
  pose proof (pow2_pos (e - eminv) ltac:(lia)) as Hp.
  pose proof (canonical_bound m e Hc He) as Hb.
  pose proof (rnd_pos_canonical m e Hc) as Hid.
  cbn [fval]. destruct s; cbn [cond_Zopp].
  - rewrite xrnd_neg by lia. rewrite Z.opp_involutive, Hid.
    unfold xsigned. destruct (Z.ltb_spec (Zpos m * 2 ^ (e - eminv))
                                (2 ^ (emax - eminv))); [reflexivity | lia].
  - rewrite xrnd_pos by lia. rewrite Hid.
    unfold xsigned. destruct (Z.ltb_spec (Zpos m * 2 ^ (e - eminv))
                                (2 ^ (emax - eminv))); [reflexivity | lia].
Qed.

(** ** Comparison *)

Lemma canonical_compare m1 e1 m2 e2 :
  canonical_mantissa prec emax m1 e1 = true ->
  canonical_mantissa prec emax m2 e2 = true ->
  match Z.compare e1 e2 with
  | Lt => Lt
  | Gt => Gt
  | Eq => Pos.compare_cont Eq m1 m2
  end
  = Z.compare (Zpos m1 * 2 ^ (e1 - eminv)) (Zpos m2 * 2 ^ (e2 - eminv)).
Proof.
  intros H1 H2.
  destruct (canonical_digits m1 e1 H1) as (Hmin1 & Hd1 & Hn1).
  destruct (canonical_digits m2 e2 H2) as (Hmin2 & Hd2 & Hn2).
  pose proof (log2_bounds (Zpos m1) ltac:(lia)) as [Hlo1 Hhi1].
  pose proof (log2_bounds (Zpos m2) ltac:(lia)) as [Hlo2 Hhi2].
  pose proof (Z.log2_nonneg (Zpos m1)) as Hl1.
  pose proof (Z.log2_nonneg (Zpos m2)) as Hl2.
  pose proof (pow2_pos (e1 - eminv) ltac:(lia)) as Hp1.
  pose proof (pow2_pos (e2 - eminv) ltac:(lia)) as Hp2.
  assert (Hlt : forall ma ea mb eb,
             eminv <= ea -> ea < eb ->
             Z.log2 (Zpos ma) + 1 <= prec -> Z.log2 (Zpos mb) + 1 = prec ->
             Zpos ma * 2 ^ (ea - eminv) < Zpos mb * 2 ^ (eb - eminv)).
  { intros ma ea mb eb Hea Hab Hda Hdb.
    pose proof (log2_bounds (Zpos ma) ltac:(lia)) as [_ Hhia].
    pose proof (log2_bounds (Zpos mb) ltac:(lia)) as [Hlob _].
    pose proof (Z.log2_nonneg (Zpos ma)) as Hla.
    pose proof (pow2_pos (ea - eminv) ltac:(lia)) as Hpa.
    pose proof (pow2_pos (eb - eminv) ltac:(lia)) as Hpb.
    apply Z.lt_le_trans with (2 ^ (Z.log2 (Zpos ma) + 1) * 2 ^ (ea - eminv));
      [nia|].
    apply Z.le_trans with (2 ^ Z.log2 (Zpos mb) * 2 ^ (eb - eminv)); [|nia].
    rewrite <- !pow2_split by lia. apply pow2_le. lia. }
  destruct (Z.compare_spec e1 e2) as [->|He|He].
  - change (Pos.compare_cont Eq m1 m2) with (Zpos m1 ?= Zpos m2).
    apply Zmult_compare_compat_r. lia.
  - symmetry. apply Z.compare_lt_iff. apply Hlt; lia.
  - symmetry. apply Z.compare_gt_iff. apply Hlt; lia.
Qed.

Lemma fval_finite_pos m e :
  eminv <= e -> 0 < Zpos m * 2 ^ (e - eminv).
Proof. intros He. pose proof (pow2_pos (e - eminv) ltac:(lia)). lia. Qed.

Lemma valid_finite s m e :
  SpecFloat.valid_binary prec emax (S754_finite s m e) = true ->
  canonical_mantissa prec emax m e = true /\ e <= emax - prec /\ eminv <= e.
Proof.
  cbn [SpecFloat.valid_binary]. unfold bounded. intros Hv.
  apply andb_true_iff in Hv as [Hc He]. apply Z.leb_le in He.
  destruct (canonical_digits m e Hc) as (Hmin & _ & _). done.
Qed.

(** On valid floats [SFltb] compares values. *)
Lemma SFltb_xval a b :
  SpecFloat.valid_binary prec emax a = true ->
  SpecFloat.valid_binary prec emax b = true ->
  SFltb a b = xlt_opt (xval prec emax a) (xval prec emax b).
Proof.
  intros Ha Hb. unfold SFltb.
  destruct a as [sa|sa| |sa ma ea], b as [sb|sb| |sb mb eb];
    cbn [SFcompare xval xlt_opt fval]; try reflexivity;
    unfold xltb, xleb;
    try (destruct sa; reflexivity); try (destruct sb; reflexivity);
    try (destruct sa, sb; reflexivity).
  - destruct (valid_finite _ _ _ Hb) as (Hc & _ & Hmin).
    pose proof (fval_finite_pos mb eb Hmin) as Hp.
    destruct sb; cbn [cond_Zopp].
    + destruct (Z.leb_spec (- (Zpos mb * 2 ^ (eb - eminv))) 0); [reflexivity|lia].
    + destruct (Z.leb_spec (Zpos mb * 2 ^ (eb - eminv)) 0); [lia|reflexivity].
  - destruct (valid_finite _ _ _ Ha) as (Hc & _ & Hmin).
    pose proof (fval_finite_pos ma ea Hmin) as Hp.
    destruct sa; cbn [cond_Zopp].
    + destruct (Z.leb_spec 0 (- (Zpos ma * 2 ^ (ea - eminv)))); [lia|reflexivity].
    + destruct (Z.leb_spec 0 (Zpos ma * 2 ^ (ea - eminv))); [reflexivity|lia].
  - destruct (valid_finite _ _ _ Ha) as (Hca & _ & Hmina).
    destruct (valid_finite _ _ _ Hb) as (Hcb & _ & Hminb).
    pose proof (fval_finite_pos ma ea Hmina) as Hpa.
    pose proof (fval_finite_pos mb eb Hminb) as Hpb.
    pose proof (canonical_compare ma ea mb eb Hca Hcb) as Hcmp.
    destruct sa, sb; cbn [cond_Zopp].
    + replace (match ea ?= eb with
               | Eq => CompOpp (Pos.compare_cont Eq ma mb)
               | Lt => Gt
               | Gt => Lt
               end)
        with (CompOpp (match ea ?= eb with
                       | Eq => Pos.compare_cont Eq ma mb
                       | Lt => Lt
                       | Gt => Gt
                       end)) by (by destruct (ea ?= eb)).
      rewrite Hcmp.
      destruct (Z.compare_spec (Zpos ma * 2 ^ (ea - eminv))
                  (Zpos mb * 2 ^ (eb - eminv))); cbn [CompOpp];
        destruct (Z.leb_spec (- (Zpos mb * 2 ^ (eb - eminv)))
                    (- (Zpos ma * 2 ^ (ea - eminv)))); try reflexivity; lia.
    + destruct (Z.leb_spec (Zpos mb * 2 ^ (eb - eminv))
                  (- (Zpos ma * 2 ^ (ea - eminv)))); [lia|reflexivity].
    + destruct (Z.leb_spec (- (Zpos mb * 2 ^ (eb - eminv)))
                  (Zpos ma * 2 ^ (ea - eminv))); [reflexivity|lia].
    + rewrite Hcmp.
      destruct (Z.compare_spec (Zpos ma * 2 ^ (ea - eminv))
                  (Zpos mb * 2 ^ (eb - eminv)));
        destruct (Z.leb_spec (Zpos mb * 2 ^ (eb - eminv))
                    (Zpos ma * 2 ^ (ea - eminv))); try reflexivity; lia.
Qed.

(** ** The operations, on values *)

Lemma eminv_nonpos : eminv <= 0.
Proof. unfold SpecFloat.emin. lia. Qed.

Lemma cond_Zopp_mul s a b : cond_Zopp s a * b = cond_Zopp s (a * b).
Proof. destruct s; cbn [cond_Zopp]; lia. Qed.

Lemma SFadd_xval x y :
  SpecFloat.valid_binary prec emax x = true ->
  SpecFloat.valid_binary prec emax y = true ->
  xval prec emax (SFadd prec emax x y)
  = xadd prec emax (xval prec emax x) (xval prec emax y).
Proof.
  intros Hx Hy.
  destruct x as [sx|sx| |sx mx ex], y as [sy|sy| |sy my ey];
    try reflexivity;
    try (destruct sx, sy; reflexivity); try (destruct sx; reflexivity);
    try (destruct sy; reflexivity).
  - (* zero + finite *)
    pose proof (xrnd_valid _ Hy) as H. cbn beta iota in H.
    cbn [SFadd xval xadd].
    change (fval prec emax (S754_zero sx)) with 0.
    rewrite Z.add_0_l. by rewrite H.
  - (* finite + zero *)
    pose proof (xrnd_valid _ Hx) as H. cbn beta iota in H.
    cbn [SFadd xval xadd].
    change (fval prec emax (S754_zero sy)) with 0.
    rewrite Z.add_0_r. by rewrite H.
  - (* finite + finite *)
    destruct (valid_finite _ _ _ Hx) as (_ & _ & Hminx).
    destruct (valid_finite _ _ _ Hy) as (_ & _ & Hminy).
    cbn [SFadd]. cbv zeta.
    rewrite (binary_normalize_xval _ _ 0) by lia.
    cbn [xval xadd fval]. do 2 f_equal.
    destruct (shl_align_spec mx ex (Z.min ex ey)) as [_ ->].
    destruct (shl_align_spec my ey (Z.min ex ey)) as [_ ->].
    rewrite Z.add_0_r.
    replace (Z.min ex (Z.min ex ey)) with (Z.min ex ey) by lia.
    replace (Z.min ey (Z.min ex ey)) with (Z.min ex ey) by lia.
    rewrite Z.mul_add_distr_r, !cond_Zopp_mul.
    rewrite <- !Z.mul_assoc, <- !pow2_split by lia.
    do 4 f_equal; lia.
Qed.

Lemma SFopp_xval x : xval prec emax (SFopp x) = xopp (xval prec emax x).
Proof.
  destruct x as [s|s| |s m e]; try reflexivity.
  - by destruct s.
  - cbn [SFopp xval xopp fval]. do 2 f_equal. destruct s; cbn [negb cond_Zopp]; lia.
Qed.

Lemma SFopp_valid x :
  SpecFloat.valid_binary prec emax (SFopp x) = SpecFloat.valid_binary prec emax x.
Proof. by destruct x. Qed.

Lemma SFsub_add_opp x y : SFsub prec emax x y = SFadd prec emax x (SFopp y).
Proof.
  destruct x as [sx|sx| |sx mx ex], y as [sy|sy| |sy my ey];
    try reflexivity;
    destruct sx, sy; reflexivity.
Qed.

Lemma SFsub_xval x y :
  SpecFloat.valid_binary prec emax x = true ->
  SpecFloat.valid_binary prec emax y = true ->
  xval prec emax (SFsub prec emax x y)
  = xadd prec emax (xval prec emax x) (xopp (xval prec emax y)).
Proof.
  intros Hx Hy. rewrite SFsub_add_opp, SFadd_xval, SFopp_xval; try done.
  by rewrite SFopp_valid.
Qed.

Lemma xsigned_xrnd s j v N :
  0 < N -> v = rnd_pos prec emax j N ->
  xsigned prec emax s v = xrnd prec emax j (cond_Zopp s N).
Proof.
  intros HN ->. destruct s; cbn [cond_Zopp].
  - rewrite xrnd_neg by lia. by rewrite Z.opp_involutive.
  - by rewrite xrnd_pos by lia.
Qed.

Lemma SFmul_xval x y :
  SpecFloat.valid_binary prec emax x = true ->
  SpecFloat.valid_binary prec emax y = true ->
  xval prec emax (SFmul prec emax x y)
  = xmul prec emax (xval prec emax x) (xval prec emax y).
Proof.
  intros Hx Hy. pose proof eminv_nonpos as Hemin.
  destruct x as [sx|sx| |sx mx ex], y as [sy|sy| |sy my ey];
    try reflexivity;
    try (destruct sx; reflexivity); try (destruct sy; reflexivity);
    try (destruct sx, sy; reflexivity).
  - (* infinity * finite *)
    destruct (valid_finite _ _ _ Hy) as (_ & _ & Hmin).
    pose proof (fval_finite_pos my ey Hmin) as Hp.
    cbn [SFmul xval xmul fval].
    destruct sx, sy; cbn [cond_Zopp xorb];
      match goal with |- context [?a =? 0] =>
        destruct (Z.eqb_spec a 0); [lia|] end;
      match goal with |- context [?a <? 0] =>
        destruct (Z.ltb_spec a 0); try lia end; reflexivity.
  - (* finite * zero *)
    cbn [SFmul xval xmul fval]. rewrite ?Z.mul_0_r. reflexivity.
  - (* finite * infinity *)
    destruct (valid_finite _ _ _ Hx) as (_ & _ & Hmin).
    pose proof (fval_finite_pos mx ex Hmin) as Hp.
    cbn [SFmul xval xmul fval].
    destruct sx, sy; cbn [cond_Zopp xorb];
      match goal with |- context [?a =? 0] =>
        destruct (Z.eqb_spec a 0); [lia|] end;
      match goal with |- context [?a <? 0] =>
        destruct (Z.ltb_spec a 0); try lia end; reflexivity.
  - (* finite * finite *)
    destruct (valid_finite _ _ _ Hx) as (Hcx & _ & Hminx).
    destruct (valid_finite _ _ _ Hy) as (Hcy & _ & Hminy).
    destruct (canonical_digits _ _ Hcx) as (_ & Hdx & Hnx).
    destruct (canonical_digits _ _ Hcy) as (_ & Hdy & Hny).
    pose proof (Z.log2_nonneg (Zpos mx)) as Hlx.
    pose proof (Z.log2_nonneg (Zpos my)) as Hly.
    pose proof (Z.log2_mul_below (Zpos mx) (Zpos my) ltac:(lia) ltac:(lia)) as Hl.
    pose proof (fval_finite_pos mx ex Hminx) as Hpx.
    pose proof (fval_finite_pos my ey Hminy) as Hpy.
    cbn [SFmul].
    rewrite (binary_round_aux_xval _ _ _ (- eminv)); try lia.
    + cbn [xval xmul fval]. f_equal.
      rewrite Pos2Z.inj_mul.
      replace (Zpos mx * Zpos my * 2 ^ (ex + ey - eminv + - eminv))
        with ((Zpos mx * 2 ^ (ex - eminv)) * (Zpos my * 2 ^ (ey - eminv))).
      2: { replace (ex + ey - eminv + - eminv)
             with ((ex - eminv) + (ey - eminv)) by lia.
           rewrite pow2_split by lia. ring. }
      rewrite (xsigned_xrnd _ (- eminv) _
                 ((Zpos mx * 2 ^ (ex - eminv)) * (Zpos my * 2 ^ (ey - eminv))));
        [|nia|reflexivity].
      f_equal. destruct sx, sy; cbn [xorb cond_Zopp]; lia.
    + rewrite Pos2Z.inj_mul. unfold SpecFloat.fexp.
      destruct (Z.eq_dec ex eminv), (Z.eq_dec ey eminv); lia.
Qed.

(** ** Monotonicity, on values *)

Lemma xleb_PInf a : xleb a PInf = true.
Proof. by destruct a. Qed.

Lemma xrnd_0 j : xrnd prec emax j 0 = Fin 0.
Proof. reflexivity. Qed.

Ltac xsimpl :=
  cbn [xadd xmul xopp xlt_opt] in *; unfold xltb in *;
  repeat match goal with
         | |- context [?z =? 0] => destruct (Z.eqb_spec z 0)
         | |- context [?z <? 0] => destruct (Z.ltb_spec z 0)
         end;
  cbn [xinf xlt_opt] in *; unfold xltb in *;
  cbn [xleb negb] in *; rewrite ?xleb_PInf; cbn [negb];
  repeat match goal with
         | H : negb (_ <=? _) = false |- _ =>
             apply negb_false_iff in H; apply Z.leb_le in H
         | H : negb (_ <=? _) = true |- _ =>
             apply negb_true_iff in H; apply Z.leb_gt in H
         end;
  try done; try lia.

Lemma xadd_mono (X X' Y Y' : option xZ) :
  xlt_opt X' X = false -> xlt_opt Y' Y = false ->
  xlt_opt (xadd prec emax X' Y') (xadd prec emax X Y) = false.
Proof.
  intros H1 H2.
  destruct X as [[|a|]|], X' as [[|a'|]|], Y as [[|b|]|], Y' as [[|b'|]|];
    xsimpl.
  apply negb_false_iff. apply xrnd_mono; lia.
Qed.

Lemma xadd_le_r (X Y : option xZ) :
  (forall a, X = Some (Fin a) -> xrnd prec emax 0 a = Fin a) ->
  xlt_opt Y (Some (Fin 0)) = false ->
  xlt_opt (xadd prec emax X Y) X = false.
Proof.
  intros HX HY.
  destruct X as [[|a|]|], Y as [[|b|]|]; try (by xsimpl).
  cbn [xadd xlt_opt] in *. unfold xltb in *.
  apply negb_false_iff in HY. apply Z.leb_le in HY.
  apply negb_false_iff. rewrite <- (HX a eq_refl) at 1.
  apply xrnd_mono; lia.
Qed.

Lemma xadd_nonneg (X Y : option xZ) :
  xlt_opt X (Some (Fin 0)) = false -> xlt_opt Y (Some (Fin 0)) = false ->
  xlt_opt (xadd prec emax X Y) (Some (Fin 0)) = false.
Proof.
  intros HX HY.
  destruct X as [[|a|]|], Y as [[|b|]|]; try (by xsimpl).
  cbn [xadd xlt_opt] in *. unfold xltb in *.
  apply negb_false_iff in HX, HY. apply Z.leb_le in HX, HY.
  apply negb_false_iff. rewrite <- (xrnd_0 0). apply xrnd_mono; lia.
Qed.

Lemma xopp_anti (X Y : option xZ) :
  xlt_opt Y X = false -> xlt_opt (xopp X) (xopp Y) = false.
Proof.
  intros H. destruct X as [[|a|]|], Y as [[|b|]|]; xsimpl;
    apply negb_false_iff, Z.leb_le; lia.
Qed.

Lemma xmul_comm (X Y : option xZ) : xmul prec emax X Y = xmul prec emax Y X.
Proof.
  destruct X as [[|a|]|], Y as [[|b|]|]; cbn [xmul]; try done.
  by rewrite Z.mul_comm.
Qed.

Lemma xmul_mono_r (X Y W : option xZ) :
  xlt_opt Y X = false -> xlt_opt W (Some (Fin 0)) = false ->
  xlt_opt (xmul prec emax Y W) (xmul prec emax X W) = false.
Proof.
  intros H HW. pose proof eminv_nonpos as Hemin.
  destruct X as [[|a|]|], Y as [[|b|]|], W as [[|c|]|]; xsimpl.
  apply negb_false_iff. apply xrnd_mono; [lia|]. nia.
Qed.

Lemma xmul_nonneg (X Y : option xZ) :
  xlt_opt X (Some (Fin 0)) = false -> xlt_opt Y (Some (Fin 0)) = false ->
  xlt_opt (xmul prec emax X Y) (Some (Fin 0)) = false.
Proof.
  intros HX HY. pose proof eminv_nonpos as Hemin.
  destruct X as [[|a|]|], Y as [[|b|]|]; try (by xsimpl).
  cbn [xmul xlt_opt] in *. unfold xltb in *.
  apply negb_false_iff in HX, HY. apply Z.leb_le in HX, HY.
  apply negb_false_iff. rewrite <- (xrnd_0 (- eminv)).
  apply xrnd_mono; [lia|]. nia.
Qed.

(** The order on values. *)
Lemma xlt_opt_nonneg_trans (T W : option xZ) :
  xlt_opt T W = true -> xlt_opt T (Some (Fin 0)) = false ->
  xlt_opt W (Some (Fin 0)) = false.
Proof.
  intros H1 H2. destruct T as [[|a|]|], W as [[|b|]|]; xsimpl;
    apply negb_false_iff, Z.leb_le; lia.
Qed.

End Rounding.

(** ** Signs *)

Lemma binary_round_aux_plus prec emax m e l :
  sf_plus (binary_round_aux prec emax false m e l).
Proof.
  unfold binary_round_aux.
  destruct (shr_fexp prec emax m e l) as [mrs e'].
  destruct (shr_fexp prec emax _ e' loc_Exact) as [mrs' e''].
  destruct (shr_m mrs'); cbn [sf_plus]; try done.
  by destruct (e'' <=? emax - prec).
Qed.

Lemma binary_normalize_plus prec emax M e :
  0 <= M -> sf_plus (binary_normalize prec emax M e false).
Proof.
  intros HM. destruct M as [|m|m]; try lia; cbn [binary_normalize]; [done|].
  unfold binary_round. destruct (shl_align _ _ _) as [mz ez].
  apply binary_round_aux_plus.
Qed.

Lemma SFmul_plus prec emax x y :
  sf_plus x -> sf_plus y -> sf_plus (SFmul prec emax x y).
Proof.
  destruct x as [sx|sx| |sx mx ex], y as [sy|sy| |sy my ey];
    cbn [sf_plus SFmul]; try done; intros -> ->; try done.
  apply binary_round_aux_plus.
Qed.

Lemma SFdiv_plus prec emax x y :
  sf_plus x -> sf_plus y -> sf_plus (SFdiv prec emax x y).
Proof.
  destruct x as [sx|sx| |sx mx ex], y as [sy|sy| |sy my ey];
    cbn [sf_plus SFdiv]; try done; intros -> ->; try done.
  destruct (SFdiv_core_binary _ _ _ _ _ _) as [[mz ez] lz].
  apply binary_round_aux_plus.
Qed.

Lemma SFadd_plus prec emax x y :
  sf_plus x -> sf_plus y -> sf_plus (SFadd prec emax x y).
Proof.
  destruct x as [sx|sx| |sx mx ex], y as [sy|sy| |sy my ey];
    cbn [sf_plus SFadd]; try done; intros -> ->; try done.
  cbv zeta. apply binary_normalize_plus. cbn [cond_Zopp]. lia.
Qed.

Lemma SFsqrt_plus prec emax x : sf_plus x -> sf_plus (SFsqrt prec emax x).
Proof.
  destruct x as [sx|sx| |sx mx ex]; cbn [sf_plus SFsqrt]; try done;
    intros ->; try done.
  destruct (SFsqrt_core_binary _ _ _ _) as [[mz ez] lz].
  apply binary_round_aux_plus.
Qed.

Lemma sf_nn_cases x : sf_nn x <-> (exists s, x = S754_zero s) \/ sf_plus x.
Proof.
  unfold sf_nn, SFltb.
  destruct x as [s|s| |s m e]; cbn [SFcompare sf_plus].
  - split; [eauto | done].
  - destruct s; split; try done; try (by right). by intros [[? ?]|?].
  - split; [by right | done].
  - destruct s; split; try done; try (by right). by intros [[? ?]|?].
Qed.

Lemma sf_plus_nn x : sf_plus x -> sf_nn x.
Proof. intros H. apply sf_nn_cases. by right. Qed.

Lemma SFdiv_nn prec emax x y :
  sf_nn x -> sf_plus y -> sf_nn (SFdiv prec emax x y).
Proof.
  intros Hx Hy. apply sf_nn_cases in Hx as [[s ->]|Hx].
  - apply sf_nn_cases.
    destruct y as [sy|sy| |sy my ey]; cbn [SFdiv]; [by right| | by right|];
      left; eauto.
  - by apply sf_plus_nn, SFdiv_plus.
Qed.

Lemma SFmul_nn prec emax x y :
  sf_nn x -> sf_nn y -> sf_nn (SFmul prec emax x y).
Proof.
  intros Hx Hy. apply sf_nn_cases.
  apply sf_nn_cases in Hx as [[sx ->]|Hx], Hy as [[sy ->]|Hy].
  - left. cbn. eauto.
  - destruct y as [s|s| |s m e]; cbn [SFmul]; [left|right|right|left]; eauto; done.
  - destruct x as [s|s| |s m e]; cbn [SFmul]; [left|right|right|left]; eauto; done.
  - right. by apply SFmul_plus.
Qed.

Lemma SFsqrt_nn prec emax x : sf_nn x -> sf_nn (SFsqrt prec emax x).
Proof.
  intros Hx. apply sf_nn_cases in Hx as [[s ->]|Hx].
  - apply sf_nn_cases. left. cbn. eauto.
  - by apply sf_plus_nn, SFsqrt_plus.
Qed.

(** ** Doubles *)

Lemma prec_gt_0 : 0 < prec.
Proof. reflexivity. Qed.

Lemma emax_ge_2 : 2 <= emax.
Proof. discriminate. Qed.

Lemma ltb_xv (x y : float) : (x <? y)%float = xlt_opt (xv x) (xv y).
Proof.
  rewrite ltb_spec. unfold xv. apply (SFltb_xval prec emax prec_gt_0 emax_ge_2);
    apply Prim2SF_valid.
Qed.

Lemma add_xv (x y : float) : xv (x + y) = xadd prec emax (xv x) (xv y).
Proof.
  unfold xv. rewrite add_spec.
  apply (SFadd_xval prec emax prec_gt_0 emax_ge_2); apply Prim2SF_valid.
Qed.

Lemma sub_xv (x y : float) : xv (x - y) = xadd prec emax (xv x) (xopp (xv y)).
Proof.
  unfold xv. rewrite sub_spec.
  apply (SFsub_xval prec emax prec_gt_0 emax_ge_2); apply Prim2SF_valid.
Qed.

Lemma mul_xv (x y : float) : xv (x * y) = xmul prec emax (xv x) (xv y).
Proof.
  unfold xv. rewrite mul_spec.
  apply (SFmul_xval prec emax prec_gt_0 emax_ge_2); apply Prim2SF_valid.
Qed.

Lemma xv_0 : xv 0%float = Some (Fin 0).
Proof. reflexivity. Qed.

Lemma xv_repr (x : float) a : xv x = Some (Fin a) -> xrnd prec emax 0 a = Fin a.
Proof.
  unfold xv. intros Hx.
  assert (H : match Prim2SF x with
              | S754_nan | S754_infinity _ => True
              | _ => xrnd prec emax 0 (fval prec emax (Prim2SF x))
                     = Fin (fval prec emax (Prim2SF x))
              end) by (apply (xrnd_valid prec emax prec_gt_0); apply Prim2SF_valid).
  destruct (Prim2SF x) as [s|[|]| |s m e]; cbn [xval] in Hx; try done;
    injection Hx as <-; exact H.
Qed.

Lemma float_nn_iff (x : float) : (x <? 0)%float = false <-> sf_nn (Prim2SF x).
Proof. by rewrite ltb_spec. Qed.

(** *** The laws of the order *)

Lemma float_add_mono (a b c d : float) :
  (b <? a)%float = false -> (d <? c)%float = false ->
  (b + d <? a + c)%float = false.
Proof.
  rewrite !ltb_xv, !add_xv.
  apply (xadd_mono prec emax prec_gt_0).
Qed.

Lemma float_sub_mono (a b c d : float) :
  (b <? a)%float = false -> (d <? c)%float = false ->
  (b - c <? a - d)%float = false.
Proof.
  rewrite !ltb_xv, !sub_xv. intros H1 H2.
  apply (xadd_mono prec emax prec_gt_0); [done|].
  by apply xopp_anti.
Qed.

Lemma float_add_r (a b : float) :
  (b <? 0)%float = false -> (a + b <? a)%float = false.
Proof.
  rewrite !ltb_xv, !add_xv, xv_0.
  apply (xadd_le_r prec emax prec_gt_0).
  intros v. apply xv_repr.
Qed.

Lemma float_add_nonneg (a b : float) :
  (a <? 0)%float = false -> (b <? 0)%float = false ->
  (a + b <? 0)%float = false.
Proof.
  rewrite !ltb_xv, !add_xv, xv_0.
  apply (xadd_nonneg prec emax prec_gt_0).
Qed.

Lemma float_mul_mono_r (a b c : float) :
  (b <? a)%float = false -> (c <? 0)%float = false ->
  (b * c <? a * c)%float = false.
Proof.
  rewrite !ltb_xv, !mul_xv, xv_0.
  apply (xmul_mono_r prec emax prec_gt_0 emax_ge_2).
Qed.

Lemma float_mul_mono_l (a b c : float) :
  (b <? a)%float = false -> (c <? 0)%float = false ->
  (c * b <? c * a)%float = false.
Proof.
  rewrite !ltb_xv, !mul_xv, xv_0, !(xmul_comm prec emax (xv c)).
  apply (xmul_mono_r prec emax prec_gt_0 emax_ge_2).
Qed.

Lemma float_mul_nonneg (a b : float) :
  (a <? 0)%float = false -> (b <? 0)%float = false ->
  (a * b <? 0)%float = false.
Proof.
  rewrite !ltb_xv, !mul_xv, xv_0.
  apply (xmul_nonneg prec emax prec_gt_0 emax_ge_2).
Qed.

Lemma float_mul_0_nonneg (a : float) : (a * 0 <? 0)%float = false.
Proof.
  apply float_nn_iff. rewrite mul_spec. apply sf_nn_cases.
  change (Prim2SF 0) with (S754_zero false).
  destruct (Prim2SF a) as [s|s| |s m e]; cbn; eauto.
Qed.

Lemma float_lt_nonneg (t w : float) :
  (t <? w)%float = true -> (t <? 0)%float = false -> (w <? 0)%float = false.
Proof.
  rewrite !ltb_xv, xv_0. apply xlt_opt_nonneg_trans.
Qed.

(** *** The laws of the sign *)

Lemma float_plus_nn (x : float) : float_plus x -> (x <? 0)%float = false.
Proof. intros H. by apply float_nn_iff, sf_plus_nn. Qed.

Lemma float_plus_lt (x : float) : (0 <? x)%float = true -> float_plus x.
Proof.
  rewrite ltb_spec. unfold float_plus, SFltb.
  change (Prim2SF 0) with (S754_zero false).
  destruct (Prim2SF x) as [s|s| |s m e]; cbn; try done; by destruct s.
Qed.

Lemma float_plus_of_Z z : 0 <= z -> float_plus (float_of_Z z).
Proof.
  intros Hz. unfold float_plus. destruct z as [|p|p]; try lia; cbn [float_of_Z].
  - reflexivity.
  - rewrite of_uint63_spec. apply binary_normalize_plus.
    apply Uint63.to_Z_bounded.
Qed.

Lemma float_plus_add (a b : float) :
  float_plus a -> float_plus b -> float_plus (a + b).
Proof. unfold float_plus. rewrite add_spec. apply SFadd_plus. Qed.

Lemma float_plus_mul (a b : float) :
  float_plus a -> float_plus b -> float_plus (a * b).
Proof. unfold float_plus. rewrite mul_spec. apply SFmul_plus. Qed.

Lemma float_plus_div (a b : float) :
  float_plus a -> float_plus b -> float_plus (a / b).
Proof. unfold float_plus. rewrite div_spec. apply SFdiv_plus. Qed.

Lemma float_plus_sqrt (a : float) : float_plus a -> float_plus (sqrt a).
Proof. unfold float_plus. rewrite sqrt_spec. apply SFsqrt_plus. Qed.

Lemma float_plus_pow (a b : float) : float_plus a -> float_plus (float_pow a b).
Proof.
  intros Ha. unfold float_pow.
  destruct (b =? 0)%float; [reflexivity|].
  destruct (b =? 0.5)%float; [by apply float_plus_sqrt|].
  destruct (b =? 1)%float; [done|].
  destruct (b =? 2)%float; [by apply float_plus_mul|].
  destruct ((a =? 0) && (0 <? b))%float; reflexivity.
Qed.

Lemma float_div_nonneg (a b : float) :
  (a <? 0)%float = false -> float_plus b -> (a / b <? 0)%float = false.
Proof.
  rewrite !float_nn_iff, div_spec. apply SFdiv_nn.
Qed.

Lemma float_pow_nonneg (a b : float) :
  (a <? 0)%float = false -> (float_pow a b <? 0)%float = false.
Proof.
  intros Ha. unfold float_pow.
  destruct (b =? 0)%float; [reflexivity|].
  destruct (b =? 0.5)%float.
  { apply float_nn_iff. rewrite sqrt_spec. by apply SFsqrt_nn, float_nn_iff. }
  destruct (b =? 1)%float; [done|].
  destruct (b =? 2)%float; [by apply float_mul_nonneg|].
  destruct ((a =? 0) && (0 <? b))%float; reflexivity.
Qed.

End FloatFacts.

(** * The theorems at work on the example motors *)

(** ** The carriers and the laws *)

Lemma float_ltb_irrefl (x : float) : PrimFloat.ltb x x = false.
Proof.
  rewrite ltb_spec. unfold SFltb, SFcompare.
  destruct (Prim2SF x) as [s|s| |s m e];
    try (destruct s; reflexivity); try reflexivity.
  destruct s; rewrite Z.compare_refl, Pos.compare_cont_refl; reflexivity.
Qed.

Lemma float_NumOrder : NumOrder (F:=float).
Proof. split; [exact float_ltb_irrefl | reflexivity]. Qed.

Lemma Qc_nle_iff (x y : Qc) : nle x y <-> (x <= y)%Qc.
Proof.
  unfold nle; cbn. unfold Qc_ltb.
  destruct (y ?= x)%Qc eqn:Hc.
  - apply Qceq_alt in Hc as ->. split; [intros _; apply Qcle_refl | done].
  - apply Qclt_alt in Hc. split; [done|]. intros Hle.
    by apply Qcle_not_lt in Hle.
  - split; [intros _|done]. apply Qcle_alt. unfold Qccompare in *.
    rewrite <- (Qcompare_antisym (this y) (this x)), Hc. discriminate.
Qed.

Lemma Qc_ltb_irrefl (x : Qc) : Qc_ltb x x = false.
Proof. apply (Qc_nle_iff x x), Qcle_refl. Qed.

Lemma Qc_NumOrder : NumOrder (F:=Qc).
Proof. split; [exact Qc_ltb_irrefl | reflexivity]. Qed.

Lemma Qcinv_nonneg (b : Qc) : (0 <= b)%Qc -> (0 <= / b)%Qc.
Proof.
  unfold Qcle. intros Hb. unfold Qcinv.
  change (this (Q2Qc (/ b))) with (Qred (/ b)).
  rewrite Qred_correct. apply Qinv_le_0_compat. exact Hb.
Qed.

Lemma Qcmult_nonneg (a b : Qc) : (0 <= a)%Qc -> (0 <= b)%Qc -> (0 <= a * b)%Qc.
Proof.
  intros Ha Hb. rewrite <- (Qcmult_0_l b). by apply Qcmult_le_compat_r.
Qed.

Lemma Qc_pow_nonneg (a b : Qc) : (0 <= a)%Qc -> (0 <= Qc_pow a b)%Qc.
Proof.
  intros Ha. unfold Qc_pow.
  destruct (if Qc_eq_bool b (Q2Qc (1 # 2)) then Qc_sqrt a else None)
    as [root|] eqn:Hroot.
  - destruct (Qc_eq_bool b (Q2Qc (1 # 2))); [|discriminate].
    unfold Qc_sqrt in Hroot.
    destruct (_ && _ && _)%bool; [|discriminate]. injection Hroot as <-.
    unfold Qcle.
    change (this (Q2Qc (Z.sqrt (Qnum a) # Pos.sqrt (Qden a))))
      with (Qred (Z.sqrt (Qnum a) # Pos.sqrt (Qden a))).
    rewrite Qred_correct. change (this 0%Qc) with (0 # 1).
    unfold Qle; cbn [Qnum Qden].
    pose proof (Z.sqrt_nonneg (Qnum a)). lia.
  - destruct (_ && _ && _)%bool; [apply Qcle_refl|].
    unfold Qc_pow_int. destruct (Qfloor b); try by apply Qcpower_pos.
    by apply Qcinv_nonneg, Qcpower_pos.
Qed.

Lemma Qc_of_Z_nonneg (z : Z) : (0 <= z)%Z -> (0 <= Q2Qc (inject_Z z))%Qc.
Proof.
  intros Hz. unfold Qcle.
  change (this (Q2Qc (inject_Z z))) with (Qred (inject_Z z)).
  rewrite Qred_correct.
  change (this 0%Qc) with (inject_Z 0). rewrite <- Zle_Qle. exact Hz.
Qed.

Lemma Qc_NumExact : NumExact (F:=Qc).
Proof.
  split; cbn; intros.
  - apply Qcplus_0_r.
  - apply Qcmult_0_r.
  - apply Qcmult_1_r.
  - apply Qc_nle_iff, Qcle_refl.
  - apply Qc_nle_iff. eapply Qcle_trans; by apply Qc_nle_iff.
  - apply Qc_nle_iff, Qcplus_le_compat; by apply Qc_nle_iff.
  - apply Qc_nle_iff, Qcmult_nonneg; by apply Qc_nle_iff.
  - apply Qc_nle_iff, Qcmult_le_compat_r; by apply Qc_nle_iff.
  - apply Qc_nle_iff, Qcmult_nonneg; [|apply Qcinv_nonneg]; by apply Qc_nle_iff.
  - apply Qc_nle_iff, Qc_pow_nonneg. by apply Qc_nle_iff.
  - apply Qc_nle_iff. by apply Qc_of_Z_nonneg.
Qed.

(** ** The example motors and their collaborators *)


Lemma Qc_ltb_lt (x y : Qc) : Qc_ltb x y = true -> (x < y)%Qc.
Proof.
  unfold Qc_ltb. destruct (x ?= y)%Qc eqn:Hc; try discriminate.
  intros _. by apply Qclt_alt.
Qed.

(** *** Doubles and rationals are [NumMonotone] *)

Lemma float_plus_sign (x : float) : plus_sign (F:=float) x <-> float_plus x.
Proof.
  unfold plus_sign, nle. cbn [nltb ndiv of_Z float_Num float_of_Z].
  change (of_uint63 (Uint63.of_Z 1)) with 1%float.
  split.
  - intros [Hx Hinv]. apply float_nn_iff in Hx, Hinv.
    apply sf_nn_cases in Hx as [[s Hs]|Hx]; [|done].
    unfold float_plus. rewrite Hs. destruct s; [|done].
    rewrite div_spec, Hs in Hinv. vm_compute in Hinv. discriminate.
  - intros Hx. split; [by apply float_plus_nn|].
    by apply float_div_nonneg.
Qed.

Lemma float_NumMonotone : NumMonotone (F:=float).
Proof.
  split; unfold nle; cbn [nltb nadd nmul ndiv npow of_Z float_Num]; intros.
  - apply float_ltb_irrefl.
  - by apply float_add_mono.
  - by apply float_add_r.
  - by apply float_mul_mono_r.
  - by apply float_add_nonneg.
  - by apply float_mul_nonneg.
  - apply float_mul_0_nonneg.
  - apply float_div_nonneg; [done|]. by apply float_plus_sign.
  - by apply float_pow_nonneg.
  - by apply float_plus_nn, float_plus_of_Z.
  - by apply float_plus_sign, float_plus_lt.
  - by apply float_plus_sign, float_plus_of_Z.
  - apply float_plus_sign, float_plus_add; by apply float_plus_sign.
  - apply float_plus_sign, float_plus_mul; by apply float_plus_sign.
  - apply float_plus_sign, float_plus_div; by apply float_plus_sign.
  - apply float_plus_sign, float_plus_pow. by apply float_plus_sign.
Qed.

Lemma Qc_plus_sign (x : Qc) : plus_sign x <-> nle (0%Qc) x.
Proof.
  split; [by intros [H _]|]. intros Hx. split; [exact Hx|].
  apply (div_nonneg (NumExact:=Qc_NumExact)); [|exact Hx].
  by apply (of_Z_nonneg (NumExact:=Qc_NumExact)).
Qed.

Lemma Qc_NumMonotone : NumMonotone (F:=Qc).
Proof.
  pose proof Qc_NumExact as E.
  split; intros; rewrite ?Qc_plus_sign in *.
  - apply nle_refl.
  - by apply add_le_mono.
  - by apply le_add_r.
  - by apply mul_le_mono_r.
  - by apply add_nonneg.
  - by apply mul_nonneg.
  - rewrite mul_0_r. apply nle_refl.
  - by apply div_nonneg.
  - by apply pow_nonneg.
  - by apply of_Z_nonneg.
  - apply Qc_nle_iff, Qclt_le_weak. by apply Qc_ltb_lt.
  - by apply (of_Z_nonneg (NumExact:=E)).
  - by apply (add_nonneg (exact:=E)).
  - by apply (mul_nonneg (NumExact:=E)).
  - by apply (div_nonneg (NumExact:=E)).
  - by apply (pow_nonneg (NumExact:=E)).
Qed.

(** The demo motor, on doubles, is well posed. *)
Lemma demo_motor_well_posed : well_posed demo_motor.
Proof.
  split.
  - reflexivity.
  - reflexivity.
  - intros p [= <-]. repeat split.
  - intros g r Hg _. apply list_elem_of_singleton in Hg as ->. reflexivity.
  - intros g Hg. apply list_elem_of_singleton in Hg as ->. reflexivity.
  - intros g r Hg Hweb. apply list_elem_of_singleton in Hg as ->.
    apply float_mul_nonneg; [reflexivity|].
    eapply float_lt_nonneg; [exact Hweb | reflexivity].
  - intros g r r' Hg Hle _ _. apply list_elem_of_singleton in Hg as ->.
    apply float_mul_mono_l; [|reflexivity].
    apply float_sub_mono; [reflexivity | exact Hle].
Qed.

(** The exact motor is physical. *)
Lemma exact_motor_physical : physical exact_motor.
Proof.
  split.
  - reflexivity.
  - reflexivity.
  - intros p [= <-]. repeat split.
  - intros g r Hg _. apply list_elem_of_singleton in Hg as ->. reflexivity.
  - intros g Hg. apply list_elem_of_singleton in Hg as ->. reflexivity.
  - intros g r Hg Hweb. apply list_elem_of_singleton in Hg as ->.
    apply Qc_ltb_lt in Hweb. apply Qc_nle_iff.
    change (0 <= 1 * (qc 3 - r))%Qc. rewrite Qcmult_1_l.
    apply Qclt_le_weak. eapply Qcle_lt_trans; [|exact Hweb]. done.
  - intros g r r' Hg Hle _ _. apply list_elem_of_singleton in Hg as ->.
    apply Qc_nle_iff in Hle. apply Qc_nle_iff.
    change (1 * (qc 3 - r') <= 1 * (qc 3 - r))%Qc. rewrite !Qcmult_1_l.
    apply Qcplus_le_compat; [apply Qcle_refl|]. by apply Qcopp_le_compat.
Qed.

(** ** The claims on the example motors *)

(** C1, on the code.  One sweep of the demo motor, from its ignited state:
    the grain regresses from 0 to 1, but the mass recorded for it is its
    volume at regression 0 times the density, not at regression 1; so no
    mass flow is recorded for the step. *)
Theorem C1_mass_recorded_at_old_regression :
  exists s,
    sweep demo_motor demo_ignited 1%float 1%float 0%float 1000%float 0.5%float
      [0%float] = Ok s
    /\ perGrainReg s = [1%float]
    /\ perGrainMass s
       = [(getVolumeAtRegression demo_grain 0%float * 1000)%float]
    /\ perGrainMass s
       <> [(getVolumeAtRegression demo_grain 1%float * 1000)%float]
    /\ perGrainMassFlow s = [0%float]
    /\ perGrainMassFlux s
       = [getPeakMassFlux demo_grain 0%float 1%float 0%float 1%float 1000%float].
Proof.
  eexists. split; [vm_compute; reflexivity|].
  repeat split; try reflexivity.
  intros H.
  apply (f_equal (fun l => match l with
                           | [x] => PrimFloat.eqb x 2000%float
                           | _ => true
                           end)) in H.
  vm_compute in H. discriminate.
Qed.

(** C2 as the spec states it fails on doubles.  The two-slab motor with
    a thrust threshold of 3.625 % burns out with the thrust 0, 1600, 58,
    58, 58, 0.  The sample 58 at index 2 is exactly 3.625 % of the peak
    1600: 58 * 100 and 3.625 * 1600 are both 5800, and on the rationals
    the test of the loop fails at these numbers.  The code compares the
    sample with [3.625 * 0.01 * 1600], which on doubles is the next double
    below 58: the test holds and the loop goes on for three more
    samples. *)
Lemma C2_exact_percent_does_not_stop :
  exists res : simulationResult,
    runSimulation 10 (two_slab_motor 3.625 514 20) None
    = Some (Ok (Burnout, res))
    /\ getProperty (config (two_slab_motor 3.625 514 20)) "burnoutThrustThres"
       = 3.625%float
    /\ ch_force res = [0; 1600; 58; 58; 58; 0]%float
    /\ getMax (take 3 (ch_force res)) = Ok 1600%float
    /\ (58 * 100 =? 3.625 * 1600)%float = true
    /\ loop_test (F:=Qc) (Q2Qc (29 # 8)) [qc 0; qc 1600; qc 58] = Ok false
    /\ (3.625 * lit_0_01 * 1600 <? 58)%float = true
    /\ test_after 3.625%float (ch_force res) 2 = Ok true
    /\ (S 2 < length (ch_force res))%nat.
Proof.
  eexists. split; [vm_compute; reflexivity|].
  repeat split; try reflexivity.
  cbn. lia.
Qed.

(** C2 on the two-slab motor with a threshold of 1 %: its run burns out
    with the thrust 0, 1600, 16.  The test of the loop holds at sample 1
    and fails at sample 2; that sample equals [1 * 0.01 * 1600] as doubles
    compute it, and so it is the last although the second slab still
    burns. *)
Lemma C2_loop_test_witness :
  exists res : simulationResult,
    runSimulation 10 (two_slab_motor 1 528 6) None = Some (Ok (Burnout, res))
    /\ ch_force res = [0; 1600; 16]%float
    /\ (forall i, (1 <= i)%nat -> (i < length (ch_force res))%nat ->
                  (test_after
                     (getProperty (config (two_slab_motor 1 528 6))
                        "burnoutThrustThres")
                     (ch_force res) i = Ok true
                   <-> (S i < length (ch_force res))%nat))
    /\ 3%nat = length (ch_force res).
Proof.
  eexists. split; [vm_compute; reflexivity|].
  match goal with |- ch_force ?r = _ /\ _ => set (res := r) end.
  assert (Hrun : runSimulation 10 (two_slab_motor 1 528 6) None
                 = Some (Ok (Burnout, res))) by (vm_compute; reflexivity).
  destruct (proj2 (C2_loop_continues_iff_thrust_above_threshold
                     (two_slab_motor 1 528 6))
              10 None Burnout res Hrun) as (_ & Hiff & Hlast); [discriminate|].
  split; [reflexivity|]. split; [exact (Hiff eq_refl)|].
  apply (Hlast float_NumOrder 2%nat 16%float 1600%float).
  - lia.
  - reflexivity.
  - vm_compute; reflexivity.
  - vm_compute; reflexivity.
Defined.

(** C3 on a motor with a propellant and no grain: one ERROR alert. *)
Lemma C3_empty_grain_list_witness :
  exists res : simulationResult,
    runSimulation 0 grainless_motor None = Some (Ok (Rejected, res))
    /\ getAlertsByLevel ERROR res = [no_grain_alert].
Proof.
  destruct (C3_empty_grain_list 0 grainless_motor None eq_refl)
    as (res & Hrun & _ & _ & _ & _ & _ & Hone).
  exists res. split; [exact Hrun|].
  apply Hone; [discriminate | reflexivity].
Defined.

(** C3 fails as stated: a motor with neither grain nor propellant, as
    [motor()] builds it, is rejected with two ERROR alerts, not one. *)
Lemma C3_two_errors_without_propellant :
  exists res : simulationResult,
    runSimulation 0 empty_motor None = Some (Ok (Rejected, res))
    /\ length (getAlertsByLevel ERROR res) = 2%nat
    /\ length (getAlertsByLevel ERROR res) <> 1%nat.
Proof.
  eexists. split; [reflexivity|]. split; [reflexivity | discriminate].
Qed.

(** C4 on the demo motor, cancelled at the second call of the callback:
    four samples, no ERROR alert. *)
Lemma C4_cancelled_result_witness :
  exists res : simulationResult,
    runSimulation 10 demo_motor (Some cancel_at_second_call)
    = Some (Ok (Cancelled 2, res))
    /\ success res = false
    /\ getAlertsByLevel ERROR res = []
    /\ samples 4 res.
Proof.
  eexists. split; [vm_compute; reflexivity|].
  refine (proj2 (proj2 (C4_cancelled_result demo_motor) 10
                   (Some cancel_at_second_call) (Cancelled 2) _ _)).
  vm_compute; reflexivity.
Defined.

(** C4 fails as stated: the demo motor has a port smaller than its
    throat, line 174 adds a WARNING before the loop, and the cancelled
    result carries it. *)
Lemma C4_cancelled_result_carries_warning :
  exists res : simulationResult,
    runSimulation 10 demo_motor (Some cancel_at_second_call)
    = Some (Ok (Cancelled 2, res))
    /\ success res = false
    /\ map level (alerts res) = [WARNING]
    /\ alerts res <> [].
Proof.
  eexists. split; [vm_compute; reflexivity|].
  split; [reflexivity|]. split; [reflexivity | discriminate].
Qed.

(** C5 on the exact motor. *)
Lemma C5_ideal_pressure_formula_witness :
  calcIdealPressure exact_motor [qc 0] None (Q2Qc (1 # 2))
  = Ok (idealPressure_spec (KN_spec exact_motor [qc 0] (Q2Qc (1 # 2)))
          (qc 1000) (qc 1) (qc 0) (qc 3) (qc 3) (qc 8314))
  /\ calcKN exact_motor [qc 0] (Q2Qc (1 # 2))
     = KN_spec exact_motor [qc 0] (Q2Qc (1 # 2)).
Proof.
  destruct (C5_ideal_pressure_formula exact_motor exact_propellant [qc 0]
              None (Q2Qc (1 # 2)) eq_refl) as [Hformula HKN].
  specialize (HKN Qc_NumExact). split; [|exact HKN].
  rewrite <- HKN. exact Hformula.
Defined.

(** C6 on doubles: a chamber pressure of 0 gives 0; the thrust of the demo
    motor at ignition is non-negative; and the NaN thrust of the
    overexpanded motor comes back as 0. *)
Lemma C6_calcForce_witness :
  calcForce demo_motor [0%float] (Some 0%float) 100%float 0.5%float
  = Ok 0%float
  /\ (exists f, calcForce demo_motor [0%float] None 100%float 0.5%float = Ok f
                /\ nonnegative f)
  /\ (exists f, calcForce overexpanded_motor [0%float] None 100%float 0.5%float
                = Ok f /\ nonnegative f /\ f = 0%float).
Proof.
  pose proof (C6_calcForce_zero_or_nonnegative demo_motor
                [0%float] (Some 0%float) 100%float 0.5%float) as [Hzero _].
  pose proof (C6_calcForce_zero_or_nonnegative demo_motor
                [0%float] None 100%float 0.5%float) as [_ Hnonneg].
  pose proof (C6_calcForce_zero_or_nonnegative overexpanded_motor
                [0%float] None 100%float 0.5%float) as [_ Hnan].
  split; [|split].
  - apply (Hzero 0%float); reflexivity.
  - eexists. split; [vm_compute; reflexivity|].
    apply (Hnonneg float_NumOrder). vm_compute; reflexivity.
  - eexists. split; [vm_compute; reflexivity|]. split; [|reflexivity].
    apply (Hnan float_NumOrder). vm_compute; reflexivity.
Defined.


(** C8 as the spec states it fails for motors that pass the validation
    of [runSimulation].  With a negative burn rate coefficient the
    regression of the grain falls from 0 in the first step, and in the
    result the total mass grows from sample 2 to sample 3.  With a slab of
    negative length, spent from the start, the total mass grows from the
    seeds, 4 - 1, to the first sample of the loop, 4 + 0.  Both runs are
    stopped by the callback at its second call and carry no alert. *)
Lemma C8_validated_motor_gains_mass :
  (exists (simRes simRes' : simulationResult) r',
      at_loop_head receding_motor simRes [0%float]
      /\ burn_step receding_motor 0.0625%float (-1)%float 0.5%float 1%float
           (getProperty (config receding_motor) "ambPressure")
           0.0009765625%float simRes [0%float]
         = Ok (simRes', [r'])
      /\ (r' <? 0)%float = true)
  /\ (exists (res : simulationResult) m2 m3,
         runSimulation 6 receding_motor (Some cancel_at_second_call)
         = Some (Ok (Cancelled 2, res))
         /\ alerts res = []
         /\ ch_mass res !! 2%nat = Some m2 /\ ch_mass res !! 3%nat = Some m3
         /\ (pysum m2 <? pysum m3)%float = true)
  /\ (exists res : simulationResult,
         runSimulation 6 negative_length_motor (Some cancel_at_second_call)
         = Some (Ok (Cancelled 2, res))
         /\ alerts res = []
         /\ ch_mass res !! 1%nat = Some [4; -1]%float
         /\ ch_mass res !! 2%nat = Some [4; 0]%float
         /\ (pysum [4; -1] <? pysum [4; 0])%float = true).
Proof.
  split; [|split].
  - do 3 eexists. split; [|split].
    + eapply (at_ignition receding_motor).
      * reflexivity.
      * reflexivity.
      * vm_compute; reflexivity.
      * vm_compute; reflexivity.
    + vm_compute; reflexivity.
    + vm_compute; reflexivity.
  - do 3 eexists. split; [vm_compute; reflexivity|].
    split; [reflexivity|]. split; [reflexivity|]. split; [reflexivity|].
    vm_compute; reflexivity.
  - eexists. split; [vm_compute; reflexivity|].
    repeat split; vm_compute; reflexivity.
Qed.

(** C8 on the demo motor, on doubles.  No regression decreases in the
    first pass of its loop, from regression 0 to regression 1; in the
    result of its run the total mass goes 3000, 3000, 3000, 2000, 1000 and
    never grows. *)
Lemma C8_regression_and_mass_monotone_witness :
  (exists (simRes simRes' : simulationResult),
      at_loop_head demo_motor simRes [0%float]
      /\ burn_step demo_motor 1%float 1%float 0%float 1000%float 100%float
           0.5%float simRes [0%float]
         = Ok (simRes', [1%float])
      /\ Forall2 nle [0%float] [1%float])
  /\ exists res : simulationResult,
      runSimulation 10 demo_motor None = Some (Ok (Burnout, res))
      /\ map pysum (ch_mass res) = [3000; 3000; 3000; 2000; 1000]%float
      /\ total_mass_nonincreasing (ch_mass res).
Proof.
  pose proof (C8_regression_and_mass_monotone (mono:=float_NumMonotone)
                demo_motor demo_motor_well_posed) as (Hregs & _ & Hrun).
  split.
  - assert (H : exists simRes simRes' : simulationResult,
               at_loop_head demo_motor simRes [0%float]
               /\ burn_step demo_motor 1%float 1%float 0%float 1000%float
                    100%float 0.5%float simRes [0%float]
                  = Ok (simRes', [1%float])).
    { eexists _, _. split.
      - eapply (at_ignition demo_motor demo_propellant);
          [reflexivity | reflexivity | vm_compute; reflexivity
          | vm_compute; reflexivity].
      - vm_compute. reflexivity. }
    destruct H as (simRes & simRes' & Hat & Hstep).
    exists simRes, simRes'. split; [exact Hat|]. split; [exact Hstep|].
    exact (Hregs demo_propellant simRes simRes' _ _ Hat eq_refl Hstep).
  - eexists. split; [vm_compute; reflexivity|]. split; [vm_compute; reflexivity|].
    refine (Hrun 10 None Burnout _ _). vm_compute; reflexivity.
Defined.

(** C9 on the demo motor. *)
Lemma C9_channels_have_equal_length_witness :
  exists (res : simulationResult) n,
    runSimulation 10 demo_motor None = Some (Ok (Burnout, res))
    /\ samples n res /\ (2 <= n)%nat.
Proof.
  assert (exists res, runSimulation 10 demo_motor None
                      = Some (Ok (Burnout, res))) as [res Hrun]
    by (eexists; vm_compute; reflexivity).
  destruct (proj2 (proj2 (C9_channels_have_equal_length demo_motor))
              10 None Burnout res Hrun) as (n & Hn & Hn2).
  exists res, n. split; [exact Hrun|]. split; [exact Hn | exact Hn2].
Defined.

(** * Further properties of the engine *)

Section EngineSafety.
Context {F : Type} {num : Num F}.
Context {props N P C G : Type}.
Context {nozzleI : Nozzle F props N} {propellantI : Propellant F props P}.
Context {configI : Config F props C} {grainI : Grain F props C G}.
Local Open Scope num_scope.

Local Abbreviation simRes_t := (@simulationResult F).
Local Abbreviation motor_t := (@motor N P C G).

Ltac inv_bind H :=
  let a := fresh "a" in
  let Ha := fresh "H" a in
  apply bind_Ok in H; destruct H as (a & Ha & H).

(** ** No exception out of the engine's own accesses *)

Lemma getLast_Ok {A} (data : list A) :
  data <> [] -> exists x, getLast data = Ok x /\ x ∈ data.
Proof.
  intros Hne. unfold getLast, getitem_last.
  destruct (last data) as [x|] eqn:Hlast.
  - exists x. split; [reflexivity|].
    rewrite last_lookup in Hlast. by eapply list_elem_of_lookup_2.
  - by apply last_None in Hlast.
Qed.

Lemma loop_test_Ok thr (force : list F) :
  force <> [] -> exists b, loop_test thr force = Ok b.
Proof.
  intros Hne. unfold loop_test.
  destruct (getLast_Ok force Hne) as (x & -> & _). cbn [bind].
  destruct force as [|y force]; [done|]. cbn. eauto.
Qed.

Lemma sweep_spec_length ts ballA ballN density thres pressure mf0
    (gs : list G) (regs lastMass : list F) :
  length regs = length gs -> length lastMass = length gs ->
  length (sweep_spec ts ballA ballN density thres pressure mf0 gs regs lastMass)
  = length gs.
Proof.
  revert mf0 regs lastMass.
  induction gs as [|g gs IH]; intros mf0 [|r regs] [|old lastMass] Hr Hl;
    try done.
  cbn [sweep_spec]. injection Hr as Hr. injection Hl as Hl.
  destruct (getWebLeft g r >? thres); cbn [length]; by rewrite IH.
Qed.

Lemma samples_nonempty n (simRes : simRes_t) :
  samples n simRes -> (1 <= n)%nat ->
  ch_time simRes <> [] /\ ch_kn simRes <> [] /\ ch_pressure simRes <> []
  /\ ch_force simRes <> [] /\ ch_mass simRes <> []
  /\ ch_massFlow simRes <> [] /\ ch_massFlux simRes <> [].
Proof.
  intros (H1 & H2 & H3 & H4 & H5 & H6 & H7) Hn.
  repeat split; intros Hnil; rewrite Hnil in *; cbn in *; lia.
Qed.

Lemma calcIdealPressure_Ok (self : motor_t) r kn thres :
  propellant self <> None -> exists p, calcIdealPressure self r kn thres = Ok p.
Proof.
  intros Hp. unfold calcIdealPressure, propellant_getProperty.
  destruct (propellant self); [|done]. cbn [bind]. eauto.
Qed.

Lemma calcForce_Ok (self : motor_t) r casePressure amb thres :
  propellant self <> None ->
  exists f, calcForce self r casePressure amb thres = Ok f.
Proof.
  intros Hp. unfold calcForce.
  destruct (calcIdealPressure_Ok self r None thres Hp) as (pc & Hpc).
  unfold propellant_getProperty.
  destruct (propellant self); [|done]. cbn [bind].
  destruct casePressure as [pr|]; [|rewrite Hpc]; cbn [bind];
    match goal with |- context [if ?b then _ else _] => destruct b end; eauto.
Qed.

(** Under the invariant a pass of the loop body goes through, and the
    invariant holds again after it. *)
Lemma burn_step_Ok (self : motor_t) ts ballA ballN density amb thres
    (simRes : simRes_t) regs :
  sizes_inv self simRes regs ->
  exists simRes' regs',
    burn_step self ts ballA ballN density amb thres simRes regs
    = Ok (simRes', regs')
    /\ sizes_inv self simRes' regs'.
Proof.
  intros (Hg & Hp & Hregs & (n & Hn & Hn2) & Hmass & Hflow & Hflux).
  destruct (samples_nonempty n simRes Hn ltac:(lia))
    as (Ht & _ & Hpr & _ & Hm & _ & _).
  destruct (getLast_Ok _ Hpr) as (pressure & Hpressure & _).
  destruct (getLast_Ok _ Hm) as (lastMass & HlastMass & Hin).
  destruct (getLast_Ok _ Ht) as (t & Htime & _).
  assert (Hlm : length lastMass = length (grains self)).
  { by apply (proj1 (Forall_forall _ _) Hmass). }
  pose proof (sweep_eq self simRes ts ballA ballN density thres regs pressure
                lastMass Hpressure HlastMass Hregs Hlm) as Hsweep.
  cbn zeta in Hsweep.
  pose proof (sweep_spec_length ts ballA ballN density thres pressure (of_Z 0)
                (grains self) regs lastMass Hregs Hlm) as Hlen.
  set (out := sweep_spec ts ballA ballN density thres pressure (of_Z 0)
                (grains self) regs lastMass) in *.
  destruct (calcIdealPressure_Ok self (map gs_reg out)
              (Some (calcKN self (map gs_reg out) thres)) thres Hp)
    as (pressure' & Hpressure').
  destruct (calcForce_Ok self (map gs_reg out) (Some pressure') amb thres Hp)
    as (force' & Hforce').
  unfold burn_step. rewrite Hsweep. cbn [bind perGrainReg perGrainMass
    perGrainMassFlow perGrainMassFlux].
  destruct simRes as [tm kn pr fo ma fl fx su al].
  cbv [with_time with_kn with_pressure with_force with_mass with_massFlow
       with_massFlux ch_time ch_kn ch_pressure ch_force ch_mass ch_massFlow
       ch_massFlux success alerts] in *.
  rewrite getLast_addData. cbn [bind]. rewrite Hpressure'. cbn [bind].
  rewrite getLast_addData. cbn [bind]. rewrite Hforce'. cbn [bind].
  rewrite Htime. cbn [bind].
  eexists _, _. split; [reflexivity|].
  unfold sizes_inv.
  cbn [ch_time ch_kn ch_pressure ch_force ch_mass ch_massFlow ch_massFlux].
  repeat split; try done.
  - by rewrite length_map.
  - exists (S n). destruct Hn as (H1 & H2 & H3 & H4 & H5 & H6 & H7).
    unfold samples in *; cbn in *. rewrite !length_addData.
    repeat split; (congruence || lia).
  - unfold addData. apply Forall_app. split; [done|].
    constructor; [by rewrite length_map | constructor].
  - unfold addData. apply Forall_app. split; [done|].
    constructor; [by rewrite length_map | constructor].
  - unfold addData. apply Forall_app. split; [done|].
    constructor; [by rewrite length_map | constructor].
Qed.

Lemma progress_Ok (self : motor_t) (regs : list F) :
  grains self <> [] -> length regs = length (grains self) ->
  exists pr, progress self regs = Ok pr.
Proof.
  intros Hg Hlen. unfold progress.
  destruct (grains self) as [|g gs]; [done|].
  destruct regs as [|r regs]; [done|]. cbn. eauto.
Qed.

Lemma burnout_Ok (self : motor_t) (simRes : simRes_t) regs :
  sizes_inv self simRes regs ->
  exists res, burnout self simRes = Ok (Burnout, res).
Proof.
  intros (Hg & Hp & Hregs & (n & Hn & Hn2) & Hmass & Hflow & Hflux).
  destruct (samples_nonempty n simRes Hn ltac:(lia))
    as (_ & _ & Hpr & _ & _ & _ & Hfx).
  unfold burnout, getPeakMassFlux_res, getMaxPressure, getMax.
  destruct simRes as [tm kn pr fo ma fl fx su al].
  cbv [with_success ch_pressure ch_massFlux] in *.
  destruct fx as [|m fx]; [done|].
  apply Forall_cons in Hflux as [Hm _].
  destruct m as [|x m]; [by destruct (grains self)|].
  cbn [concat app pymax bind].
  match goal with |- context [if ?b then _ else _] => destruct b end;
    cbv [addAlert ch_pressure];
    (destruct pr as [|y pr]; [done|]); cbn [pymax bind]; eauto.
Qed.

(** A motor that passed the validation has a grain and a propellant. *)
Lemma validate_passed (self : motor_t) :
  getAlertsByLevel ERROR (validate self) = [] ->
  grains self <> [] /\ propellant self <> None.
Proof.
  rewrite errors_of_validate. unfold validation_alerts. intros Herr. split.
  - intros Hnil. rewrite Hnil in Herr. cbn [length Nat.eqb app] in Herr.
    by rewrite filter_cons_True in Herr.
  - intros Hnone. rewrite Hnone, !filter_app in Herr.
    apply app_eq_nil in Herr as [_ Herr].
    apply app_eq_nil in Herr as [_ Herr].
    apply app_eq_nil in Herr as [_ Herr].
    by rewrite filter_cons_True in Herr.
Qed.

Lemma ignite_Ok (self : motor_t) density ts amb thres (simRes : simRes_t) :
  propellant self <> None ->
  exists simRes' regs, ignite self density ts amb thres simRes = Ok (simRes', regs).
Proof.
  intros Hp. unfold ignite.
  destruct (calcIdealPressure_Ok self (map (fun _ => of_Z 0) (grains self))
              None thres Hp) as (pr & ->).
  destruct (calcForce_Ok self (map (fun _ => of_Z 0) (grains self))
              None amb thres Hp) as (f & ->).
  cbn [bind]. eauto.
Qed.

Lemma check_port_Ok (self : motor_t) (simRes : simRes_t) :
  grains self <> [] -> exists simRes', check_port self simRes = Ok simRes'.
Proof.
  intros Hg. unfold check_port.
  destruct (getLast_Ok (grains self) Hg) as (aft & Haft & _).
  unfold getLast in Haft. rewrite Haft. cbn [bind].
  destruct (getPortArea aft (of_Z 0)); [|eauto].
  match goal with |- context [if ?b then _ else _] => destruct b end; eauto.
Qed.

(** The invariant holds when the loop is entered. *)
Lemma sizes_inv_ignition (self : motor_t) density ts amb thres
    (simRes simRes0 simRes1 : simRes_t) regs :
  grains self <> [] -> propellant self <> None ->
  samples 0 simRes ->
  ignite self density ts amb thres simRes = Ok (simRes0, regs) ->
  check_port self simRes0 = Ok simRes1 ->
  sizes_inv self simRes1 regs.
Proof.
  intros Hg Hp H0 Hig Hport.
  apply ignite_inv in Hig as (pr & f & -> & _ & _ & ->).
  apply check_port_inv in Hport as (_ & l & -> & _).
  destruct simRes as [tm kn pc fo ma fl fx su al].
  destruct H0 as (H1 & H2 & H3 & H4 & H5 & H6 & H7). cbn in *.
  apply nil_length_inv in H1, H2, H3, H4, H5, H6, H7. subst.
  unfold sizes_inv.
  cbn [add_alerts ch_time ch_kn ch_pressure ch_force ch_mass ch_massFlow
       ch_massFlux].
  repeat split; try done.
  - by rewrite length_map.
  - exists 2%nat. unfold samples. cbn. repeat split; lia.
  - cbn. repeat constructor; by rewrite length_map.
  - cbn. repeat constructor; by rewrite length_map.
  - cbn. repeat constructor; by rewrite length_map.
Qed.

Lemma setup_grains_nonempty (self : motor_t) :
  grains self <> [] -> grains (setup_grains self) <> [].
Proof. cbn. by destruct (grains self). Qed.

Lemma samples_validate (self : motor_t) : samples 0 (validate self).
Proof. rewrite validate_alerts. by repeat split. Qed.

(** And at every state in which a run evaluates the test of its loop. *)
Lemma at_loop_head_sizes_inv (self : motor_t) (simRes : simRes_t) regs :
  at_loop_head self simRes regs ->
  sizes_inv (setup_grains self) simRes regs.
Proof.
  induction 1 as [p r0 r1 regs Herr Hp Hig Hport
                 |p simRes regs simRes' regs' _ IH Hp _ Hstep].
  - destruct (validate_passed self Herr) as (Hg & Hp').
    eapply sizes_inv_ignition; [| |apply samples_validate|exact Hig|exact Hport].
    + by apply setup_grains_nonempty.
    + done.
  - destruct (burn_step_Ok (setup_grains self)
                (getProperty (config self) "timestep")
                (getProperty p "a") (getProperty p "n")
                (getProperty p "density")
                (getProperty (config self) "ambPressure")
                (getProperty (config self) "burnoutWebThres") simRes regs IH)
      as (r' & regs'' & Heq & Hinv).
    rewrite Hstep in Heq. by injection Heq as <- <-.
Qed.

Lemma simulation_loop_no_raise fuel (self : motor_t) callback
    ts ballA ballN density amb thres thr (simRes : simRes_t) regs calls e :
  sizes_inv self simRes regs ->
  simulation_loop fuel self callback ts ballA ballN density amb thres thr
    simRes regs calls <> Some (Raise e).
Proof.
  revert simRes regs calls.
  induction fuel as [|fuel IH]; intros simRes regs calls Hinv; [done|].
  cbn [simulation_loop].
  pose proof Hinv as (Hg & Hp & Hregs & (n & Hn & Hn2) & _).
  destruct (samples_nonempty n simRes Hn ltac:(lia))
    as (_ & _ & _ & Hfo & _).
  destruct (loop_test_Ok thr _ Hfo) as ([|] & ->).
  - destruct (burn_step_Ok self ts ballA ballN density amb thres simRes regs
                Hinv) as (simRes' & regs' & -> & Hinv').
    destruct callback as [cb|]; [|by apply IH].
    destruct (progress_Ok self regs') as (pr & ->);
      [done | apply Hinv' |].
    destruct (cb _); [done | by apply IH].
  - destruct (burnout_Ok self simRes regs Hinv) as (res & ->). done.
Qed.

Lemma runSimulation_no_raise fuel (self : motor_t)
    (callback : option (callback_fn (F:=F))) e :
  runSimulation fuel self callback <> Some (Raise e).
Proof.
  unfold runSimulation.
  destruct (getAlertsByLevel ERROR (validate self)) as [|a l] eqn:Herr;
    cbn [length Nat.ltb Nat.leb]; [|done].
  destruct (validate_passed self Herr) as (Hg & Hp).
  unfold propellant_getProperty.
  destruct (propellant self) as [p|] eqn:Hprop; [|done]. cbn [bind].
  assert (Hg' : grains (setup_grains self) <> []).
  { cbn. by destruct (grains self). }
  assert (Hp' : propellant (setup_grains self) <> None)
    by (cbn; by rewrite Hprop).
  destruct (ignite_Ok (setup_grains self) (getProperty p "density")
              (getProperty (config self) "timestep")
              (getProperty (config self) "ambPressure")
              (getProperty (config self) "burnoutWebThres")
              (validate self) Hp') as (simRes0 & regs & Hig).
  rewrite Hig. cbn [bind fst snd].
  destruct (check_port_Ok (setup_grains self) simRes0 Hg') as (simRes1 & Hport).
  rewrite Hport. cbn [bind].
  apply simulation_loop_no_raise.
  by eapply sizes_inv_ignition; [| |apply samples_validate|exact Hig|exact Hport].
Qed.

(** X1.  [runSimulation] raises none of the exceptions of its own
    accesses: no IndexError out of [self.grains[-1]], of the per-grain
    lists or of [getLast], no ValueError out of [max] or [getMax], no
    AttributeError out of the propellant, no KeyError.  A run that has
    stopped has returned a result.  (The arithmetic of the engine's model
    is total, and the collaborators do not raise: the ZeroDivisionError of
    a division of Python floats is outside this statement.) *)
Theorem X1_runSimulation_never_raises fuel (self : motor_t)
    (callback : option (callback_fn (F:=F))) :
  runSimulation fuel self callback <> Some (Raise IndexError)
  /\ runSimulation fuel self callback <> Some (Raise ValueError)
  /\ runSimulation fuel self callback <> Some (Raise AttributeError)
  /\ runSimulation fuel self callback <> Some (Raise KeyError).
Proof. repeat split; apply runSimulation_no_raise. Qed.

(** ** The states of a run and its result *)

Lemma extends_refl (r : simRes_t) : extends r r.
Proof. by repeat split. Qed.

Lemma extends_trans (r1 r2 r3 : simRes_t) :
  extends r1 r2 -> extends r2 r3 -> extends r1 r3.
Proof.
  intros (A1 & A2 & A3 & A4 & A5 & A6 & A7 & A8)
         (B1 & B2 & B3 & B4 & B5 & B6 & B7 & B8).
  repeat split; by etrans.
Qed.

Lemma burn_step_extends (self : motor_t) ts ballA ballN density amb thres
    (simRes simRes' : simRes_t) regs regs' :
  burn_step self ts ballA ballN density amb thres simRes regs
  = Ok (simRes', regs') ->
  extends simRes simRes'.
Proof.
  intros H.
  apply burn_step_inv in H as (s & p & f & t & _ & _ & _ & _ & _ & ->).
  unfold extends, addData; cbn. repeat split; try done; by apply prefix_app_r.
Qed.

Lemma burnout_extends (self : motor_t) (simRes : simRes_t) e res :
  burnout self simRes = Ok (e, res) ->
  extends simRes res /\ same_channels simRes res.
Proof.
  intros H. apply burnout_inv in H as (_ & l & -> & _).
  split; repeat split; try done. cbn. by apply prefix_app_r.
Qed.

(** The result of a loop holds what the loop started with. *)
Lemma simulation_loop_extends fuel (self : motor_t) callback
    ts ballA ballN density amb thres thr (simRes : simRes_t) regs calls e res :
  simulation_loop fuel self callback ts ballA ballN density amb thres thr
    simRes regs calls = Some (Ok (e, res)) ->
  extends simRes res.
Proof.
  intros H.
  eapply (simulation_loop_inv _ _ _ _ _ _ _ _ _
            (fun r _ _ => extends simRes r)) in H.
  - destruct H as (r1 & regs1 & calls1 & Hext
                   & [(_ & _ & Hb) | (cb & pr & calls0 & _ & _ & _ & _ & _ & ->)]).
    + apply burnout_extends in Hb as [Hb _]. by eapply extends_trans.
    + done.
  - intros r regs0 calls0 r' regs' Hext _ Hstep.
    assert (Hnext : extends simRes r').
    { eapply extends_trans; [exact Hext|]. by eapply burn_step_extends. }
    destruct callback; [intros pr _|]; exact Hnext.
  - apply extends_refl.
Qed.

(** A run that got past the validation returns the samples of a state in
    which it evaluated the test of its loop; the alerts it has added since
    are WARNINGs. *)
Lemma runSimulation_loop_head fuel (self : motor_t) callback e (res : simRes_t) :
  runSimulation fuel self callback = Some (Ok (e, res)) ->
  e <> Rejected ->
  exists simRes regs,
    at_loop_head self simRes regs /\ same_channels simRes res
    /\ exists l, alerts res = alerts simRes ++ l
                 /\ Forall (fun a => level a = WARNING) l.
Proof.
  intros Hrun He.
  apply runSimulation_inv in Hrun
    as [(-> & _) | (Herr & p & r0 & r1 & regs & Hp & Hig & Hport & Hloop)];
    [done|].
  eapply (simulation_loop_inv _ _ _ _ _ _ _ _ _
            (fun simRes regs _ => at_loop_head self simRes regs)) in Hloop.
  - destruct Hloop as (r2 & regs2 & calls2 & Hat
                       & [(-> & _ & Hb) | (cb & pr & calls0 & _ & _ & _ & _ & -> & ->)]).
    + apply burnout_inv in Hb as (_ & l & -> & Hl).
      exists r2, regs2. split; [done|]. split; [by repeat split|].
      exists l. done.
    + exists r2, regs2. split; [done|]. split; [by repeat split|].
      exists []. by rewrite app_nil_r.
  - intros simRes regs' calls simRes' regs'' Hat Htest Hstep.
    assert (Hnext : at_loop_head self simRes' regs'')
      by (by eapply at_next_step).
    destruct callback; [intros pr _|]; exact Hnext.
  - by eapply at_ignition.
Qed.

(** ** The per-grain channels *)

(** X2.  In every result a run returns, each sample of the mass, mass
    flow and mass flux channels is a vector with one entry per grain of
    the motor. *)
Theorem X2_one_entry_per_grain fuel (self : motor_t)
    (callback : option (callback_fn (F:=F))) e (res : simRes_t) :
  runSimulation fuel self callback = Some (Ok (e, res)) ->
  Forall (fun m => length m = length (grains self)) (ch_mass res)
  /\ Forall (fun m => length m = length (grains self)) (ch_massFlow res)
  /\ Forall (fun m => length m = length (grains self)) (ch_massFlux res).
Proof.
  intros Hrun.
  assert (He : e = Rejected \/ e <> Rejected)
    by (destruct e; (by left) || (by right)).
  destruct He as [->|He].
  - apply runSimulation_outcomes in Hrun as [-> _].
    rewrite validate_alerts. by repeat split.
  - destruct (runSimulation_loop_head _ _ _ _ _ Hrun He)
      as (simRes & regs & Hat & Hsame & _).
    destruct Hsame as (_ & _ & _ & _ & <- & <- & <-).
    apply at_loop_head_sizes_inv in Hat
      as (_ & _ & _ & _ & Hmass & Hflow & Hflux).
    cbn [setup_grains grains] in *. rewrite length_map in *. done.
Qed.

(** ** The seed samples and the clock *)

(** Appending a sample keeps a relation between neighbours that the last
    sample and the new one are in. *)
Lemma neighbours_snoc {A} (R : A -> A -> Prop) (data : list A) old new :
  (forall i x y, (1 <= i)%nat -> data !! i = Some x -> data !! S i = Some y ->
                 R x y) ->
  getLast data = Ok old ->
  R old new ->
  forall i x y, (1 <= i)%nat -> addData new data !! i = Some x ->
                addData new data !! S i = Some y -> R x y.
Proof.
  intros Hdata Hold Hnew i x y Hi H1 H2. unfold addData in *.
  unfold getLast, getitem_last in Hold.
  destruct (last data) as [o|] eqn:Hlast; [|discriminate].
  injection Hold as ->. rewrite last_lookup in Hlast.
  pose proof (lookup_lt_Some _ _ _ Hlast) as Hlen.
  apply lookup_snoc_Some in H2 as [[Hlt H2] | [Heq ->]].
  - rewrite lookup_app_l in H1 by lia. by apply (Hdata i).
  - rewrite lookup_app_l in H1 by lia.
    replace i with (pred (length data)) in H1 by lia.
    congruence.
Qed.

(** Every state at the head of the loop holds the samples the ignition
    left. *)
Lemma at_loop_head_ignition (self : motor_t) (simRes : simRes_t) regs :
  at_loop_head self simRes regs ->
  exists p simRes0 simRes1 regs0,
    propellant self = Some p
    /\ ignite (setup_grains self) (getProperty p "density")
         (getProperty (config self) "timestep")
         (getProperty (config self) "ambPressure")
         (getProperty (config self) "burnoutWebThres") (validate self)
       = Ok (simRes0, regs0)
    /\ check_port (setup_grains self) simRes0 = Ok simRes1
    /\ extends simRes1 simRes.
Proof.
  induction 1 as [p r0 r1 regs Herr Hp Hig Hport
                 |p simRes regs simRes' regs' _ IH Hp _ Hstep].
  - exists p, r0, r1, regs.
    split; [done|]. split; [done|]. split; [done|]. apply extends_refl.
  - destruct IH as (p0 & r0 & r1 & regs0 & Hp0 & Hig & Hport & Hext).
    exists p0, r0, r1, regs0.
    split; [done|]. split; [done|]. split; [done|].
    eapply extends_trans; [exact Hext|]. by eapply burn_step_extends.
Qed.

Lemma at_loop_head_clock (self : motor_t) (simRes : simRes_t) regs :
  at_loop_head self simRes regs ->
  forall i t t', (1 <= i)%nat ->
    ch_time simRes !! i = Some t -> ch_time simRes !! S i = Some t' ->
    t' = t + getProperty (config self) "timestep".
Proof.
  induction 1 as [p r0 r1 regs Herr Hp Hig Hport
                 |p simRes regs simRes' regs' _ IH Hp _ Hstep].
  - apply ignite_inv in Hig as (pr & f & -> & _ & _ & ->).
    apply check_port_inv in Hport as (_ & l & -> & _).
    rewrite validate_alerts. cbn [add_alerts ch_time addData app].
    intros [|[|i]] t t' Hi H1 H2; try lia; discriminate.
  - apply burn_step_inv in Hstep as (s & pr & f & t & _ & _ & _ & _ & Ht & ->).
    cbn [ch_time].
    apply (neighbours_snoc
             (fun x y => y = x + getProperty (config self) "timestep")
             _ t); done.
Qed.

(** X3.  The clock of a run.  In every result of a run that got past the
    validation, the time channel starts with 0 and the timestep, and each
    later sample is the one before plus the timestep. *)
Theorem X3_time_channel fuel (self : motor_t)
    (callback : option (callback_fn (F:=F))) e (res : simRes_t) :
  runSimulation fuel self callback = Some (Ok (e, res)) ->
  e <> Rejected ->
  let ts := getProperty (config self) "timestep" in
  ch_time res !! 0%nat = Some (of_Z 0)
  /\ ch_time res !! 1%nat = Some ts
  /\ forall i t t', (1 <= i)%nat ->
       ch_time res !! i = Some t -> ch_time res !! S i = Some t' ->
       t' = t + ts.
Proof.
  intros Hrun He ts.
  destruct (runSimulation_loop_head _ _ _ _ _ Hrun He)
    as (simRes & regs & Hat & (<- & _) & _).
  split; [|split].
  - destruct (at_loop_head_ignition _ _ _ Hat)
      as (p & r0 & r1 & regs0 & _ & Hig & Hport & (Hext & _)).
    apply ignite_inv in Hig as (pr & f & _ & _ & _ & ->).
    apply check_port_inv in Hport as (_ & l & -> & _).
    rewrite validate_alerts in Hext. cbn [add_alerts ch_time] in Hext.
    eapply prefix_lookup_Some; [|exact Hext]. reflexivity.
  - destruct (at_loop_head_ignition _ _ _ Hat)
      as (p & r0 & r1 & regs0 & _ & Hig & Hport & (Hext & _)).
    apply ignite_inv in Hig as (pr & f & _ & _ & _ & ->).
    apply check_port_inv in Hport as (_ & l & -> & _).
    rewrite validate_alerts in Hext. cbn [add_alerts ch_time] in Hext.
    eapply prefix_lookup_Some; [|exact Hext]. reflexivity.
  - by apply (at_loop_head_clock _ _ _ Hat).
Qed.

(** X4.  The two seed samples.  In every result of a run that got past
    the validation, the first sample is the motor before ignition: KN,
    pressure and thrust 0, every grain at the mass of its volume at
    regression 0, no mass flow and no mass flux.  The second sample, at
    ignition, has the KN of the unburnt grains, and the same masses,
    flows and fluxes: no propellant has burnt yet. *)
Theorem X4_seed_samples fuel (self : motor_t)
    (callback : option (callback_fn (F:=F))) e (res : simRes_t) :
  runSimulation fuel self callback = Some (Ok (e, res)) ->
  e <> Rejected ->
  exists p, propellant self = Some p
  /\ let gs := grains (setup_grains self) in
     let mass0 := map (fun grain => getVolumeAtRegression grain (of_Z 0)
                                    * getProperty p "density") gs in
     let zeros := map (fun _ => of_Z 0) gs in
     ch_kn res !! 0%nat = Some (of_Z 0)
     /\ ch_pressure res !! 0%nat = Some (of_Z 0)
     /\ ch_force res !! 0%nat = Some (of_Z 0)
     /\ ch_kn res !! 1%nat
        = Some (calcKN (setup_grains self) zeros
                  (getProperty (config self) "burnoutWebThres"))
     /\ ch_mass res !! 0%nat = Some mass0 /\ ch_mass res !! 1%nat = Some mass0
     /\ ch_massFlow res !! 0%nat = Some zeros
     /\ ch_massFlow res !! 1%nat = Some zeros
     /\ ch_massFlux res !! 0%nat = Some zeros
     /\ ch_massFlux res !! 1%nat = Some zeros.
Proof.
  intros Hrun He.
  destruct (runSimulation_loop_head _ _ _ _ _ Hrun He)
    as (simRes & regs & Hat & (_ & <- & <- & <- & <- & <- & <-) & _).
  destruct (at_loop_head_ignition _ _ _ Hat)
    as (p & r0 & r1 & regs0 & Hp & Hig & Hport
        & (_ & Hkn & Hpr & Hfo & Hma & Hfl & Hfx & _)).
  exists p. split; [exact Hp|].
  apply ignite_inv in Hig as (pr & f & _ & _ & _ & ->).
  apply check_port_inv in Hport as (_ & l & -> & _).
  rewrite validate_alerts in *.
  cbn [add_alerts ch_kn ch_pressure ch_force ch_mass ch_massFlow ch_massFlux]
    in *.
  repeat split;
    match goal with
    | H : ?l1 `prefix_of` ?l2 |- ?l2 !! _ = Some _ =>
        eapply prefix_lookup_Some; [|exact H]; reflexivity
    end.
Qed.

(** ** Pressure and thrust follow KN *)

(** Leaving [kn] out is passing [calcKN]; leaving [casePressure] out is
    passing the ideal pressure. *)
Lemma calcIdealPressure_default (self : motor_t) r thres :
  calcIdealPressure self r None thres
  = calcIdealPressure self r (Some (calcKN self r thres)) thres.
Proof. reflexivity. Qed.

Lemma calcForce_default (self : motor_t) r amb thres :
  calcForce self r None amb thres
  = (pc <- calcIdealPressure self r None thres ;;
     calcForce self r (Some pc) amb thres).
Proof.
  unfold calcForce, calcIdealPressure, propellant_getProperty.
  destruct (propellant self); reflexivity.
Qed.

Lemma at_loop_head_follows_kn (self : motor_t) (simRes : simRes_t) regs :
  at_loop_head self simRes regs ->
  forall i kn_i, (1 <= i)%nat -> ch_kn simRes !! i = Some kn_i ->
    exists p_i f_i,
      ch_pressure simRes !! i = Some p_i /\ ch_force simRes !! i = Some f_i
      /\ (forall r thres, calcIdealPressure self r (Some kn_i) thres = Ok p_i)
      /\ (forall r thres,
             calcForce self r (Some p_i)
               (getProperty (config self) "ambPressure") thres = Ok f_i).
Proof.
  induction 1 as [p r0 r1 regs Herr Hp Hig Hport
                 |p simRes regs simRes' regs' Hat IH Hp _ Hstep].
  - apply ignite_inv in Hig as (pr & f & -> & Hpr & Hf & ->).
    apply check_port_inv in Hport as (_ & l & -> & _).
    rewrite validate_alerts.
    intros [|[|i]] kn_i Hi; [lia| |discriminate].
    cbn [add_alerts ch_kn ch_pressure ch_force addData app].
    intros [= <-]. exists pr, f. split; [done|]. split; [done|].
    rewrite calcForce_default, Hpr in Hf. cbn [bind] in Hf.
    rewrite calcIdealPressure_default in Hpr.
    split; intros r thres.
    + by rewrite <- Hpr.
    + by rewrite <- Hf.
  - pose proof (at_loop_head_sizes_inv _ _ _ Hat)
      as (_ & _ & _ & (n & (_ & Hkn & Hpc & Hfo & _) & _) & _).
    apply burn_step_inv in Hstep
      as (s & pr & f & t & _ & _ & Hpr & Hf & _ & ->).
    intros i kn_i Hi. cbn [ch_kn ch_pressure ch_force]. unfold addData.
    intros Hlook.
    apply lookup_snoc_Some in Hlook as [[Hlt Hlook] | [-> <-]].
    + destruct (IH i kn_i Hi Hlook) as (p_i & f_i & H1 & H2 & H3 & H4).
      exists p_i, f_i.
      split; [by apply lookup_app_l_Some|].
      split; [by apply lookup_app_l_Some|]. done.
    + exists pr, f.
      split.
      { rewrite Hkn, <- Hpc. by apply list_lookup_middle. }
      split.
      { rewrite Hkn, <- Hfo. by apply list_lookup_middle. }
      split; intros r thres.
      * by rewrite <- Hpr.
      * by rewrite <- Hf.
Qed.

(** X5.  In every result a run returns, from the ignition sample on, the
    pressure sample is the ideal pressure at the KN sample of the same
    index, and the force sample is [calcForce] at that pressure and the
    configured ambient pressure: the seed of the ignition, computed with
    the defaults of [kn] and [casePressure], obeys the same two formulas
    as the samples of the loop. *)
Theorem X5_pressure_and_force_follow_kn fuel (self : motor_t)
    (callback : option (callback_fn (F:=F))) e (res : simRes_t) :
  runSimulation fuel self callback = Some (Ok (e, res)) ->
  forall i kn_i, (1 <= i)%nat -> ch_kn res !! i = Some kn_i ->
    exists p_i f_i,
      ch_pressure res !! i = Some p_i /\ ch_force res !! i = Some f_i
      /\ (forall r thres, calcIdealPressure self r (Some kn_i) thres = Ok p_i)
      /\ (forall r thres,
             calcForce self r (Some p_i)
               (getProperty (config self) "ambPressure") thres = Ok f_i).
Proof.
  intros Hrun i kn_i Hi Hkn.
  assert (He : e = Rejected \/ e <> Rejected)
    by (destruct e; (by left) || (by right)).
  destruct He as [->|He].
  - apply runSimulation_outcomes in Hrun as [-> _].
    rewrite validate_alerts in Hkn. discriminate.
  - destruct (runSimulation_loop_head _ _ _ _ _ Hrun He)
      as (simRes & regs & Hat & (_ & Hk & Hp & Hf & _) & _).
    rewrite <- Hk in Hkn. rewrite <- Hp, <- Hf.
    exact (at_loop_head_follows_kn _ _ _ Hat i kn_i Hi Hkn).
Qed.

(** ** One sweep over the grains, grain by grain *)

Lemma lookup_map {A B} (f : A -> B) (l : list A) i :
  map f l !! i = f <$> l !! i.
Proof.
  revert i. induction l as [|x l IH]; intros [|i]; cbn; try done.
Qed.

(** The entry of grain [gid] in the recursion over the grains; [above] is
    the mass flow that reaches it. *)
Lemma sweep_spec_lookup ts ballA ballN density thres pressure :
  forall (gs : list G) (regs lastMass : list F) mf0 gid grain r old above,
    gs !! gid = Some grain -> regs !! gid = Some r ->
    lastMass !! gid = Some old ->
    match gid with
    | O => above = mf0
    | S j => gs_flow <$> sweep_spec ts ballA ballN density thres pressure
                           mf0 gs regs lastMass !! j = Some above
    end ->
    sweep_spec ts ballA ballN density thres pressure mf0 gs regs lastMass !! gid
    = Some (if getWebLeft grain r >? thres
            then let reg := ts * ballA * (pressure ** ballN) in
                 let mass := getVolumeAtRegression grain r * density in
                 GrainStep (r + reg) mass (above + (old - mass) / ts)
                   (getPeakMassFlux grain above ts r reg density)
            else GrainStep r (of_Z 0) above (of_Z 0)).
Proof.
  induction gs as [|g gs IH];
    intros [|r0 regs] [|old0 lastMass] mf0 gid grain r old above Hg Hr Hold;
    try done.
  destruct gid as [|gid].
  - cbn in Hg, Hr, Hold. injection Hg as ->. injection Hr as ->.
    injection Hold as ->. intros ->. cbn [sweep_spec].
    destruct (getWebLeft grain r >? thres); reflexivity.
  - cbn in Hg, Hr, Hold. cbn [sweep_spec].
    destruct (getWebLeft g r0 >? thres).
    + rewrite lookup_cons. intros Habove.
      apply IH; try done.
      destruct gid as [|j]; [|exact Habove].
      cbn in Habove. by injection Habove as <-.
    + rewrite lookup_cons. intros Habove.
      apply IH; try done.
      destruct gid as [|j]; [|exact Habove].
      cbn in Habove. by injection Habove as <-.
Qed.

(** X6.  One pass of the loop, grain by grain, forward to aft.  [above],
    the mass flow that reaches a grain, is 0 for the first grain and
    otherwise the entry of the grain before it in the new sample of the
    mass flow channel.  A grain whose web left exceeds the threshold
    regresses by [ts * a * pressure ** n], at the last pressure sample;
    its mass entry is its volume at the regression it had before the pass,
    times the density; its mass flux is [getPeakMassFlux] on [above]; and
    its mass flow is [above] plus the mass it lost since the last sample,
    over the timestep.  Any other grain keeps its regression, has 0 for
    mass and mass flux, and hands [above] on. *)
Theorem X6_sweep_grain_by_grain (self : motor_t) p
    (simRes simRes' : simRes_t) regs regs' pressure lastMass :
  at_loop_head self simRes regs ->
  propellant self = Some p ->
  let ts := getProperty (config self) "timestep" in
  let thres := getProperty (config self) "burnoutWebThres" in
  let density := getProperty p "density" in
  burn_step (setup_grains self) ts (getProperty p "a") (getProperty p "n")
    density (getProperty (config self) "ambPressure") thres simRes regs
  = Ok (simRes', regs') ->
  getLast (ch_pressure simRes) = Ok pressure ->
  getLast (ch_mass simRes) = Ok lastMass ->
  exists mass flow flux,
    getLast (ch_mass simRes') = Ok mass
    /\ getLast (ch_massFlow simRes') = Ok flow
    /\ getLast (ch_massFlux simRes') = Ok flux
    /\ forall gid grain r old above,
        grains (setup_grains self) !! gid = Some grain ->
        regs !! gid = Some r ->
        lastMass !! gid = Some old ->
        match gid with
        | O => above = of_Z 0
        | S j => flow !! j = Some above
        end ->
        let reg := ts * getProperty p "a" * (pressure ** getProperty p "n") in
        if getWebLeft grain r >? thres
        then regs' !! gid = Some (r + reg)
             /\ mass !! gid = Some (getVolumeAtRegression grain r * density)
             /\ flux !! gid
                = Some (getPeakMassFlux grain above ts r reg density)
             /\ flow !! gid
                = Some (above
                        + (old - getVolumeAtRegression grain r * density) / ts)
        else regs' !! gid = Some r
             /\ mass !! gid = Some (of_Z 0)
             /\ flux !! gid = Some (of_Z 0)
             /\ flow !! gid = Some above.
Proof.
  intros Hat Hp ts thres density Hstep Hpressure HlastMass.
  pose proof (at_loop_head_sizes_inv _ _ _ Hat)
    as (_ & _ & Hregs & (n & Hn & Hn2) & Hmass & _).
  destruct (samples_nonempty n simRes Hn ltac:(lia))
    as (_ & _ & _ & _ & Hm & _ & _).
  destruct (getLast_Ok _ Hm) as (lastMass' & HlastMass' & Hin).
  assert (lastMass' = lastMass) as -> by congruence.
  assert (Hlm : length lastMass = length (grains (setup_grains self))).
  { by apply (proj1 (Forall_forall _ _) Hmass). }
  apply burn_step_inv in Hstep
    as (s & pr & f & t & Hsweep & -> & _ & _ & _ & ->).
  rewrite (sweep_eq _ _ _ _ _ _ _ _ pressure lastMass) in Hsweep by done.
  cbn zeta in Hsweep. injection Hsweep as <-.
  cbn [ch_mass ch_massFlow ch_massFlux perGrainReg perGrainMass
       perGrainMassFlow perGrainMassFlux].
  eexists _, _, _. rewrite !getLast_addData.
  split; [reflexivity|]. split; [reflexivity|]. split; [reflexivity|].
  intros gid grain r old above Hg Hr Hold Habove. cbv zeta.
  assert (Habove' :
    match gid with
    | O => above = of_Z 0
    | S j => gs_flow <$> sweep_spec ts (getProperty p "a") (getProperty p "n")
                           density thres pressure (of_Z 0)
                           (grains (setup_grains self)) regs lastMass !! j
             = Some above
    end).
  { destruct gid as [|j]; [done|]. by rewrite <- lookup_map. }
  pose proof (sweep_spec_lookup ts (getProperty p "a") (getProperty p "n")
                density thres pressure _ _ _ _ gid grain r old above
                Hg Hr Hold Habove') as Hout.
  rewrite !lookup_map. cbn [grains setup_grains] in Hout. rewrite Hout.
  destruct (getWebLeft grain r >? thres); done.
Qed.

(** ** The validation (lines 116-135) *)

Lemma elem_of_enumerate_from {A} (l : list A) n i x :
  (i, x) ∈ enumerate_from n l <-> exists j, i = (n + j)%nat /\ l !! j = Some x.
Proof.
  revert n. induction l as [|y l IH]; intros n; cbn [enumerate_from].
  - split; [by intros ?%elem_of_nil | by intros (j & _ & ?)].
  - rewrite elem_of_cons, IH. split.
    + intros [[= -> ->] | (j & -> & Hj)].
      * exists 0%nat. split; [lia | done].
      * exists (S j). split; [lia | done].
    + intros ([|j] & -> & Hj).
      * left. cbn in Hj. injection Hj as ->. f_equal. lia.
      * right. exists j. split; [lia | done].
Qed.

Lemma elem_of_enumerate {A} (l : list A) i x :
  (i, x) ∈ enumerate l <-> l !! i = Some x.
Proof.
  unfold enumerate. rewrite elem_of_enumerate_from. split.
  - by intros (j & -> & Hj).
  - intros Hi. by exists i.
Qed.

Lemma elem_of_flat_map {A B} (f : A -> list B) (l : list A) y :
  y ∈ flat_map f l <-> exists x, x ∈ l /\ y ∈ f x.
Proof.
  rewrite list_elem_of_In, in_flat_map. split.
  - intros (x & Hx & Hy). exists x. by rewrite !list_elem_of_In.
  - intros (x & Hx & Hy). exists x. by rewrite <- !list_elem_of_In.
Qed.

Lemma filter_nonempty {A} (Q : A -> Prop) `{!forall x, Decision (Q x)}
    (l : list A) :
  filter Q l <> [] <-> exists x, x ∈ l /\ Q x.
Proof.
  split.
  - intros Hne. destruct (filter Q l) as [|x l'] eqn:Hf; [done|].
    assert (Hin : x ∈ filter Q l) by (rewrite Hf; by left).
    apply list_elem_of_filter in Hin as [HQ Hin]. by exists x.
  - intros (x & Hx & HQ) Hnil.
    assert (Hin : x ∈ filter Q l) by (by apply list_elem_of_filter).
    rewrite Hnil in Hin. by apply elem_of_nil in Hin.
Qed.

(** The alerts of the validation, by where they come from. *)
Lemma elem_of_validation_alerts (self : motor_t) a :
  a ∈ validation_alerts self
  <-> (grains self = [] /\ a = no_grain_alert)
      \/ (exists gid grain, grains self !! gid = Some grain
                            /\ a ∈ grain_alerts (gid, grain))
      \/ a ∈ getGeometryErrors (nozzle self)
      \/ (propellant self = None /\ a = no_propellant_alert).
Proof.
  unfold validation_alerts.
  rewrite !elem_of_app, elem_of_flat_map.
  assert (H1 : a ∈ (if (length (grains self) =? 0)%nat
                    then [no_grain_alert] else [])
               <-> grains self = [] /\ a = no_grain_alert).
  { destruct (grains self) as [|g gs]; cbn.
    - rewrite list_elem_of_singleton. split; [by intros -> | by intros [_ ->]].
    - rewrite elem_of_nil. split; [done | by intros [? _]]. }
  assert (H2 : a ∈ match propellant self with
                   | Some _ => []
                   | None => [no_propellant_alert]
                   end
               <-> propellant self = None /\ a = no_propellant_alert).
  { destruct (propellant self); cbn.
    - rewrite elem_of_nil. split; [done | by intros [? _]].
    - rewrite list_elem_of_singleton. split; [by intros -> | by intros [_ ->]]. }
  rewrite H1, H2. split.
  - intros [?|[([gid g] & Hin & Ha)|[?|?]]]; eauto.
    apply elem_of_enumerate in Hin. eauto 10.
  - intros [?|[(gid & g & Hin & Ha)|[?|?]]]; eauto.
    right. left. exists (gid, g). by rewrite elem_of_enumerate.
Qed.

(** X7.  What the validation rejects.  [runSimulation] returns from line
    135, with the result of the validation, exactly for a motor that has
    no grain, or no propellant, or an end-burning grain that is not the
    first, or a grain or a nozzle reporting an alert of level ERROR. *)
Theorem X7_rejected_iff (self : motor_t) :
  let faulty :=
    grains self = [] \/ propellant self = None
    \/ (exists gid grain, grains self !! gid = Some grain
                          /\ isEndBurningGrain grain = true /\ gid <> 0%nat)
    \/ (exists grain a, grain ∈ grains self
                        /\ a ∈ getGeometryErrors grain /\ level a = ERROR)
    \/ (exists a, a ∈ getGeometryErrors (nozzle self) /\ level a = ERROR) in
  (faulty ->
   forall fuel (callback : option (callback_fn (F:=F))),
     runSimulation fuel self callback = Some (Ok (Rejected, validate self)))
  /\ (forall fuel (callback : option (callback_fn (F:=F))) (res : simRes_t),
         runSimulation fuel self callback = Some (Ok (Rejected, res)) ->
         faulty).
Proof.
  intros faulty. split.
  - intros Hfaulty fuel callback. apply runSimulation_rejected.
    rewrite errors_of_validate. apply filter_nonempty.
    destruct Hfaulty as [Hg|[Hp|[(gid & g & Hg & Hend & Hgid)
                        |[(g & a & Hg & Ha & Hlvl)|(a & Ha & Hlvl)]]]].
    + exists no_grain_alert. split; [|done].
      apply elem_of_validation_alerts. by left.
    + exists no_propellant_alert. split; [|done].
      apply elem_of_validation_alerts. by right; right; right.
    + eexists (SimAlert ERROR CONSTRAINT _ _). split; [|done].
      apply elem_of_validation_alerts. right; left. exists gid, g.
      split; [done|]. unfold grain_alerts. rewrite Hend.
      destruct gid as [|gid]; [done|]. cbn [Nat.eqb negb andb].
      apply elem_of_app. left. by apply list_elem_of_singleton.
    + apply list_elem_of_lookup in Hg as (gid & Hg).
      exists (set_location ("Grain " +:+ pretty (gid + 1)%nat) a).
      split; [|done].
      apply elem_of_validation_alerts. right; left. exists gid, g.
      split; [done|]. unfold grain_alerts. apply elem_of_app. right.
      by apply list_elem_of_fmap_2.
    + exists a. split; [|done].
      apply elem_of_validation_alerts. by right; right; left.
  - intros fuel callback res Hrun.
    apply runSimulation_outcomes in Hrun as [-> Herr].
    rewrite errors_of_validate in Herr.
    apply filter_nonempty in Herr as (a & Ha & Hlvl).
    apply elem_of_validation_alerts in Ha
      as [[Hg _]|[(gid & g & Hg & Ha)|[Hn|[Hp _]]]].
    + by left.
    + unfold grain_alerts in Ha. apply elem_of_app in Ha as [Ha|Ha].
      * destruct (isEndBurningGrain g) eqn:Hend;
          [|by apply elem_of_nil in Ha].
        destruct gid as [|gid]; [by apply elem_of_nil in Ha|].
        right; right; left. exists (S gid), g. done.
      * apply list_elem_of_fmap in Ha as (a0 & -> & Ha0).
        right; right; right; left. exists g, a0.
        split; [by eapply list_elem_of_lookup_2|]. done.
    + right; right; right; right. by exists a.
    + by right; left.
Qed.

(** The alerts of the validation stay in the result, ahead of any other. *)
Lemma runSimulation_alerts_prefix fuel (self : motor_t) callback e
    (res : simRes_t) :
  runSimulation fuel self callback = Some (Ok (e, res)) ->
  validation_alerts self `prefix_of` alerts res.
Proof.
  intros Hrun.
  assert (He : e = Rejected \/ e <> Rejected)
    by (destruct e; (by left) || (by right)).
  destruct He as [->|He].
  - apply runSimulation_outcomes in Hrun as [-> _].
    by rewrite validate_alerts.
  - destruct (runSimulation_loop_head _ _ _ _ _ Hrun He)
      as (simRes & regs & Hat & _ & l & -> & _).
    destruct (at_loop_head_ignition _ _ _ Hat)
      as (p & r0 & r1 & regs0 & _ & Hig & Hport & Hext).
    destruct Hext as (_ & _ & _ & _ & _ & _ & _ & Hal).
    apply ignite_inv in Hig as (pr & f & _ & _ & _ & ->).
    apply check_port_inv in Hport as (_ & l' & -> & _).
    rewrite validate_alerts in Hal. cbn [add_alerts alerts] in Hal.
    apply prefix_app_r. etrans; [|exact Hal]. by exists l'.
Qed.

(** X8.  Where the alerts of a grain go.  Every alert that the grain of
    index [gid] reports is in the result of the run, with its level, type
    and description, located at "Grain " and the number [gid + 1]; and an
    end-burning grain that is not the first gets the run rejected, with an
    ERROR located the same way. *)
Theorem X8_grain_alerts_located fuel (self : motor_t)
    (callback : option (callback_fn (F:=F))) e (res : simRes_t) :
  runSimulation fuel self callback = Some (Ok (e, res)) ->
  forall gid grain, grains self !! gid = Some grain ->
    (forall a, a ∈ getGeometryErrors grain ->
       SimAlert (level a) (type a) (description a)
         ("Grain " +:+ pretty (gid + 1)%nat) ∈ alerts res)
    /\ (isEndBurningGrain grain = true -> gid <> 0%nat ->
        e = Rejected
        /\ SimAlert ERROR CONSTRAINT
             "End burning grains must be the forward-most grain in the motor"
             ("Grain " +:+ pretty (gid + 1)%nat) ∈ alerts res).
Proof.
  intros Hrun gid grain Hg.
  pose proof (runSimulation_alerts_prefix _ _ _ _ _ Hrun) as [l Hal].
  split.
  - intros a Ha. rewrite Hal. apply elem_of_app. left.
    apply elem_of_validation_alerts. right; left. exists gid, grain.
    split; [done|]. unfold grain_alerts. apply elem_of_app. right.
    apply list_elem_of_fmap. by exists a.
  - intros Hend Hgid.
    assert (Hin : SimAlert ERROR CONSTRAINT
             "End burning grains must be the forward-most grain in the motor"
             ("Grain " +:+ pretty (gid + 1)%nat) ∈ validation_alerts self).
    { apply elem_of_validation_alerts. right; left. exists gid, grain.
      split; [done|]. unfold grain_alerts. rewrite Hend.
      destruct gid as [|gid]; [done|]. cbn [Nat.eqb negb andb].
      apply elem_of_app. left. by apply list_elem_of_singleton. }
    split.
    + destruct e as [|k|]; [done| |].
      * apply runSimulation_outcomes in Hrun as (_ & _ & Herr & _).
        exfalso. apply (proj2 (filter_nonempty (fun a => level a = ERROR)
                                 (alerts res))); [|exact Herr].
        eexists. split; [rewrite Hal; apply elem_of_app; left; exact Hin|].
        reflexivity.
      * apply runSimulation_outcomes in Hrun as (_ & _ & Herr).
        exfalso. apply (proj2 (filter_nonempty (fun a => level a = ERROR)
                                 (alerts res))); [|exact Herr].
        eexists. split; [rewrite Hal; apply elem_of_app; left; exact Hin|].
        reflexivity.
    + rewrite Hal. apply elem_of_app. by left.
Qed.

(** ** The callback *)

Lemma simulation_loop_silent fuel (self : motor_t) (cb : callback_fn (F:=F))
    ts ballA ballN density amb thres thr (simRes : simRes_t) regs calls calls' :
  (forall calls, cb calls = false) ->
  sizes_inv self simRes regs ->
  simulation_loop fuel self (Some cb) ts ballA ballN density amb thres thr
    simRes regs calls
  = simulation_loop fuel self None ts ballA ballN density amb thres thr
      simRes regs calls'.
Proof.
  intros Hcb. revert simRes regs calls.
  induction fuel as [|fuel IH]; intros simRes regs calls Hinv; [done|].
  cbn [simulation_loop].
  destruct (loop_test thr (ch_force simRes)) as [[|]|]; try done.
  destruct (burn_step_Ok self ts ballA ballN density amb thres simRes regs
              Hinv) as (simRes' & regs' & -> & Hinv').
  destruct (progress_Ok self regs') as (pr & ->);
    [apply Hinv' | apply Hinv' |].
  rewrite Hcb. by apply IH.
Qed.

(** X9.  A callback that never asks to cancel changes nothing: the run
    returns what it returns without a callback. *)
Theorem X9_silent_callback fuel (self : motor_t) (cb : callback_fn (F:=F)) :
  (forall calls, cb calls = false) ->
  runSimulation fuel self (Some cb) = runSimulation fuel self None.
Proof.
  intros Hcb. unfold runSimulation.
  destruct (getAlertsByLevel ERROR (validate self)) as [|a l] eqn:Herr;
    cbn [length Nat.ltb Nat.leb]; [|done].
  destruct (validate_passed self Herr) as (Hg & Hp).
  unfold propellant_getProperty.
  destruct (propellant self) as [p|] eqn:Hprop; [|done]. cbn [bind].
  destruct (ignite _ _ _ _ _ _) as [[simRes0 regs]|] eqn:Hig; [|done].
  cbn [bind fst snd].
  destruct (check_port _ _) as [simRes1|] eqn:Hport; [|done].
  cbn [bind].
  apply simulation_loop_silent; [done|].
  eapply sizes_inv_ignition;
    [| |apply samples_validate|exact Hig|exact Hport].
  - by apply setup_grains_nonempty.
  - cbn. by rewrite Hprop.
Qed.

(** A loop that the callback cancels stops in a state that the loop, left
    alone, goes through. *)
Lemma simulation_loop_cancel_extends (self : motor_t) (cb : callback_fn (F:=F))
    ts ballA ballN density amb thres thr :
  forall fuel fuel' (simRes : simRes_t) regs calls calls' k res e' res',
    simulation_loop fuel self (Some cb) ts ballA ballN density amb thres thr
      simRes regs calls = Some (Ok (Cancelled k, res)) ->
    simulation_loop fuel' self None ts ballA ballN density amb thres thr
      simRes regs calls' = Some (Ok (e', res')) ->
    extends res res'.
Proof.
  induction fuel as [|fuel IH];
    intros [|fuel'] simRes regs calls calls' k res e' res'; try done.
  cbn [simulation_loop].
  destruct (loop_test thr (ch_force simRes)) as [[|]|]; try done.
  - destruct (burn_step _ _ _ _ _ _ _ _ _) as [[simRes' regs']|]; [|done].
    destruct (progress self regs') as [pr|]; [|done].
    destruct (cb _).
    + intros [= <- <-] Hfull. by eapply simulation_loop_extends.
    + intros Hcancel Hfull. by eapply IH.
  - intros [= Hb]. apply burnout_inv in Hb as [? _]. done.
Qed.

Lemma prefix_take {A} (l1 l2 : list A) :
  l1 `prefix_of` l2 -> l1 = take (length l1) l2.
Proof. intros [k ->]. by rewrite take_app_length. Qed.

(** X10.  Cancelling truncates, and does nothing else.  The result of a
    run that its callback cancelled at the k-th call holds, in every
    channel, the first k + 2 samples of the result the same motor gives
    when the run is left to its burnout; its alerts are the first of that
    result's alerts. *)
Theorem X10_cancelling_truncates fuel fuel' (self : motor_t)
    (cb : callback_fn (F:=F)) k e' (res res' : simRes_t) :
  runSimulation fuel self (Some cb) = Some (Ok (Cancelled k, res)) ->
  runSimulation fuel' self None = Some (Ok (e', res')) ->
  ch_time res = take (k + 2) (ch_time res')
  /\ ch_kn res = take (k + 2) (ch_kn res')
  /\ ch_pressure res = take (k + 2) (ch_pressure res')
  /\ ch_force res = take (k + 2) (ch_force res')
  /\ ch_mass res = take (k + 2) (ch_mass res')
  /\ ch_massFlow res = take (k + 2) (ch_massFlow res')
  /\ ch_massFlux res = take (k + 2) (ch_massFlux res')
  /\ alerts res `prefix_of` alerts res'.
Proof.
  intros Hcancel Hfull.
  pose proof (runSimulation_outcomes _ _ _ _ _ Hcancel)
    as ((H1 & H2 & H3 & H4 & H5 & H6 & H7) & _).
  apply runSimulation_inv in Hcancel
    as [(? & _) | (Herr0 & p & r0 & r1 & regs & Hp & Hig & Hport & Hloop)];
    [done|].
  apply runSimulation_inv in Hfull
    as [(_ & _ & Herr) | (_ & p' & r0' & r1' & regs' & Hp' & Hig' & Hport'
                          & Hloop')]; [done|].
  assert (p' = p) as -> by congruence.
  rewrite Hig in Hig'. injection Hig' as <- <-.
  rewrite Hport in Hport'. injection Hport' as <-.
  assert (Hext : extends res res')
    by (eapply simulation_loop_cancel_extends; [exact Hloop | exact Hloop']).
  destruct Hext as (E1 & E2 & E3 & E4 & E5 & E6 & E7 & E8).
  rewrite <- H1 at 1. rewrite <- H2 at 1. rewrite <- H3 at 1.
  rewrite <- H4 at 1. rewrite <- H5 at 1. rewrite <- H6 at 1.
  rewrite <- H7 at 1.
  repeat split; try (by apply prefix_take). done.
Qed.

(** ** The alerts of a result, in full *)

(** The port check adds the same alerts to whatever result it is given. *)
Lemma check_port_add_alerts (self : motor_t) (r r1 : simRes_t) :
  check_port self r = Ok r1 ->
  exists l, r1 = add_alerts l r
            /\ forall r' : simRes_t, check_port self r' = Ok (add_alerts l r').
Proof.
  unfold check_port. intros H. inv_bind H. rewrite Ha. cbn [bind].
  destruct (getPortArea a (of_Z 0)) as [aftPort|].
  - match type of H with (if ?b then _ else _) = _ => destruct b end;
      injection H as <-.
    + eexists [_]. split; [reflexivity|]. intros r'. reflexivity.
    + exists []. split; [by rewrite add_alerts_nil|].
      intros r'. by rewrite add_alerts_nil.
  - injection H as <-. exists []. split; [by rewrite add_alerts_nil|].
    intros r'. by rewrite add_alerts_nil.
Qed.

(** After the loop: the two WARNINGs, each on its own test. *)
Lemma burnout_alerts (self : motor_t) (simRes : simRes_t) e res :
  burnout self simRes = Ok (e, res) ->
  exists peakFlux peakPressure,
    getPeakMassFlux_res res = Ok peakFlux
    /\ getMaxPressure res = Ok peakPressure
    /\ alerts res
       = alerts simRes
         ++ (if peakFlux >? getProperty (config self) "maxMassFlux"
             then [SimAlert WARNING CONSTRAINT
                     "Peak mass flux exceeded configured limit" "Motor"]
             else [])
         ++ (if peakPressure >? getProperty (config self) "maxPressure"
             then [SimAlert WARNING CONSTRAINT
                     "Max pressure exceeded configured limit" "Motor"]
             else []).
Proof.
  unfold burnout. intros H. inv_bind H. inv_bind H. injection H as <- <-.
  exists a, a0.
  destruct simRes as [tm kn pc fo ma fl fx su al].
  destruct (getProperty (config self) "maxMassFlux" <? a),
    (getProperty (config self) "maxPressure" <? a0);
    cbv [getPeakMassFlux_res getMaxPressure with_success ch_massFlux
         ch_pressure addAlert alerts] in *;
    rewrite ?app_nil_r, <- ?app_assoc; done.
Qed.

(** X11.  The alerts of a result, in the order they were added.  A
    rejected result has the alerts of the validation.  A cancelled result
    has the alerts of the validation and of the port check after it.  A
    burnt-out result has these, then the WARNING on the mass flux exactly
    when the peak mass flux of the result exceeds [maxMassFlux], then the
    WARNING on the pressure exactly when the maximum of its pressure
    channel exceeds [maxPressure]; both are located at "Motor". *)
Theorem X11_alerts_in_order fuel (self : motor_t)
    (callback : option (callback_fn (F:=F))) e (res : simRes_t) :
  runSimulation fuel self callback = Some (Ok (e, res)) ->
  match e with
  | Rejected => alerts res = alerts (validate self)
  | Cancelled _ =>
      exists checked : simRes_t,
        check_port (setup_grains self) (validate self) = Ok checked
        /\ alerts res = alerts checked
  | Burnout =>
      exists (checked : simRes_t) peakFlux peakPressure,
        check_port (setup_grains self) (validate self) = Ok checked
        /\ getPeakMassFlux_res res = Ok peakFlux
        /\ getMaxPressure res = Ok peakPressure
        /\ alerts res
           = alerts checked
             ++ (if peakFlux >? getProperty (config self) "maxMassFlux"
                 then [SimAlert WARNING CONSTRAINT
                         "Peak mass flux exceeded configured limit" "Motor"]
                 else [])
             ++ (if peakPressure >? getProperty (config self) "maxPressure"
                 then [SimAlert WARNING CONSTRAINT
                         "Max pressure exceeded configured limit" "Motor"]
                 else [])
  end.
Proof.
  intros Hrun.
  apply runSimulation_inv in Hrun
    as [(-> & -> & _) | (Herr & p & r0 & r1 & regs & Hp & Hig & Hport & Hloop)];
    [done|].
  destruct (check_port_add_alerts _ _ _ Hport) as (l & -> & Hany).
  apply ignite_inv in Hig as (pr & f & _ & _ & _ & ->).
  eapply (simulation_loop_inv _ _ _ _ _ _ _ _ _
            (fun (r : simRes_t) _ _ => alerts r = alerts (validate self) ++ l))
    in Hloop.
  - destruct Hloop as (r2 & regs2 & calls2 & Hal
                       & [(-> & _ & Hb) | (cb & pr' & calls0 & _ & _ & _ & _ & -> & ->)]).
    + exists (add_alerts l (validate self)).
      apply burnout_alerts in Hb as (peakFlux & peakPressure & H1 & H2 & H3).
      exists peakFlux, peakPressure. split; [apply Hany|].
      split; [done|]. split; [done|].
      rewrite H3, Hal. cbn [add_alerts alerts setup_grains config].
      reflexivity.
    + exists (add_alerts l (validate self)). split; [apply Hany | exact Hal].
  - intros simRes regs' calls simRes' regs'' Hal _ Hstep.
    apply burn_step_inv in Hstep as (s & pr' & f' & t & _ & _ & _ & _ & _ & ->).
    destruct callback; [intros ? _|]; exact Hal.
  - reflexivity.
Qed.

(** ** A motor without thrust *)

(** X12.  A motor whose thrust at ignition is 0 does not enter the loop:
    whatever the callback, which is not called, the run returns at once,
    burnt out, with the two seed samples and success true.  The only fact
    about the numbers used is that a multiple of 0 is not below 0, which
    holds of doubles (NaN included) and of rationals. *)
Theorem X12_no_thrust_no_loop fuel (self : motor_t)
    (callback : option (callback_fn (F:=F))) :
  (forall x : F, (x * of_Z 0 <? of_Z 0) = false) ->
  getAlertsByLevel ERROR (validate self) = [] ->
  calcForce (setup_grains self)
    (map (fun _ => of_Z 0) (grains (setup_grains self))) None
    (getProperty (config self) "ambPressure")
    (getProperty (config self) "burnoutWebThres") = Ok (of_Z 0) ->
  exists res : simRes_t,
    runSimulation (S fuel) self callback = Some (Ok (Burnout, res))
    /\ samples 2 res /\ success res = true.
Proof.
  intros Hzero Herr Hforce.
  destruct (validate_passed self Herr) as (Hg & Hp).
  unfold runSimulation. rewrite Herr. cbn [length Nat.ltb Nat.leb].
  unfold propellant_getProperty.
  destruct (propellant self) as [p|] eqn:Hprop; [|done]. cbn [bind].
  assert (Hp' : propellant (setup_grains self) <> None)
    by (cbn; by rewrite Hprop).
  destruct (ignite_Ok (setup_grains self) (getProperty p "density")
              (getProperty (config self) "timestep")
              (getProperty (config self) "ambPressure")
              (getProperty (config self) "burnoutWebThres")
              (validate self) Hp') as (simRes0 & regs & Hig).
  rewrite Hig. cbn [bind fst snd].
  destruct (check_port_Ok (setup_grains self) simRes0
              (setup_grains_nonempty _ Hg)) as (simRes1 & Hport).
  rewrite Hport. cbn [bind].
  assert (Hinv : sizes_inv (setup_grains self) simRes1 regs)
    by (by eapply sizes_inv_ignition;
          [| |apply samples_validate|exact Hig|exact Hport];
          [apply setup_grains_nonempty|]).
  destruct (burnout_Ok _ _ _ Hinv) as (res & Hb).
  exists res.
  apply ignite_inv in Hig as (pr & f & -> & _ & Hf & ->).
  rewrite Hforce in Hf. injection Hf as <-.
  apply check_port_inv in Hport as (_ & l & -> & _).
  rewrite validate_alerts in *.
  cbn [simulation_loop add_alerts ch_force addData app].
  unfold loop_test. cbn [getLast getitem_last last of_option bind getMax pymax
                         foldl].
  assert (Hpeak : (if of_Z 0 >? of_Z 0 then of_Z 0 else of_Z 0) = (of_Z 0 : F))
    by (by destruct (of_Z 0 >? of_Z 0)).
  rewrite Hpeak, Hzero.
  split; [by rewrite <- Hb|].
  apply burnout_inv in Hb as (_ & l' & -> & _).
  split; [|reflexivity].
  unfold samples. cbn. repeat split; reflexivity.
Qed.

(** ** [calcKN], [calcIdealPressure] and [calcForce] on their own *)

Lemma zip_take {A B} (l : list A) (k : list B) :
  zip l k = zip (take (length k) l) (take (length l) k).
Proof.
  revert k. induction l as [|x l IH]; intros [|y k]; cbn; try done.
  by rewrite <- IH.
Qed.

Lemma zip_app_extra {A B} (l : list A) (k extra : list B) :
  length k = length l -> zip l (k ++ extra) = zip l k.
Proof.
  revert k. induction l as [|x l IH]; intros [|y k] Hlen; cbn; try done.
  injection Hlen as Hlen. by rewrite IH.
Qed.

(** X13.  [calcKN] pairs the grains with the regressions as far as both
    lists go, and raises no error when one is the longer: regressions
    beyond the last grain, and grains beyond the last regression, are left
    out of the sum.  With no regression at all the sum is empty, and the
    result is 0 over the throat area. *)
Theorem X13_calcKN_pairs (self : motor_t) (r : list F) thres :
  calcKN self r thres
  = calcKN (Motor (take (length r) (grains self)) (propellant self)
              (nozzle self) (config self))
      (take (length (grains self)) r) thres
  /\ (forall extra, length r = length (grains self) ->
        calcKN self (r ++ extra) thres = calcKN self r thres)
  /\ calcKN self [] thres = of_Z 0 / getThroatArea (nozzle self).
Proof.
  split; [|split].
  - unfold calcKN. cbn [grains nozzle]. by rewrite <- zip_take.
  - intros extra Hlen. unfold calcKN. by rewrite zip_app_extra.
  - unfold calcKN. by rewrite zip_with_nil_r.
Qed.

(** X14.  The propellant is needed.  [calcIdealPressure] and [calcForce]
    raise AttributeError exactly on a motor without propellant, whatever
    their other arguments: [calcForce] also when it is given a chamber
    pressure of 0, for which it would return 0.  Their defaults are the
    values they name: leaving [kn] out does what passing
    [calcKN(r, burnoutWebThres)] does, and leaving [casePressure] out does
    what passing the ideal pressure does, an exception of
    [calcIdealPressure] included. *)
Theorem X14_propellant_needed (self : motor_t) (r : list F) amb thres :
  (forall kn,
      calcIdealPressure self r kn thres = Raise AttributeError
      <-> propellant self = None)
  /\ (forall casePressure,
         calcForce self r casePressure amb thres = Raise AttributeError
         <-> propellant self = None)
  /\ calcIdealPressure self r None thres
     = calcIdealPressure self r (Some (calcKN self r thres)) thres
  /\ calcForce self r None amb thres
     = (pc <- calcIdealPressure self r None thres ;;
        calcForce self r (Some pc) amb thres).
Proof.
  split; [|split; [|split]].
  - intros kn. split.
    + intros Hraise. destruct (propellant self) eqn:Hp; [|done].
      destruct (calcIdealPressure_Ok self r kn thres) as (pc & Hpc);
        [by rewrite Hp|congruence].
    + intros Hp. unfold calcIdealPressure, propellant_getProperty.
      by rewrite Hp.
  - intros casePressure. split.
    + intros Hraise. destruct (propellant self) eqn:Hp; [|done].
      destruct (calcForce_Ok self r casePressure amb thres) as (f & Hf);
        [by rewrite Hp|congruence].
    + intros Hp. unfold calcForce, calcIdealPressure, propellant_getProperty.
      by rewrite Hp.
  - apply calcIdealPressure_default.
  - apply calcForce_default.
Qed.

(** ** The thrust along a run *)

Lemma calcForce_nonnegative (self : motor_t) r casePressure amb thres f :
  NumOrder ->
  calcForce self r casePressure amb thres = Ok f -> nonnegative f.
Proof.
  intros Hord Hf.
  assert (H0 : nonnegative (of_Z 0 : F)).
  { split; [apply isnan_0 | apply ltb_irrefl]. }
  unfold calcForce in Hf. inv_bind Hf. inv_bind Hf.
  destruct (a0 ==? of_Z 0); [by injection Hf as <-|].
  match type of Hf with
  | Ok (if ?b then _ else ?x) = _ => destruct b eqn:Hclamp
  end; injection Hf as <-; [exact H0|].
  apply orb_false_iff in Hclamp as [Hnan Hneg]. by split.
Qed.

Lemma at_loop_head_force_nonnegative (self : motor_t) (simRes : simRes_t) regs :
  NumOrder ->
  at_loop_head self simRes regs -> Forall nonnegative (ch_force simRes).
Proof.
  intros Hord.
  induction 1 as [p r0 r1 regs Herr Hp Hig Hport
                 |p simRes regs simRes' regs' _ IH Hp _ Hstep].
  - apply ignite_inv in Hig as (pr & f & -> & _ & Hf & ->).
    apply check_port_inv in Hport as (_ & l & -> & _).
    rewrite validate_alerts. cbn [add_alerts ch_force addData app].
    constructor; [split; [apply isnan_0 | apply ltb_irrefl]|].
    constructor; [|constructor]. by eapply calcForce_nonnegative.
  - apply burn_step_inv in Hstep
      as (s & pr & f & t & _ & _ & _ & Hf & _ & ->).
    cbn [ch_force]. unfold addData. apply Forall_app. split; [done|].
    constructor; [|constructor]. by eapply calcForce_nonnegative.
Qed.

(** X15.  No sample of the force channel of a result is a NaN or below
    0, on any carrier where no number is below itself and 0 is not a
    NaN: on doubles as on rationals. *)
Theorem X15_force_channel_nonnegative fuel (self : motor_t)
    (callback : option (callback_fn (F:=F))) e (res : simRes_t) :
  NumOrder ->
  runSimulation fuel self callback = Some (Ok (e, res)) ->
  Forall nonnegative (ch_force res).
Proof.
  intros Hord Hrun.
  assert (He : e = Rejected \/ e <> Rejected)
    by (destruct e; (by left) || (by right)).
  destruct He as [->|He].
  - apply runSimulation_outcomes in Hrun as [-> _].
    rewrite validate_alerts. constructor.
  - destruct (runSimulation_loop_head _ _ _ _ _ Hrun He)
      as (simRes & regs & Hat & (_ & _ & _ & <- & _) & _).
    by eapply at_loop_head_force_nonnegative.
Qed.

(** ** [applyDict] on any dictionary (lines 49-59) *)

Lemma applyDict_grains_Ok (entries : list grainEntry) (acc : list G) :
  Forall (fun entry => grainTypes (entry_type entry) <> None) entries ->
  exists gs,
    applyDict_grains entries acc = Ok (acc ++ gs)
    /\ Forall2 (fun (g : G) entry =>
                  exists g0, grainTypes (entry_type entry) = Some g0
                             /\ g = setProperties (entry_properties entry) g0)
               gs entries.
Proof.
  intros Hall. revert acc.
  induction Hall as [|entry entries Hentry _ IH]; intros acc.
  - exists []. split; [by rewrite app_nil_r | constructor].
  - cbn [applyDict_grains].
    destruct (grainTypes (entry_type entry)) as [g0|] eqn:Hty; [|done].
    cbn [of_option bind].
    destruct (IH (acc ++ [setProperties (entry_properties entry) g0]))
      as (gs & -> & Hgs).
    exists (setProperties (entry_properties entry) g0 :: gs).
    split; [by rewrite <- app_assoc|].
    constructor; [by exists g0 | done].
Qed.

Lemma applyDict_grains_KeyError (entries : list grainEntry) (acc : list G) :
  Exists (fun entry => grainTypes (entry_type entry) = None) entries ->
  applyDict_grains entries acc = Raise KeyError.
Proof.
  intros Hex. revert acc.
  induction Hex as [entry entries Hentry|entry entries _ IH]; intros acc;
    cbn [applyDict_grains].
  - by rewrite Hentry.
  - destruct (grainTypes (entry_type entry)); [apply IH | done].
Qed.

(** X16.  [applyDict] and the grain types, on a dictionary that has its
    four keys "nozzle", "propellant", "grains" and "config" and whose
    grain entries have their keys "type" and "properties" (the record
    [motorData]; a dictionary that lacks one of these keys is outside it).
    When every entry of the grain
    list names a registered grain type, the motor gets one grain per
    entry, in the order of the entries, each a fresh grain of the entry's
    type with the entry's properties set; the grains and the propellant
    the motor had are dropped; the nozzle and the configuration keep their
    objects, with the properties of the dictionary set.  When an entry
    names a type that is not registered, [applyDict] raises KeyError. *)
Theorem X16_applyDict_grain_types (self : motor_t) (d : motorData) :
  (Forall (fun entry => grainTypes (entry_type entry) <> None) (md_grains d) ->
   exists self' : motor_t,
     applyDict self d = Ok self'
     /\ Forall2 (fun (g : G) entry =>
                   exists g0, grainTypes (entry_type entry) = Some g0
                              /\ g = setProperties (entry_properties entry) g0)
                (grains self') (md_grains d)
     /\ propellant self' = propellant_new <$> md_propellant d
     /\ nozzle self' = setProperties (md_nozzle d) (nozzle self)
     /\ config self' = setProperties (md_config d) (config self))
  /\ (Exists (fun entry => grainTypes (entry_type entry) = None) (md_grains d) ->
      applyDict self d = Raise KeyError).
Proof.
  split.
  - intros Hall. destruct (applyDict_grains_Ok _ [] Hall) as (gs & Hgs & Hall2).
    unfold applyDict. rewrite Hgs. cbn [bind app].
    eexists. split; [reflexivity|]. cbn [grains propellant nozzle config].
    split; [done|]. split; [|done]. by destruct (md_propellant d).
  - intros Hex. unfold applyDict.
    by rewrite (applyDict_grains_KeyError _ [] Hex).
Qed.

End EngineSafety.

(** * Properties of [test/compare.py] *)

Section CompareFacts.
Context {F : Type} {num : Num F} {numAbs : NumAbs F} {stats_of : ResultStats F}.
Local Open Scope num_scope.

Local Abbreviation simRes_t := (@simulationResult F).

(** ** [compareAlerts] *)

Lemma io_for_check_produced (pastAlerts : list string) (l : list simAlert) b :
  io_for l (check_produced pastAlerts) b
  = (map (fun a => TAB +:+ "Simulation produced unexpected alert: "
                   +:+ color (description a) colors.WARNING)
         (filter (fun a => description a ∉ pastAlerts) l),
     Ok (b && bool_decide (Forall (fun a => description a ∈ pastAlerts) l))).
Proof.
  revert b. induction l as [|a l IH]; intros b.
  - cbn. by rewrite andb_true_r.
  - cbn [io_for]. unfold check_produced at 1.
    destruct (decide (description a ∈ pastAlerts)) as [Hin|Hnin].
    + rewrite bool_decide_eq_true_2 by done.
      unfold io_ret at 1. cbn [io_bind]. rewrite IH.
      rewrite filter_cons_False by (intros ?; done). cbn [app].
      do 2 f_equal. f_equal. apply bool_decide_ext.
      rewrite Forall_cons. tauto.
    + rewrite bool_decide_eq_false_2 by done.
      unfold print, io_ret. cbn [io_bind app]. rewrite IH.
      rewrite filter_cons_True by done. cbn [map app].
      do 2 f_equal. rewrite andb_false_l.
      rewrite bool_decide_eq_false_2; [by rewrite andb_false_r|].
      rewrite Forall_cons. tauto.
Qed.

Lemma io_for_check_expected (simRes : simRes_t) (l : list string) :
  io_for l (fun _ alert => check_expected simRes alert) tt
  = (map (fun d => TAB +:+ "Simulation was missing expected alert: "
                   +:+ color d colors.WARNING)
         (filter (fun d => d ∉ map description (alerts simRes)) l),
     Ok tt).
Proof.
  induction l as [|d l IH]; [reflexivity|].
  cbn [io_for]. unfold check_expected at 1.
  destruct (decide (d ∈ map description (alerts simRes))) as [Hin|Hnin].
  - rewrite bool_decide_eq_true_2 by done.
    unfold io_ret. cbn [io_bind]. rewrite IH.
    by rewrite filter_cons_False by (intros ?; done).
  - rewrite bool_decide_eq_false_2 by done.
    unfold print. cbn [io_bind]. rewrite IH.
    by rewrite filter_cons_True by done.
Qed.

(** X17.  What [compareAlerts] prints.  One line for each alert of the
    result whose description is not among the expected ones, in the order
    of the result; then one line for each expected description that no
    alert of the result has, in their order; then the line "Simulation
    alerts matched." when every alert of the result was expected.  Only
    the first loop clears [allMatched]: the last line is printed exactly
    when no alert of the result was unexpected, also when expected alerts
    are missing.  [compareAlerts] raises nothing. *)
Theorem X17_compareAlerts_lines (simRes : simRes_t) (pastAlerts : list string) :
  compareAlerts simRes pastAlerts
  = (map (fun a => TAB +:+ "Simulation produced unexpected alert: "
                   +:+ color (description a) colors.WARNING)
         (filter (fun a => description a ∉ pastAlerts) (alerts simRes))
     ++ map (fun d => TAB +:+ "Simulation was missing expected alert: "
                      +:+ color d colors.WARNING)
            (filter (fun d => d ∉ map description (alerts simRes)) pastAlerts)
     ++ (if bool_decide (Forall (fun a => description a ∈ pastAlerts)
                           (alerts simRes))
         then [TAB +:+ "Simulation alerts matched."] else []),
     Ok tt)
  /\ (last (fst (compareAlerts simRes pastAlerts))
      = Some (TAB +:+ "Simulation alerts matched.")
      <-> Forall (fun a => description a ∈ pastAlerts) (alerts simRes)).
Proof.
  assert (Heq : compareAlerts simRes pastAlerts
    = (map (fun a => TAB +:+ "Simulation produced unexpected alert: "
                     +:+ color (description a) colors.WARNING)
           (filter (fun a => description a ∉ pastAlerts) (alerts simRes))
       ++ map (fun d => TAB +:+ "Simulation was missing expected alert: "
                        +:+ color d colors.WARNING)
              (filter (fun d => d ∉ map description (alerts simRes)) pastAlerts)
       ++ (if bool_decide (Forall (fun a => description a ∈ pastAlerts)
                             (alerts simRes))
           then [TAB +:+ "Simulation alerts matched."] else []),
       Ok tt)).
  { unfold compareAlerts.
    rewrite io_for_check_produced. cbn [io_bind andb].
    rewrite io_for_check_expected. cbn [io_bind].
    destruct (bool_decide _); unfold print, io_ret; reflexivity. }
  split; [exact Heq|].
  rewrite Heq. cbn [fst].
  destruct (decide (Forall (fun a => description a ∈ pastAlerts)
                      (alerts simRes))) as [Hall|Hnall].
  - rewrite bool_decide_eq_true_2 by done.
    rewrite !app_assoc, last_snoc. done.
  - rewrite bool_decide_eq_false_2 by done. rewrite app_nil_r.
    split; [|done]. intros Hlast. exfalso.
    rewrite last_lookup in Hlast.
    apply list_elem_of_lookup_2, elem_of_app in Hlast as [Hin|Hin];
      apply list_elem_of_fmap in Hin as (x & Hx & _);
      cbn in Hx; discriminate.
Qed.

(** ** [formatPercent] and [compareStats] *)


Lemma compareStat_zero title (a b : F) :
  (b ==? of_Z 0) = true ->
  compareStat title a b = ([], Raise ZeroDivisionError).
Proof. intros Hb. unfold compareStat, pydiv. by rewrite Hb. Qed.

Lemma compareStat_lines title (a b : F) :
  (b ==? of_Z 0) = false ->
  exists line, compareStat title a b = ([line], Ok (pyabs (a - b) / b)).
Proof.
  intros Hb. unfold compareStat, pydiv, print, io_ret. rewrite Hb.
  cbn [io_bind app]. eauto.
Qed.

(** [compareStats], by the keys its dictionary has and by the references
    that are 0. *)
Lemma compareStats_by_keys (simRes : simRes_t) (stats : gmap string F) :
  let err a b := pyabs (a - b) / b in
  let out := compareStats simRes stats in
  match stats !! "burnTime" with
  | None => length (fst out) = 1%nat /\ snd out = Raise KeyError
  | Some bt =>
    if bt ==? of_Z 0
    then length (fst out) = 1%nat /\ snd out = Raise ZeroDivisionError
    else
      match stats !! "isp" with
      | None => length (fst out) = 2%nat /\ snd out = Raise KeyError
      | Some isp =>
        if isp ==? of_Z 0
        then length (fst out) = 2%nat /\ snd out = Raise ZeroDivisionError
        else
          match stats !! "propMass" with
          | None => length (fst out) = 3%nat /\ snd out = Raise KeyError
          | Some pm =>
            if pm ==? of_Z 0
            then length (fst out) = 3%nat
                 /\ snd out = Raise ZeroDivisionError
            else length (fst out) = 5%nat
                 /\ snd out
                    = Ok (of_Z 1
                          - ((of_Z 1 - err (getBurnTime simRes) bt)
                             * (of_Z 1 - err (getISP simRes) isp)
                             * (of_Z 1 - err (getPropellantMass simRes) pm)))
          end
      end
  end.
Proof.
  intros err out. subst out. unfold compareStats, dict_get, print.
  destruct (stats !! "burnTime") as [bt|]; [|done].
  cbn [io_bind of_option app].
  destruct (bt ==? of_Z 0) eqn:Hbt.
  { by rewrite compareStat_zero. }
  destruct (compareStat_lines "Burn Time" (getBurnTime simRes) bt Hbt)
    as (l1 & ->).
  cbn [io_bind of_option app].
  destruct (stats !! "isp") as [isp|]; [|done].
  cbn [io_bind of_option app].
  destruct (isp ==? of_Z 0) eqn:Hisp.
  { by rewrite compareStat_zero. }
  destruct (compareStat_lines "ISP" (getISP simRes) isp Hisp) as (l2 & ->).
  cbn [io_bind of_option app].
  destruct (stats !! "propMass") as [pm|]; [|done].
  cbn [io_bind of_option app].
  destruct (pm ==? of_Z 0) eqn:Hpm.
  { by rewrite compareStat_zero. }
  destruct (compareStat_lines "Propellant Mass" (getPropellantMass simRes) pm
              Hpm) as (l3 & ->).
  cbn [io_bind of_option app io_ret fst snd length]. done.
Qed.

(** X19.  [compareStats], the keys of the reference statistics and the
    references that are 0.  The statistics are compared in the order
    "burnTime", "isp", "propMass", each after the lines of those before it
    and the header have been printed.  A missing key raises KeyError; a
    reference [b] that is 0 raises ZeroDivisionError at [abs(a - b) / b],
    before the line of its statistic is printed.  With the three keys
    present and no reference 0, five lines are printed and the value
    returned is 1 - (1 - e1) * (1 - e2) * (1 - e3), where each [e] is the
    error abs(a - b) / b of a statistic [a] of the result against its
    reference [b]. *)
Theorem X19_compareStats_keys (simRes : simRes_t) (stats : gmap string F) :
  let err a b := pyabs (a - b) / b in
  let out := compareStats simRes stats in
  match stats !! "burnTime" with
  | None => length (fst out) = 1%nat /\ snd out = Raise KeyError
  | Some bt =>
    if bt ==? of_Z 0
    then length (fst out) = 1%nat /\ snd out = Raise ZeroDivisionError
    else
      match stats !! "isp" with
      | None => length (fst out) = 2%nat /\ snd out = Raise KeyError
      | Some isp =>
        if isp ==? of_Z 0
        then length (fst out) = 2%nat /\ snd out = Raise ZeroDivisionError
        else
          match stats !! "propMass" with
          | None => length (fst out) = 3%nat /\ snd out = Raise KeyError
          | Some pm =>
            if pm ==? of_Z 0
            then length (fst out) = 3%nat
                 /\ snd out = Raise ZeroDivisionError
            else length (fst out) = 5%nat
                 /\ snd out
                    = Ok (of_Z 1
                          - ((of_Z 1 - err (getBurnTime simRes) bt)
                             * (of_Z 1 - err (getISP simRes) isp)
                             * (of_Z 1 - err (getPropellantMass simRes) pm)))
          end
      end
  end.
Proof. apply compareStats_by_keys. Qed.

End CompareFacts.

(** * Properties of [motorlib/geometry.py] *)

Section GeometryFacts.
Context {F : Type} {num : Num F}.
Local Open Scope num_scope.

(** X20.  In exact arithmetic, with a [math.pi] that is not negative: the
    areas and the volume of a circle, a tube and a cylinder of dimensions
    that are not negative are not negative, and neither is the diameter
    of a circle of an area that is not negative. *)
Theorem X20_geometry_nonnegative (d h a : F) :
  NumExact -> nle (of_Z 0) math_pi ->
  nle (of_Z 0) d -> nle (of_Z 0) h -> nle (of_Z 0) a ->
  nle (of_Z 0) (circleArea d) /\ nle (of_Z 0) (tubeArea d h)
  /\ nle (of_Z 0) (cylinderArea d h) /\ nle (of_Z 0) (cylinderVolume d h)
  /\ nle (of_Z 0) (circleDiameterFromArea a).
Proof.
  intros Hexact Hpi Hd Hh Ha.
  assert (H2 : nle (of_Z 0) (of_Z 2 : F)) by (by apply of_Z_nonneg).
  assert (Hcircle : nle (of_Z 0) (circleArea d)).
  { unfold circleArea. apply mul_nonneg; [|done].
    apply pow_nonneg. by apply div_nonneg. }
  assert (Htube : nle (of_Z 0) (tubeArea d h)).
  { unfold tubeArea. by repeat apply mul_nonneg. }
  repeat split; try done.
  - unfold cylinderArea. apply add_nonneg; [|done]. by apply mul_nonneg.
  - unfold cylinderVolume. by apply mul_nonneg.
  - unfold circleDiameterFromArea. apply mul_nonneg; [done|].
    apply pow_nonneg. by apply div_nonneg.
Qed.

End GeometryFacts.

(** * The mass flow down the motor, in exact arithmetic *)

Section ExactFlow.
Context {F : Type} {num : Num F} {exact : NumExact}.
Context {props N P C G : Type}.
Context {nozzleI : Nozzle F props N} {propellantI : Propellant F props P}.
Context {configI : Config F props C} {grainI : Grain F props C G}.
Local Open Scope num_scope.

Local Abbreviation simRes_t := (@simulationResult F).
Local Abbreviation motor_t := (@motor N P C G).



(** The masses that a sweep records are not negative. *)
Lemma sweep_spec_mass_nonneg ts ballA ballN density thres pressure
    (gs : list G) :
  nle (of_Z 0) density ->
  (forall g r, g ∈ gs -> (getWebLeft g r >? thres) = true ->
               nle (of_Z 0) (getVolumeAtRegression g r)) ->
  forall (regs lastMass : list F) mf0,
    Forall (fun o => nle (of_Z 0) (gs_mass o))
      (sweep_spec ts ballA ballN density thres pressure mf0 gs regs lastMass).
Proof.
  intros Hd. induction gs as [|g gs IH]; intros Hvol regs lastMass mf0.
  { destruct regs, lastMass; constructor. }
  destruct regs as [|r regs]; [constructor|].
  destruct lastMass as [|old lastMass]; [constructor|].
  assert (Hvol' : forall g r, g ∈ gs -> (getWebLeft g r >? thres) = true ->
                              nle (of_Z 0) (getVolumeAtRegression g r)).
  { intros g' r' Hin. apply Hvol. by apply elem_of_cons; right. }
  cbn [sweep_spec]. destruct (getWebLeft g r >? thres) eqn:Hweb.
  - constructor; [|by apply IH]. cbn [gs_mass].
    apply mul_nonneg; [|done]. apply Hvol; [|done].
    apply elem_of_cons; by left.
  - constructor; [|by apply IH]. cbn [gs_mass]. apply nle_refl.
Qed.

Lemma at_loop_head_samples_nonneg (self : motor_t) (simRes : simRes_t) regs :
  physical self ->
  at_loop_head self simRes regs ->
  Forall (nle (of_Z 0)) (ch_kn simRes)
  /\ Forall (nle (of_Z 0)) (ch_pressure simRes)
  /\ Forall (Forall (nle (of_Z 0))) (ch_mass simRes).
Proof.
  intros Hph Hat.
  pose proof (at_loop_head_sizes_inv _ _ _ Hat) as Hsz.
  induction Hat as [p r0 r1 regs Herr Hp Hig Hport
                   |p simRes regs simRes' regs' Hat IH Hp _ Hstep].
  - clear Hsz.
    destruct (ph_propellant _ Hph p Hp) as (Hk & Ht & Hm & Hd & Ha).
    apply ignite_inv in Hig as (pr & f & -> & Hpr & _ & ->).
    apply check_port_inv in Hport as (_ & l & -> & _).
    rewrite validate_alerts.
    cbn [add_alerts ch_kn ch_pressure ch_mass addData app].
    assert (Hmass0 : Forall (nle (of_Z 0))
              (map (fun grain => getVolumeAtRegression grain (of_Z 0)
                                 * getProperty p "density")
                   (grains (setup_grains self)))).
    { apply Forall_forall. intros x Hx.
      apply list_elem_of_fmap in Hx as (g & -> & Hg).
      apply mul_nonneg; [|done]. by apply (ph_volume_0 _ Hph). }
    repeat split; repeat constructor; try done; try apply nle_refl.
    + by apply setup_KN_nonneg.
    + rewrite (calcIdealPressure_eq _ p) in Hpr by exact Hp.
      injection Hpr as <-.
      apply idealPressure_nonneg; try done. by apply setup_KN_nonneg.
  - specialize (IH (at_loop_head_sizes_inv _ _ _ Hat)).
    destruct IH as (IHkn & IHpr & IHma).
    destruct (ph_propellant _ Hph p Hp) as (Hk & Ht & Hm & Hd & Ha).
    pose proof (at_loop_head_sizes_inv _ _ _ Hat)
      as (_ & _ & Hregs & (n & Hn & Hn2) & Hmass & _).
    destruct (samples_nonempty n simRes Hn ltac:(lia))
      as (_ & _ & Hpc & _ & Hma & _ & _).
    destruct (getLast_Ok _ Hpc) as (pressure & Hpressure & _).
    destruct (getLast_Ok _ Hma) as (lastMass & HlastMass & Hin).
    assert (Hlm : length lastMass = length (grains (setup_grains self))).
    { by apply (proj1 (Forall_forall _ _) Hmass). }
    apply burn_step_inv in Hstep
      as (s & pr' & f & t & Hsweep & _ & Hpr' & _ & _ & ->).
    rewrite (sweep_eq _ _ _ _ _ _ _ _ pressure lastMass) in Hsweep by done.
    cbn zeta in Hsweep. injection Hsweep as <-.
    cbn [ch_kn ch_pressure ch_mass perGrainReg perGrainMass] in *.
    unfold addData. rewrite !Forall_app.
    repeat split; try done; constructor; try constructor.
    + by apply setup_KN_nonneg.
    + eapply (pressure_nonneg self p _ _ pr' Hph Hp); [|exact Hpr'].
      by apply setup_KN_nonneg.
    + apply Forall_forall. intros x Hx.
      apply list_elem_of_fmap in Hx as (o & -> & Ho).
      pose proof (sweep_spec_mass_nonneg
                    (getProperty (config self) "timestep") (getProperty p "a")
                    (getProperty p "n") (getProperty p "density")
                    (getProperty (config self) "burnoutWebThres") pressure
                    (grains (setup_grains self)) Hd (ph_volume _ Hph)
                    regs lastMass (of_Z 0)) as Hall.
      by apply (proj1 (Forall_forall _ _) Hall).
Qed.

(** X22.  In exact arithmetic, for a motor that is [physical]: no KN
    sample, no pressure sample and no entry of a mass sample of a result
    is negative. *)
Theorem X22_samples_nonnegative fuel (self : motor_t)
    (callback : option (callback_fn (F:=F))) e (res : simRes_t) :
  physical self ->
  runSimulation fuel self callback = Some (Ok (e, res)) ->
  Forall (nle (of_Z 0)) (ch_kn res)
  /\ Forall (nle (of_Z 0)) (ch_pressure res)
  /\ Forall (Forall (nle (of_Z 0))) (ch_mass res).
Proof.
  intros Hph Hrun.
  assert (He : e = Rejected \/ e <> Rejected)
    by (destruct e; (by left) || (by right)).
  destruct He as [->|He].
  - apply runSimulation_outcomes in Hrun as [-> _].
    rewrite validate_alerts. repeat split; constructor.
  - destruct (runSimulation_loop_head _ _ _ _ _ Hrun He)
      as (simRes & regs & Hat & (_ & <- & <- & _ & <- & _) & _).
    by eapply at_loop_head_samples_nonneg.
Qed.

End ExactFlow.

(** * The further properties on exact rationals and on the examples *)

(** ** The geometry on exact rationals *)

Lemma Qc_pow_square (x : Qc) : Qc_pow x (Q2Qc (inject_Z 2)) = (x * x)%Qc.
Proof.
  unfold Qc_pow.
  change (Qc_eq_bool (Q2Qc (inject_Z 2)) (Q2Qc (1 # 2))) with false.
  cbv iota.
  destruct (Qc_eq_bool x (Q2Qc 0)) eqn:Hx.
  - apply Qc_eq_bool_correct in Hx. subst x. reflexivity.
  - cbn [andb]. change (Qfloor (Q2Qc (inject_Z 2))) with 2%Z.
    unfold Qc_pow_int. change (Z.to_nat 2) with 2%nat.
    cbn [Qcpower]. ring.
Qed.

Lemma Qc_sqrt_square (x : Qc) : (0 <= x)%Qc -> Qc_sqrt (x * x) = Some x.
Proof.
  intros Hx. destruct x as [[n d] Hcanon].
  assert (Hn : (0 <= n)%Z).
  { unfold Qcle in Hx. change (this 0%Qc) with (0 # 1) in Hx.
    unfold Qle in Hx. cbn [this Qnum Qden] in Hx. lia. }
  assert (Hgcd : Z.gcd n (Zpos d) = 1%Z)
    by exact (proj1 (Qred_iff (n # d)) Hcanon).
  assert (Hsq : this (Qcmake (n # d) Hcanon * Qcmake (n # d) Hcanon)%Qc
                = (n * n # d * d)).
  { unfold Qcmult. cbn [this Q2Qc]. apply Qred_iff. cbn [Qnum Qden].
    change (Zpos (d * d)) with (Zpos d * Zpos d)%Z.
    apply Z.coprime_mul_l; by apply Z.coprime_mul_r. }
  unfold Qc_sqrt. rewrite Hsq. cbn [Qnum Qden].
  assert (Hsn : Z.sqrt (n * n) = n) by (by apply Z.sqrt_square).
  assert (Hsd : Pos.sqrt (d * d) = d).
  { assert (H : Z.sqrt (Zpos d * Zpos d) = Zpos d) by (by apply Z.sqrt_square).
    cbn in H. by injection H. }
  rewrite Hsn, Hsd.
  replace ((0 <=? n * n) && (n * n =? n * n) && (d * d =? d * d)%positive)%Z
    with true.
  - f_equal. apply Qc_is_canon. cbn. apply Qred_correct.
  - symmetry. rewrite Z.eqb_refl, Pos.eqb_refl, !andb_true_r.
    apply Z.leb_le. nia.
Qed.

(** X23.  On exact rationals, [circleDiameterFromArea] undoes
    [circleArea]: the diameter of the circle that has the area of a circle
    of diameter [d], not negative, is [d]. *)
Theorem X23_diameter_of_area (d : Qc) :
  (0 <= d)%Qc -> circleDiameterFromArea (circleArea d) = d.
Proof.
  intros Hd. unfold circleDiameterFromArea, circleArea.
  cbn [nmul ndiv npow of_Z math_pi lit_0_5 Qc_Num].
  rewrite Qc_pow_square.
  set (pi := Q2Qc (355 # 113)). set (two := Q2Qc (inject_Z 2)).
  assert (Hpi : pi <> 0%Qc) by done.
  assert (Htwo : two <> 0%Qc) by done.
  replace (d / two * (d / two) * pi / pi)%Qc with (d / two * (d / two))%Qc
    by (field; done).
  unfold Qc_pow. change (Qc_eq_bool (Q2Qc (1 # 2)) (Q2Qc (1 # 2))) with true.
  cbv iota. rewrite Qc_sqrt_square.
  - field. done.
  - apply Qcmult_nonneg; [done|]. by apply Qcinv_nonneg.
Qed.

(** ** The loop test and the score on exact rationals *)

Lemma Qc_lt_ltb (x y : Qc) : (x < y)%Qc -> Qc_ltb x y = true.
Proof.
  intros H. pose proof (proj1 (Qclt_alt x y) H) as Hc.
  unfold Qc_ltb. by destruct (x ?= y)%Qc.
Qed.

(** X24.  A motor at its peak thrust burns on.  On exact rationals, with
    a thrust threshold below 100 percent ([MotorConfig] bounds it by 10):
    when the last force sample is the maximum of the channel and is
    positive, the test of the loop passes. *)
Theorem X24_peak_thrust_burns_on (thr peak : Qc) (force : list Qc) :
  (thr < qc 100)%Qc ->
  getLast force = Ok peak -> getMax force = Ok peak -> (0 < peak)%Qc ->
  loop_test thr force = Ok true.
Proof.
  intros Hthr Hlast Hmax Hpos. unfold loop_test.
  rewrite Hlast, Hmax. cbn [bind]. f_equal.
  cbn [nltb nmul lit_0_01 Qc_Num]. apply Qc_lt_ltb.
  rewrite <- (Qcmult_1_l peak) at 2.
  apply Qcmult_lt_compat_r; [done|].
  replace 1%Qc with (qc 100 * Q2Qc (1 # 100))%Qc by (by apply Qc_is_canon).
  by apply Qcmult_lt_compat_r.
Qed.

Lemma Qc_score_bound (x u : Qc) :
  (0 <= x)%Qc -> (x <= 1)%Qc -> (0 <= u)%Qc -> (u <= 1)%Qc ->
  (x <= 1 - (1 - x) * u)%Qc.
Proof.
  intros Hx0 Hx1 Hu0 Hu1. apply Qcle_minus_iff.
  replace (1 - (1 - x) * u + - x)%Qc with ((1 - x) * (1 - u))%Qc by ring.
  apply Qcmult_nonneg; by apply -> Qcle_minus_iff.
Qed.

Lemma Qc_unit_mult (u v : Qc) :
  (0 <= u)%Qc -> (u <= 1)%Qc -> (0 <= v)%Qc -> (v <= 1)%Qc ->
  (0 <= u * v)%Qc /\ (u * v <= 1)%Qc.
Proof.
  intros Hu0 Hu1 Hv0 Hv1. split; [by apply Qcmult_nonneg|].
  eapply Qcle_trans; [by apply Qcmult_le_compat_r|]. by rewrite Qcmult_1_l.
Qed.

Lemma Qc_unit_compl (x : Qc) :
  (0 <= x)%Qc -> (x <= 1)%Qc -> (0 <= 1 - x)%Qc /\ (1 - x <= 1)%Qc.
Proof.
  intros Hx0 Hx1. split; [by apply -> Qcle_minus_iff|].
  apply Qcle_minus_iff. by replace (1 + - (1 - x))%Qc with x by ring.
Qed.

Lemma Qc_neqb_0 (b : Qc) : b <> 0%Qc -> (b ==? of_Z 0)%num = false.
Proof.
  intros Hb. cbn [neqb of_Z Qc_Num]. unfold Qc_eq_bool.
  destruct (Qcanon.Qc_eq_dec b (Q2Qc (inject_Z 0))) as [->|]; [|reflexivity].
  by destruct Hb.
Qed.

(** X25.  The overall error of [compareStats], on exact rationals, for
    reference statistics that have the three keys and no reference 0
    (where [compareStats] raises nothing).  It is 0 when the three
    statistics of the result are those of the reference; and when each of
    the three errors lies between 0 and 1, it is not below any of them,
    and not above 1. *)
Theorem X25_score_bounds {stats_of : ResultStats Qc}
    (simRes : simulationResult) (stats : gmap string Qc) (bt isp pm : Qc) :
  stats !! "burnTime" = Some bt -> stats !! "isp" = Some isp ->
  stats !! "propMass" = Some pm ->
  bt <> 0%Qc -> isp <> 0%Qc -> pm <> 0%Qc ->
  let e1 := (pyabs (getBurnTime simRes - bt) / bt)%num in
  let e2 := (pyabs (getISP simRes - isp) / isp)%num in
  let e3 := (pyabs (getPropellantMass simRes - pm) / pm)%num in
  exists score,
    snd (compareStats simRes stats) = Ok score
    /\ (getBurnTime simRes = bt -> getISP simRes = isp ->
        getPropellantMass simRes = pm -> score = 0%Qc)
    /\ ((0 <= e1 <= 1)%Qc -> (0 <= e2 <= 1)%Qc -> (0 <= e3 <= 1)%Qc ->
        (e1 <= score)%Qc /\ (e2 <= score)%Qc /\ (e3 <= score)%Qc
        /\ (score <= 1)%Qc).
Proof.
  intros Hbt Hisp Hpm Hbt0 Hisp0 Hpm0 e1 e2 e3.
  pose proof (compareStats_by_keys simRes stats) as H.
  cbv zeta in H. rewrite Hbt, Hisp, Hpm in H.
  rewrite !Qc_neqb_0 in H by done. destruct H as [_ ->].
  eexists. split; [reflexivity|].
  fold e1 e2 e3. cbn [nsub nmul of_Z Qc_Num].
  change (Q2Qc (inject_Z 1)) with 1%Qc.
  split.
  - intros H1 H2 H3. subst e1 e2 e3. rewrite H1, H2, H3.
    cbn [nsub ndiv Qc_Num pyabs Qc_NumAbs].
    unfold pyabs, Qc_NumAbs.
    assert (Hz : forall b : Qc, (Q2Qc (Qabs (b - b)%Qc) / b = 0)%Qc).
    { intros b. replace (b - b)%Qc with 0%Qc by ring.
      change (Q2Qc (Qabs 0%Qc)) with 0%Qc. unfold Qcdiv. ring. }
    rewrite !Hz. ring.
  - intros [A0 A1] [B0 B1] [C0 C1].
    destruct (Qc_unit_compl _ A0 A1) as [A0' A1'].
    destruct (Qc_unit_compl _ B0 B1) as [B0' B1'].
    destruct (Qc_unit_compl _ C0 C1) as [C0' C1'].
    repeat split.
    + rewrite <- Qcmult_assoc.
      apply Qc_score_bound; try done; by apply Qc_unit_mult.
    + replace ((1 - e1) * (1 - e2) * (1 - e3))%Qc
        with ((1 - e2) * ((1 - e1) * (1 - e3)))%Qc by ring.
      apply Qc_score_bound; try done; by apply Qc_unit_mult.
    + replace ((1 - e1) * (1 - e2) * (1 - e3))%Qc
        with ((1 - e3) * ((1 - e1) * (1 - e2)))%Qc by ring.
      apply Qc_score_bound; try done; by apply Qc_unit_mult.
    + apply Qcle_minus_iff.
      replace (1 + - (1 - (1 - e1) * (1 - e2) * (1 - e3)))%Qc
        with ((1 - e1) * (1 - e2) * (1 - e3))%Qc by ring.
      apply Qcmult_nonneg; [by apply Qcmult_nonneg | done].
Qed.

(** ** A spent motor, on exact rationals *)

Lemma Qc_pow_0 (y : Qc) : (0 < y)%Qc -> Qc_pow 0%Qc y = 0%Qc.
Proof.
  intros Hy. unfold Qc_pow.
  destruct (Qc_eq_bool y (Q2Qc (1 # 2))); [reflexivity|].
  change (Qc_eq_bool 0%Qc (Q2Qc 0)) with true. cbn [andb].
  assert (H1 : Qle_bool 0 y = true).
  { apply Qle_bool_iff. apply Qclt_le_weak in Hy. exact Hy. }
  assert (H2 : Qc_eq_bool y (Q2Qc 0) = false).
  { destruct (Qc_eq_bool y (Q2Qc 0)) eqn:E; [|done].
    apply Qc_eq_bool_correct in E. subst y. by apply Qclt_not_eq in Hy. }
  by rewrite H1, H2.
Qed.

Section ExactSpent.
Context {props N P C G : Type}.
Context {nozzleI : Nozzle Qc props N} {propellantI : Propellant Qc props P}.
Context {configI : Config Qc props C} {grainI : Grain Qc props C G}.

Lemma spent_sum (thres : Qc) (l : list (G * Qc)) :
  Forall (fun '(g, reg) => isWebLeft g reg thres = false) l ->
  pysum (map (fun '(gr, reg) =>
                (getSurfaceAreaAtRegression gr reg
                 * int_of_bool (isWebLeft gr reg thres))%num) l) = 0%Qc.
Proof.
  unfold pysum. change (of_Z 0) with 0%Qc.
  induction 1 as [|[g reg] l Hg _ IH]; [reflexivity|].
  cbn [map foldl]. rewrite Hg. unfold int_of_bool.
  cbn [nadd nmul of_Z Qc_Num]. change (Q2Qc (inject_Z 0)) with 0%Qc.
  rewrite Qcmult_0_r, Qcplus_0_l. exact IH.
Qed.

(** X26.  A spent motor, on exact rationals.  For a nozzle whose throat
    area is not 0 and a propellant with k above 1, t and m above 0 and a
    pressure exponent n below 1 (so that no division of the formulas is by
    0 and no power is of a negative number): when no grain has web left at
    the regressions given, KN is 0, the ideal pressure is 0 and the thrust
    is 0. *)
Theorem X26_spent_motor (self : motor) (p : P) (r : list Qc) (amb thres : Qc) :
  propellant self = Some p ->
  getThroatArea (nozzle self) <> 0%Qc ->
  (1 < getProperty p "k")%Qc ->
  (0 < getProperty p "t")%Qc ->
  (0 < getProperty p "m")%Qc ->
  (getProperty p "n" < 1)%Qc ->
  Forall (fun '(g, reg) => isWebLeft g reg thres = false)
         (zip (grains self) r) ->
  calcKN self r thres = 0%Qc
  /\ calcIdealPressure self r None thres = Ok 0%Qc
  /\ calcForce self r None amb thres = Ok 0%Qc.
Proof.
  intros Hp _ _ _ _ Hn Hspent.
  assert (Hkn : calcKN self r thres = 0%Qc).
  { unfold calcKN. rewrite spent_sum by done.
    cbn [ndiv Qc_Num]. unfold Qcdiv. apply Qcmult_0_l. }
  assert (Hpr : calcIdealPressure self r None thres = Ok 0%Qc).
  { unfold calcIdealPressure, propellant_getProperty. rewrite Hp.
    cbn [bind]. rewrite Hkn. f_equal.
    cbn [nmul ndiv nsub npow of_Z Qc_Num].
    change (Q2Qc (inject_Z 1)) with 1%Qc.
    rewrite !Qcmult_0_l. unfold Qcdiv at 1. rewrite Qcmult_0_l.
    apply Qc_pow_0. unfold Qcdiv. rewrite Qcmult_1_l.
    apply Qcinv_pos. by apply -> Qclt_minus_iff. }
  split; [exact Hkn|]. split; [exact Hpr|].
  unfold calcForce, propellant_getProperty. rewrite Hp. cbn [bind].
  rewrite Hpr. cbn [bind]. reflexivity.
Qed.

End ExactSpent.

(** ** The examples *)

(** On doubles a multiple of 0 is 0, -0 or a NaN: not below 0. *)
Lemma float_mul_0_not_below (x : float) :
  PrimFloat.ltb (x * 0)%float 0%float = false.
Proof.
  rewrite ltb_spec, mul_spec.
  change (Prim2SF 0%float) with (S754_zero false).
  destruct (Prim2SF x) as [s|s| |s m e]; try destruct s; reflexivity.
Qed.

(** The demo motor burns out within 10 passes; cancelled at the second
    call of its callback, it stops there. *)
Lemma demo_motor_burns_out :
  runSimulation 10 demo_motor None = Some (Ok (Burnout, demo_result)).
Proof. vm_compute. reflexivity. Qed.

Lemma demo_motor_cancelled :
  runSimulation 10 demo_motor (Some cancel_at_second_call)
  = Some (Ok (Cancelled 2, demo_cancelled)).
Proof. vm_compute. reflexivity. Qed.

(** The state of the demo motor at the head of its loop, after ignition. *)
Lemma demo_at_loop_head :
  exists simRes regs,
    at_loop_head demo_motor simRes regs
    /\ regs = [0%float]
    /\ getLast (ch_mass simRes) = Ok [3000%float]
    /\ exists pressure simRes' regs',
        getLast (ch_pressure simRes) = Ok pressure /\
        burn_step (setup_grains demo_motor) 1%float 1%float 0%float 1000%float
          100%float 0.5%float simRes regs = Ok (simRes', regs').
Proof.
  eexists _, _. split.
  - eapply (at_ignition demo_motor demo_propellant).
    + vm_compute. reflexivity.
    + reflexivity.
    + vm_compute. reflexivity.
    + vm_compute. reflexivity.
  - split; [reflexivity|]. split; [vm_compute; reflexivity|].
    eexists _, _, _. split; vm_compute; reflexivity.
Qed.

(** The misplaced end burner gets its motor rejected. *)
Lemma misplaced_motor_rejected :
  runSimulation 10 misplaced_motor None
  = Some (Ok (Rejected, validate misplaced_motor)).
Proof. vm_compute. reflexivity. Qed.



(** ** The properties on the examples *)

(** X1 on the demo motor. *)
Lemma X1_runSimulation_never_raises_witness :
  runSimulation 10 demo_motor None <> Some (Raise IndexError).
Proof.
  exact (proj1 (X1_runSimulation_never_raises 10 demo_motor None)).
Defined.

(** X2 on the demo motor: one entry per sample, for its one grain. *)
Lemma X2_one_entry_per_grain_witness :
  runSimulation 10 demo_motor None = Some (Ok (Burnout, demo_result))
  /\ Forall (fun m => length m = 1%nat) (ch_mass demo_result).
Proof.
  split; [exact demo_motor_burns_out|].
  exact (proj1 (X2_one_entry_per_grain 10 demo_motor None Burnout demo_result
                  demo_motor_burns_out)).
Defined.

(** X3 on the demo motor: the clock starts at 0 and ticks by 1. *)
Lemma X3_time_channel_witness :
  runSimulation 10 demo_motor None = Some (Ok (Burnout, demo_result))
  /\ ch_time demo_result !! 0%nat = Some 0%float
  /\ ch_time demo_result !! 1%nat = Some 1%float
  /\ 3%float = (2 + 1)%float.
Proof.
  split; [exact demo_motor_burns_out|].
  destruct (X3_time_channel 10 demo_motor None Burnout demo_result
              demo_motor_burns_out ltac:(discriminate)) as (H0 & H1 & Hstep).
  split; [exact H0|]. split; [exact H1|].
  exact (Hstep 2%nat 2%float 3%float ltac:(lia) eq_refl eq_refl).
Defined.

(** X4 on the demo motor: 3000 of propellant before and at ignition. *)
Lemma X4_seed_samples_witness :
  runSimulation 10 demo_motor None = Some (Ok (Burnout, demo_result))
  /\ ch_mass demo_result !! 0%nat = Some [3000%float]
  /\ ch_mass demo_result !! 1%nat = Some [3000%float].
Proof.
  split; [exact demo_motor_burns_out|].
  destruct (X4_seed_samples 10 demo_motor None Burnout demo_result
              demo_motor_burns_out ltac:(discriminate))
    as (p & Hp & _ & _ & _ & _ & H0 & H1 & _).
  injection Hp as <-.
  split; [exact H0 | exact H1].
Defined.

(** X5 on the demo motor: the pressure and the thrust of the last sample,
    where KN is 0. *)
Lemma X5_pressure_and_force_follow_kn_witness :
  runSimulation 10 demo_motor None = Some (Ok (Burnout, demo_result))
  /\ ch_kn demo_result !! 4%nat = Some 0%float
  /\ exists p_4 f_4,
       ch_pressure demo_result !! 4%nat = Some p_4
       /\ ch_force demo_result !! 4%nat = Some f_4
       /\ calcIdealPressure demo_motor [] (Some 0%float) 0%float = Ok p_4
       /\ calcForce demo_motor [] (Some p_4) 100%float 0%float = Ok f_4.
Proof.
  split; [exact demo_motor_burns_out|]. split; [reflexivity|].
  destruct (X5_pressure_and_force_follow_kn 10 demo_motor None Burnout
              demo_result demo_motor_burns_out 4%nat 0%float
              ltac:(lia) eq_refl)
    as (p_4 & f_4 & Hp & Hf & Hpr & Hfo).
  exists p_4, f_4. split; [exact Hp|]. split; [exact Hf|].
  split; [apply Hpr | apply Hfo].
Defined.

(** X6 on the first pass of the demo motor: its grain regresses from 0 to
    1, and the mass recorded is that of regression 0. *)
Lemma X6_sweep_grain_by_grain_witness :
  exists (simRes simRes' : simulationResult) regs' mass,
    at_loop_head demo_motor simRes [0%float]
    /\ burn_step (setup_grains demo_motor) 1%float 1%float 0%float 1000%float
         100%float 0.5%float simRes [0%float] = Ok (simRes', regs')
    /\ getLast (ch_mass simRes') = Ok mass
    /\ regs' !! 0%nat = Some 1%float
    /\ mass !! 0%nat = Some 3000%float.
Proof.
  destruct demo_at_loop_head
    as (simRes & regs & Hat & -> & Hma & pressure & simRes' & regs' & Hpr
        & Hstep).
  destruct (X6_sweep_grain_by_grain demo_motor demo_propellant simRes simRes'
              [0%float] regs' _ _ Hat eq_refl Hstep Hpr Hma)
    as (mass & flow & flux & Hmass & _ & _ & Hall).
  exists simRes, simRes', regs', mass.
  split; [exact Hat|]. split; [exact Hstep|]. split; [exact Hmass|].
  pose proof (Hall 0%nat demo_grain 0%float 3000%float 0%float
                eq_refl eq_refl eq_refl eq_refl) as H.
  vm_compute in H. destruct H as (Hreg & Hm & _).
  split; [exact Hreg | exact Hm].
Defined.

(** X7 on a motor without grains: rejected. *)
Lemma X7_rejected_iff_witness :
  runSimulation 10 empty_motor None = Some (Ok (Rejected, validate empty_motor))
  /\ (grains empty_motor = [] \/ propellant empty_motor = None
      \/ (exists gid grain, grains empty_motor !! gid = Some grain
                            /\ isEndBurningGrain grain = true /\ gid <> 0%nat)
      \/ (exists grain a, grain ∈ grains empty_motor
                          /\ a ∈ getGeometryErrors grain /\ level a = ERROR)
      \/ (exists a, a ∈ getGeometryErrors (nozzle empty_motor)
                    /\ level a = ERROR)).
Proof.
  pose proof (proj1 (X7_rejected_iff empty_motor) (or_introl eq_refl) 10%nat
                None) as Hrun.
  split; [exact Hrun|].
  exact (proj2 (X7_rejected_iff empty_motor) 10%nat None _ Hrun).
Defined.

(** X8 on the misplaced end burner: its alerts are located at "Grain 2". *)
Lemma X8_grain_alerts_located_witness :
  runSimulation 10 misplaced_motor None
  = Some (Ok (Rejected, validate misplaced_motor))
  /\ SimAlert ERROR GEOMETRY "Length must not be 0" "Grain 2"
     ∈ alerts (validate misplaced_motor)
  /\ SimAlert ERROR CONSTRAINT
       "End burning grains must be the forward-most grain in the motor"
       "Grain 2" ∈ alerts (validate misplaced_motor).
Proof.
  split; [exact misplaced_motor_rejected|].
  destruct (X8_grain_alerts_located 10 misplaced_motor None Rejected _
              misplaced_motor_rejected 1%nat
              (SlabGrain EndBurner 1%float 0%float 1%float) eq_refl)
    as (Hgeom & Hend).
  split.
  - apply (Hgeom (SimAlert ERROR GEOMETRY "Length must not be 0" "")).
    vm_compute. by left.
  - apply Hend; [reflexivity | discriminate].
Defined.

(** X9 on the demo motor. *)
Lemma X9_silent_callback_witness :
  (forall calls, never_cancel calls = false)
  /\ runSimulation 10 demo_motor (Some never_cancel)
     = Some (Ok (Burnout, demo_result)).
Proof.
  split; [reflexivity|].
  rewrite (X9_silent_callback 10 demo_motor never_cancel (fun _ => eq_refl)).
  exact demo_motor_burns_out.
Defined.

(** X10 on the demo motor, cancelled at the second call: its four samples
    are the first four of the five of the full run. *)
Lemma X10_cancelling_truncates_witness :
  runSimulation 10 demo_motor (Some cancel_at_second_call)
  = Some (Ok (Cancelled 2, demo_cancelled))
  /\ runSimulation 10 demo_motor None = Some (Ok (Burnout, demo_result))
  /\ ch_force demo_cancelled = take 4 (ch_force demo_result)
  /\ ch_mass demo_cancelled = take 4 (ch_mass demo_result).
Proof.
  split; [exact demo_motor_cancelled|]. split; [exact demo_motor_burns_out|].
  destruct (X10_cancelling_truncates 10 10 demo_motor cancel_at_second_call
              2 Burnout demo_cancelled demo_result demo_motor_cancelled
              demo_motor_burns_out) as (_ & _ & _ & Hf & Hm & _).
  split; [exact Hf | exact Hm].
Defined.

(** X11 on the demo motor: the port WARNING, and no other, since neither
    limit is exceeded. *)
Lemma X11_alerts_in_order_witness :
  runSimulation 10 demo_motor None = Some (Ok (Burnout, demo_result))
  /\ exists checked : simulationResult,
       check_port (setup_grains demo_motor) (validate demo_motor) = Ok checked
       /\ alerts demo_result = alerts checked.
Proof.
  split; [exact demo_motor_burns_out|].
  destruct (X11_alerts_in_order 10 demo_motor None Burnout demo_result
              demo_motor_burns_out)
    as (checked & peakFlux & peakPressure & Hport & Hflux & Hpr & Hal).
  exists checked. split; [exact Hport|].
  vm_compute in Hflux. injection Hflux as <-.
  vm_compute in Hpr. injection Hpr as <-.
  rewrite Hal.
  change (alerts checked ++ [] ++ [] = alerts checked).
  by rewrite app_nil_r.
Defined.

(** X12 on the motor whose propellant does not burn. *)
Lemma X12_no_thrust_no_loop_witness :
  exists res,
    runSimulation 1 inert_motor (Some cancel_at_second_call)
    = Some (Ok (Burnout, res))
    /\ samples 2 res /\ success res = true.
Proof.
  apply (X12_no_thrust_no_loop 0 inert_motor (Some cancel_at_second_call)).
  - exact float_mul_0_not_below.
  - vm_compute. reflexivity.
  - vm_compute. reflexivity.
Defined.

(** X13 on the demo motor: a second regression is not looked at. *)
Lemma X13_calcKN_pairs_witness :
  calcKN demo_motor ([0%float] ++ [7%float]) 0.5%float
  = calcKN demo_motor [0%float] 0.5%float.
Proof.
  exact (proj1 (proj2 (X13_calcKN_pairs demo_motor [0%float] 0.5%float))
           [7%float] eq_refl).
Defined.

(** X14 on a motor without propellant, and on the demo motor. *)
Lemma X14_propellant_needed_witness :
  calcForce empty_motor [] (Some 0%float) 100%float 0.5%float
  = Raise AttributeError
  /\ calcIdealPressure demo_motor [0%float] None 0.5%float
     <> Raise AttributeError
  /\ calcForce demo_motor [0%float] None 100%float 0.5%float
     <> Raise AttributeError.
Proof.
  split; [|split].
  - exact (proj2 (proj1 (proj2 (X14_propellant_needed empty_motor [] 100%float
                                  0.5%float)) (Some 0%float)) eq_refl).
  - intros H.
    apply (proj1 (X14_propellant_needed demo_motor [0%float] 100%float
                    0.5%float) None) in H.
    discriminate.
  - intros H.
    apply (proj1 (proj2 (X14_propellant_needed demo_motor [0%float] 100%float
                           0.5%float)) None) in H.
    discriminate.
Defined.

(** X15 on the demo motor, on doubles. *)
Lemma X15_force_channel_nonnegative_witness :
  runSimulation 10 demo_motor None = Some (Ok (Burnout, demo_result))
  /\ Forall nonnegative (ch_force demo_result).
Proof.
  split; [exact demo_motor_burns_out|].
  exact (X15_force_channel_nonnegative 10 demo_motor None Burnout demo_result
           float_NumOrder demo_motor_burns_out).
Defined.

(** X16 on the dictionary of the demo motor, and on one with a grain of
    an unknown type. *)
Lemma X16_applyDict_grain_types_witness :
  (exists self' : motor,
      applyDict empty_motor (getDict demo_motor) = Ok self'
      /\ length (grains self') = 1%nat)
  /\ applyDict empty_motor unknown_grain_dict = Raise KeyError.
Proof.
  split.
  - destruct (proj1 (X16_applyDict_grain_types empty_motor
                       (getDict demo_motor)))
      as (self' & Happly & Hgrains & _).
    { repeat constructor; discriminate. }
    exists self'. split; [exact Happly|].
    by apply Forall2_length in Hgrains.
  - apply (proj2 (X16_applyDict_grain_types empty_motor unknown_grain_dict)).
    apply Exists_cons_tl, Exists_cons_hd. reflexivity.
Defined.

(** X17 on a result without alerts, one alert being expected: it is
    reported missing, and the alerts are said to match. *)
Lemma X17_compareAlerts_lines_witness :
  Forall (fun a => description a ∈ ["Expected"]) (alerts quiet_result)
  /\ last (fst (compareAlerts quiet_result ["Expected"]))
     = Some (TAB +:+ "Simulation alerts matched.")
  /\ length (fst (compareAlerts quiet_result ["Expected"])) = 2%nat.
Proof.
  split; [constructor|]. split.
  - apply (proj2 (X17_compareAlerts_lines quiet_result ["Expected"])).
    constructor.
  - reflexivity.
Defined.


(** X19 on reference statistics that lack the key "isp": KeyError after
    two lines; and on reference statistics whose burn time is 0:
    ZeroDivisionError after the header. *)
Lemma X19_compareStats_keys_witness :
  (length (fst (compareStats exact_result partial_stats)) = 2%nat
   /\ snd (compareStats exact_result partial_stats) = Raise KeyError)
  /\ (length (fst (compareStats exact_result zero_stats)) = 1%nat
      /\ snd (compareStats exact_result zero_stats) = Raise ZeroDivisionError).
Proof.
  split.
  - pose proof (X19_compareStats_keys exact_result partial_stats) as H.
    cbv zeta in H.
    change (partial_stats !! "burnTime") with (Some (qc 2)) in H.
    change (partial_stats !! "isp") with (@None Qc) in H.
    exact H.
  - pose proof (X19_compareStats_keys exact_result zero_stats) as H.
    cbv zeta in H.
    change (zero_stats !! "burnTime") with (Some (qc 0)) in H.
    exact H.
Defined.

(** X20 on exact rationals, with 355/113 for pi. *)
Lemma X20_geometry_nonnegative_witness :
  nle (qc 0) (cylinderArea (qc 2) (qc 3))
  /\ nle (qc 0) (cylinderVolume (qc 2) (qc 3))
  /\ nle (qc 0) (circleDiameterFromArea (qc 4)).
Proof.
  destruct (X20_geometry_nonnegative (qc 2) (qc 3) (qc 4) Qc_NumExact
              eq_refl eq_refl eq_refl eq_refl) as (_ & _ & H1 & H2 & H3).
  split; [exact H1|]. split; [exact H2 | exact H3].
Defined.


(** X22 on the exact motor. *)
Lemma X22_samples_nonnegative_witness :
  exists res,
    runSimulation 10 exact_motor None = Some (Ok (Burnout, res))
    /\ Forall (nle (qc 0)) (ch_pressure res).
Proof.
  assert (exists res,
             runSimulation 10 exact_motor None = Some (Ok (Burnout, res)))
    as [res Hrun] by (eexists; vm_compute; reflexivity).
  exists res. split; [exact Hrun|].
  exact (proj1 (proj2 (X22_samples_nonnegative (exact:=Qc_NumExact) 10
                         exact_motor None Burnout res exact_motor_physical
                         Hrun))).
Defined.

(** X23 on a diameter of 3. *)
Lemma X23_diameter_of_area_witness :
  (0 <= qc 3)%Qc /\ circleDiameterFromArea (circleArea (qc 3)) = qc 3.
Proof.
  split; [discriminate|]. apply X23_diameter_of_area. discriminate.
Defined.

(** X24 on a force channel at its peak of 5, with a threshold of 1
    percent. *)
Lemma X24_peak_thrust_burns_on_witness :
  loop_test (qc 1) [qc 0; qc 5] = Ok true.
Proof.
  apply (X24_peak_thrust_burns_on (qc 1) (qc 5) [qc 0; qc 5]);
    reflexivity.
Defined.

(** X25 on a result that matches its reference: the overall error is 0. *)
Lemma X25_score_bounds_witness :
  exists score,
    snd (compareStats exact_result exact_stats) = Ok score
    /\ score = 0%Qc /\ (score <= 1)%Qc.
Proof.
  destruct (X25_score_bounds exact_result exact_stats (qc 2) (qc 5) (qc 4)
              eq_refl eq_refl eq_refl)
    as (score & Hscore & Hzero & Hbounds); try discriminate.
  exists score. split; [exact Hscore|]. split.
  - apply Hzero; reflexivity.
  - apply Hbounds; split; discriminate.
Defined.

(** X26 on the exact motor, its one grain burnt through. *)
Lemma X26_spent_motor_witness :
  calcKN exact_motor [qc 3] (Q2Qc (1 # 2)) = 0%Qc
  /\ calcIdealPressure exact_motor [qc 3] None (Q2Qc (1 # 2)) = Ok 0%Qc
  /\ calcForce exact_motor [qc 3] None (qc 100) (Q2Qc (1 # 2)) = Ok 0%Qc.
Proof.
  apply (X26_spent_motor exact_motor exact_propellant [qc 3] (qc 100)
           (Q2Qc (1 # 2))).
  - reflexivity.
  - discriminate.
  - reflexivity.
  - reflexivity.
  - reflexivity.
  - reflexivity.
  - repeat constructor.
Defined.
